(** * Trading-Engine: condition evaluator, strategy life cycle, market feed

    A shallow embedding of the Python sources
    [condition_eval.py], [models.py], [strategy_engine.py] and
    [market_sim.py], with the properties of the written specification
    stated and settled against it.

    Conventions of the embedding.
    - Python [str] is [string]; a character is a code point below 256.
    - A Python number is the rational it denotes.  The profit of a
      strategy is what the arithmetic of [models.py] gives before binary64
      rounding; the prices of the market feed are binary64 floats, with
      the rounding of every operation of [market_sim.py] written out.
    - [datetime.now()] is an explicit argument [now] of the operation
      that reads the clock.
    - A Python object that is shared and mutated (a [Strategy]) lives in a
      store and is named by its address. *)

From Stdlib Require Import String Ascii List ZArith QArith Qround Lia Bool.
From Stdlib Require Import DecimalString Qabs Qpower Lqa.
From stdpp Require Import base option list gmap strings.

Import ListNotations.
Local Open Scope string_scope.

(** ** Python string and [re] primitives used by the sources *)

Module Py.

(** [str.startswith]-style test: is [p] a prefix of [s]? *)
Fixpoint starts_with (p s : string) : bool :=
  match p, s with
  | EmptyString, _ => true
  | String a p', String b s' => if Ascii.eqb a b then starts_with p' s' else false
  | String _ _, EmptyString => false
  end.

(** One left-to-right pass of [re.sub] for a pattern that never matches the
    empty string.  [matcher s] looks for a match that starts at the head of
    [s] and gives its length, minus one, together with the replacement
    text.  [skip] counts the characters of a match still to be dropped. *)
Fixpoint re_sub (matcher : string -> option (nat * string))
    (skip : nat) (s : string) : string :=
  match s with
  | EmptyString => EmptyString
  | String c rest =>
      match skip with
      | S k => re_sub matcher k rest
      | O =>
          match matcher s with
          | Some (k, repl) => repl ++ re_sub matcher k rest
          | None => String c (re_sub matcher O rest)
          end
      end
  end.

(** [old] is a literal, non-empty string: [s.replace(old, new)]. *)
Definition replace (old new : string) (s : string) : string :=
  re_sub (fun t => if starts_with old t
                   then Some (Nat.pred (String.length old), new) else None) O s.

(** [\d] on code points below 256. *)
Definition is_digit (c : ascii) : bool :=
  let n := nat_of_ascii c in (48 <=? n)%nat && (n <=? 57)%nat.

(** [\s] on code points below 256, as [str.isspace]. *)
Definition is_space (c : ascii) : bool :=
  let n := nat_of_ascii c in
  ((9 <=? n)%nat && (n <=? 13)%nat) || ((28 <=? n)%nat && (n <=? 32)%nat)
  || (n =? 133)%nat || (n =? 160)%nat.

(** Length of the longest run of characters satisfying [p] at the head. *)
Fixpoint span_len (p : ascii -> bool) (s : string) : nat :=
  match s with
  | String c rest => if p c then S (span_len p rest) else O
  | EmptyString => O
  end.

Fixpoint drop (n : nat) (s : string) : string :=
  match n, s with
  | O, _ => s
  | S k, String _ rest => drop k rest
  | S _, EmptyString => EmptyString
  end.

Fixpoint take (n : nat) (s : string) : string :=
  match n, s with
  | O, _ => EmptyString
  | S k, String c rest => String c (take k rest)
  | S _, EmptyString => EmptyString
  end.

(** Removal of every character of a class: [re.sub('[...]+', '', s)]. *)
Fixpoint remove_class (p : ascii -> bool) (s : string) : string :=
  match s with
  | EmptyString => EmptyString
  | String c rest => if p c then remove_class p rest else String c (remove_class p rest)
  end.

(** [int(s)] for a string of decimal digits. *)
Definition digit_val (c : ascii) : nat := nat_of_ascii c - 48.

Fixpoint int_of_digits_acc (acc : nat) (s : string) : nat :=
  match s with
  | EmptyString => acc
  | String c rest => int_of_digits_acc (10 * acc + digit_val c) rest
  end.

Definition int_of_digits (s : string) : nat := int_of_digits_acc 0 s.

(** [str(n)] for a natural number. *)
Definition str_of_nat (n : nat) : string :=
  NilEmpty.string_of_uint (Nat.to_uint n).

(** Every character of [s] satisfies [p]. *)
Definition all_of (p : ascii -> bool) (s : string) : bool :=
  (span_len p s =? String.length s)%nat.

(** [s.count(c)] for a character. *)
Fixpoint count (c : ascii) (s : string) : nat :=
  match s with
  | EmptyString => O
  | String d rest => ((if Ascii.eqb c d then 1 else 0) + count c rest)%nat
  end.

(** A naive [datetime].  The sources read [hour] and [minute] of it; two
    stamps are equal when all their fields are. *)
Record datetime : Type := {
  year : Z;
  month : Z;
  day : Z;
  hour : Z;
  minute : Z;
  second : Z;
  microsecond : Z
}.

#[global] Instance datetime_eq_dec : EqDecision datetime.
Proof. solve_decision. Defined.

Fixpoint elem (c : ascii) (s : string) : bool :=
  match s with
  | EmptyString => false
  | String d rest => Ascii.eqb c d || elem c rest
  end.

End Py.

(** ** condition_eval.py *)

Module ConditionEvaluator.
Import Py.

(** The regular expression [(\d{k}:\d{2})] tried at the head of [s]. *)
Definition match_time_with (k : nat) (s : string) : option (string * string) :=
  if (span_len is_digit (take k s) =? k)%nat
     && starts_with ":" (drop k s)
     && (span_len is_digit (take 2 (drop (S k) s)) =? 2)%nat
  then Some (take k s, take 2 (drop (S k) s))
  else None.

(** [(\d{1,2}:\d{2})]: the greedy [{1,2}] takes two digits first and
    backtracks to one. *)
Definition match_time (s : string) : option (string * string) :=
  match match_time_with 2 s with
  | Some hm => Some hm
  | None => match_time_with 1 s
  end.

(** [repl]: [h, m = map(int, match.group(1).split(":")); str(h*60 + m)]. *)
Definition repl (hm : string * string) : string :=
  let '(h, m) := hm in
  str_of_nat (int_of_digits h * 60 + int_of_digits m).

Definition time_matcher (s : string) : option (nat * string) :=
  match match_time s with
  | Some (h, m) => Some (String.length h + 2, repl (h, m))
  | None => None
  end.

Definition _normalize_time (time_str : string) : string :=
  re_sub time_matcher O time_str.

(** The shape [\d{1,2}] of the hours and [\d{2}] of the minutes. *)
Definition is_hours (h : string) : bool :=
  ((String.length h =? 1)%nat || (String.length h =? 2)%nat) && all_of is_digit h.

Definition is_minutes (m : string) : bool :=
  (String.length m =? 2)%nat && all_of is_digit m.

(** [\d+\.?\d*] at the head of [s]. *)
Definition number_matcher (s : string) : option (nat * string) :=
  let n1 := span_len is_digit s in
  match n1 with
  | O => None
  | S _ =>
      let dot := if starts_with "." (drop n1 s) then 1 else 0 in
      let n2 := span_len is_digit (drop (n1 + dot) s) in
      Some (Nat.pred (n1 + dot + n2), "")
  end.

(** An alternation of two literal words, [w1|w2], at the head of [s]. *)
Definition words_matcher (w1 w2 : string) (s : string) : option (nat * string) :=
  if starts_with w1 s then Some (Nat.pred (String.length w1), "")
  else if starts_with w2 s then Some (Nat.pred (String.length w2), "")
  else None.

Definition is_comparison_char (c : ascii) : bool := elem c "><=!".
Definition is_paren_or_colon (c : ascii) : bool := elem c "():".

(** The text left after the six removals of [_is_safe_expression]. *)
Definition cleaned (expression : string) : string :=
  let cleaned := re_sub number_matcher O expression in
  let cleaned := re_sub (words_matcher "price" "time") O cleaned in
  let cleaned := remove_class is_comparison_char cleaned in
  let cleaned := remove_class is_space cleaned in
  let cleaned := re_sub (words_matcher "and" "or") O cleaned in
  let cleaned := remove_class is_paren_or_colon cleaned in
  cleaned.

Definition _is_safe_expression (expression : string) : bool :=
  match cleaned expression with
  | EmptyString => true
  | String _ _ => false
  end.

(** The characters the allow-list is written with: digits and the decimal
    point, the letters of [price], [time], [and], [or], [AND], [OR], the
    comparison characters, parentheses, colons and whitespace. *)
Definition allowed_char (c : ascii) : bool :=
  is_digit c || is_space c || elem c ".:()><=!"
  || elem c "pricetimeandor" || elem c "ANDOR".

(** The text [_safe_eval] validates and evaluates. *)
Definition prepared (expression : string) : string :=
  _normalize_time (replace " OR " " or " (replace " AND " " and " expression)).

(** *** Values, exceptions and the interface of the builtin [eval] *)

(** The objects an expression can evaluate to: numbers, booleans, the
    builtins and the dictionary of [safe_dict], and any other object,
    known by what [bool] makes of it. *)
Inductive value : Type :=
  | VInt (n : Z)
  | VFloat (x : Q)
  | VBool (b : bool)
  | VBuiltin (name : string)
  | VDict (items : list (string * string))
  | VOther (truth : bool).

Inductive exn : Type :=
  | SyntaxError
  | NameError (name : string)
  | TypeError
  | ValueError (msg : string).

Inductive result (A : Type) : Type :=
  | Ok (a : A)
  | Raise (e : exn).
Arguments Ok {A} a.
Arguments Raise {A} e.

Definition bind {A B : Type} (r : result A) (k : A -> result B) : result B :=
  match r with
  | Ok a => k a
  | Raise e => Raise e
  end.

(** [try: body except Exception: handler]. *)
Definition try_except {A : Type} (body : result A) (handler : exn -> A) : A :=
  match body with
  | Ok a => a
  | Raise e => handler e
  end.

(** [bool(v)]. *)
Definition truthy (v : value) : bool :=
  match v with
  | VInt n => negb (n =? 0)%Z
  | VFloat x => negb (Qeq_bool x 0)
  | VBool b => b
  | VBuiltin _ => true
  | VDict items => match items with [] => false | _ => true end
  | VOther truth => truth
  end.

Definition namespace : Type := gmap string value.

(** [self.safe_dict] of [__init__]. *)
Definition safe_dict : namespace :=
  <["__builtins__" := VDict []]>
  (<["abs" := VBuiltin "abs"]>
  (<["max" := VBuiltin "max"]>
  (<["min" := VBuiltin "min"]> ∅))).

Section Evaluate.

(** The builtin [eval(expression, globals, locals)]. *)
Variable py_eval : string -> namespace -> namespace -> result value.

Definition _safe_eval (expression : string) (variables : namespace) : result value :=
  let expression := replace " AND " " and " expression in
  let expression := replace " OR " " or " expression in
  let expression := _normalize_time expression in
  (* {**self.safe_dict, **variables}: the right operand wins *)
  let eval_dict : namespace := variables ∪ safe_dict in
  if negb (_is_safe_expression expression)
  then Raise (ValueError ("Unsafe expression: " ++ expression))
  else
    (* the inner try logs and re-raises *)
    match py_eval expression (<["__builtins__" := VDict []]> ∅) eval_dict with
    | Ok result => Ok result
    | Raise e => Raise e
    end.

Definition evaluate (now : datetime) (condition : string) (current_price : Q) : bool :=
  try_except
    (let variables : namespace :=
       <["price" := VFloat current_price]>
       (<["time" := VInt (hour now * 60 + minute now)]> ∅) in
     bind (_safe_eval condition variables) (fun result =>
     Ok (truthy result)))
    (fun _ => false).

End Evaluate.

End ConditionEvaluator.

(** ** The builtin [eval] on the comparison fragment

    The sources hand the filtered text to Python's [eval].  [PyEval.eval]
    models it on the fragment the conditions are written in: decimal
    integer and fixed-point literals, names, the comparison operators
    (chained or not), [and], [or], parentheses and blanks.  Text outside
    this fragment is reported as [SyntaxError]; Python accepts more, so
    the model is only consulted on members of the fragment. *)

Module PyEval.
Import Py ConditionEvaluator.

Inductive cmpop : Type := Lt | Gt | LtE | GtE | Eq | NotEq.

Inductive token : Type :=
  | TNum (v : value)
  | TName (id : string)
  | TCmp (op : cmpop)
  | TLPar
  | TRPar
  | TAnd
  | TOr.

Inductive expr : Type :=
  | Constant (v : value)
  | Name (id : string)
  | Compare (lhs : expr) (op : cmpop) (rhs : expr)
  | BoolAnd (e1 e2 : expr)
  | BoolOr (e1 e2 : expr).

Definition is_ident_start (c : ascii) : bool :=
  let n := nat_of_ascii c in
  ((65 <=? n)%nat && (n <=? 90)%nat) || ((97 <=? n)%nat && (n <=? 122)%nat)
  || (n =? 95)%nat.

Definition is_ident_char (c : ascii) : bool := is_ident_start c || is_digit c.

Definition is_blank (c : ascii) : bool :=
  (nat_of_ascii c =? 32)%nat || (nat_of_ascii c =? 9)%nat.

(** Python's reserved words other than [and] and [or]. *)
Definition reserved : list string :=
  ["False"; "None"; "True"; "as"; "assert"; "async"; "await"; "break";
   "class"; "continue"; "def"; "del"; "elif"; "else"; "except"; "finally";
   "for"; "from"; "global"; "if"; "import"; "in"; "is"; "lambda";
   "nonlocal"; "not"; "pass"; "raise"; "return"; "try"; "while"; "with";
   "yield"].

Definition head_is (p : ascii -> bool) (s : string) : bool :=
  match s with
  | String c _ => p c
  | EmptyString => false
  end.

(** A number at the head of [s]: its token and the rest of the text.
    A decimal integer with a leading zero is refused unless it is zero. *)
Definition lex_number (s : string) : result (token * string) :=
  let n1 := span_len is_digit s in
  let ip := take n1 s in
  let after := drop n1 s in
  if starts_with "." after then
    let n2 := span_len is_digit (drop 1 after) in
    let fp := take n2 (drop 1 after) in
    let rest := drop n2 (drop 1 after) in
    if head_is is_ident_start rest || starts_with "." rest then Raise SyntaxError
    else Ok (TNum (VFloat (Z.of_nat (int_of_digits (ip ++ fp))
                           # Pos.of_nat (10 ^ n2))), rest)
  else if head_is is_ident_start after then Raise SyntaxError
  else if starts_with "0" ip && negb (int_of_digits ip =? 0)%nat then Raise SyntaxError
  else Ok (TNum (VInt (Z.of_nat (int_of_digits ip))), after).

Definition lex_name (s : string) : result (token * string) :=
  let n := span_len is_ident_char s in
  let id := take n s in
  let rest := drop n s in
  if String.eqb id "and" then Ok (TAnd, rest)
  else if String.eqb id "or" then Ok (TOr, rest)
  else if existsb (String.eqb id) reserved then Raise SyntaxError
  else Ok (TName id, rest).

Definition lex_operator (s : string) : result (token * string) :=
  if starts_with "<=" s then Ok (TCmp LtE, drop 2 s)
  else if starts_with ">=" s then Ok (TCmp GtE, drop 2 s)
  else if starts_with "==" s then Ok (TCmp Eq, drop 2 s)
  else if starts_with "!=" s then Ok (TCmp NotEq, drop 2 s)
  else if starts_with "<" s then Ok (TCmp Lt, drop 1 s)
  else if starts_with ">" s then Ok (TCmp Gt, drop 1 s)
  else if starts_with "(" s then Ok (TLPar, drop 1 s)
  else if starts_with ")" s then Ok (TRPar, drop 1 s)
  else Raise SyntaxError.

Fixpoint tokenize (fuel : nat) (s : string) : result (list token) :=
  match fuel with
  | O => Raise SyntaxError
  | S fuel =>
      match s with
      | EmptyString => Ok []
      | String c rest =>
          if is_blank c then tokenize fuel rest
          else
            bind (if is_digit c then lex_number s
                  else if is_ident_start c then lex_name s
                  else lex_operator s) (fun '(t, rest) =>
            bind (tokenize fuel rest) (fun ts =>
            Ok (t :: ts)))
      end
  end.

(** Recursive descent over
    [or_test: and_test ('or' and_test)*],
    [and_test: comparison ('and' comparison)*],
    [comparison: atom (comp_op atom)*],
    [atom: NUMBER | NAME | '(' or_test ')'].
    A chain [a < b < c] is read as [a < b and b < c]; evaluation has no
    effect, so evaluating [b] twice gives the value of the chain. *)
Fixpoint parse_or (fuel : nat) (ts : list token) : option (expr * list token) :=
  match fuel with
  | O => None
  | S fuel =>
      match parse_and fuel ts with
      | Some (e1, TOr :: ts1) =>
          match parse_or fuel ts1 with
          | Some (e2, ts2) => Some (BoolOr e1 e2, ts2)
          | None => None
          end
      | r => r
      end
  end
with parse_and (fuel : nat) (ts : list token) : option (expr * list token) :=
  match fuel with
  | O => None
  | S fuel =>
      match parse_comparison fuel ts with
      | Some (e1, TAnd :: ts1) =>
          match parse_and fuel ts1 with
          | Some (e2, ts2) => Some (BoolAnd e1 e2, ts2)
          | None => None
          end
      | r => r
      end
  end
with parse_comparison (fuel : nat) (ts : list token) : option (expr * list token) :=
  match fuel with
  | O => None
  | S fuel =>
      match parse_atom fuel ts with
      | Some (e1, TCmp op :: ts1) => parse_chain fuel e1 op ts1
      | r => r
      end
  end
with parse_chain (fuel : nat) (lhs : expr) (op : cmpop) (ts : list token)
    : option (expr * list token) :=
  match fuel with
  | O => None
  | S fuel =>
      match parse_atom fuel ts with
      | Some (rhs, TCmp op2 :: ts1) =>
          match parse_chain fuel rhs op2 ts1 with
          | Some (more, ts2) => Some (BoolAnd (Compare lhs op rhs) more, ts2)
          | None => None
          end
      | Some (rhs, ts1) => Some (Compare lhs op rhs, ts1)
      | None => None
      end
  end
with parse_atom (fuel : nat) (ts : list token) : option (expr * list token) :=
  match fuel with
  | O => None
  | S fuel =>
      match ts with
      | TNum v :: ts1 => Some (Constant v, ts1)
      | TName id :: ts1 => Some (Name id, ts1)
      | TLPar :: ts1 =>
          match parse_or fuel ts1 with
          | Some (e, TRPar :: ts2) => Some (e, ts2)
          | _ => None
          end
      | _ => None
      end
  end.

Definition parse (s : string) : result expr :=
  bind (tokenize (S (String.length s)) s) (fun ts =>
  match parse_or (5 * S (List.length ts)) ts with
  | Some (e, []) => Ok e
  | _ => Raise SyntaxError
  end).

(** Numbers compare by value across [int], [float] and [bool]. *)
Definition as_number (v : value) : option Q :=
  match v with
  | VInt n => Some (inject_Z n)
  | VFloat x => Some x
  | VBool b => Some (if b then 1 else 0)%Q
  | VBuiltin _ | VDict _ | VOther _ => None
  end.

Definition same_object (v w : value) : bool :=
  match v, w with
  | VBuiltin a, VBuiltin b => String.eqb a b
  | VDict [], VDict [] => true
  | _, _ => false
  end.

Definition compare (op : cmpop) (v w : value) : result value :=
  match as_number v, as_number w with
  | Some x, Some y =>
      let c := (x ?= y)%Q in
      Ok (VBool match op, c with
                | Lt, Datatypes.Lt => true
                | Gt, Datatypes.Gt => true
                | LtE, (Datatypes.Lt | Datatypes.Eq) => true
                | GtE, (Datatypes.Gt | Datatypes.Eq) => true
                | Eq, Datatypes.Eq => true
                | NotEq, (Datatypes.Lt | Datatypes.Gt) => true
                | _, _ => false
                end)
  | _, _ =>
      match op with
      | Eq => Ok (VBool (same_object v w))
      | NotEq => Ok (VBool (negb (same_object v w)))
      | _ => Raise TypeError
      end
  end.

Section Eval.

Variables globals locals : namespace.

(** Name resolution: locals, then globals; the builtins are empty. *)
Definition load_name (id : string) : result value :=
  match locals !! id with
  | Some v => Ok v
  | None =>
      match globals !! id with
      | Some v => Ok v
      | None => Raise (NameError id)
      end
  end.

Fixpoint eval_expr (e : expr) : result value :=
  match e with
  | Constant v => Ok v
  | Name id => load_name id
  | Compare l op r =>
      bind (eval_expr l) (fun v =>
      bind (eval_expr r) (fun w =>
      compare op v w))
  | BoolAnd e1 e2 =>
      bind (eval_expr e1) (fun v =>
      if truthy v then eval_expr e2 else Ok v)
  | BoolOr e1 e2 =>
      bind (eval_expr e1) (fun v =>
      if truthy v then Ok v else eval_expr e2)
  end.

End Eval.

Definition eval (expression : string) (globals locals : namespace) : result value :=
  bind (parse expression) (eval_expr globals locals).

End PyEval.

(** ** models.py *)

Inductive StrategyState : Type := CREATED | OPEN | CLOSED | FORCE_CLOSED | FAILED.

Inductive ExitReason : Type :=
  STOP_LOSS | TARGET_HIT | EXIT_CONDITION | TIME_EXIT | MARKET_CLOSE | ERROR.

#[global] Instance StrategyState_eq_dec : EqDecision StrategyState.
Proof. solve_decision. Defined.

#[global] Instance ExitReason_eq_dec : EqDecision ExitReason.
Proof. solve_decision. Defined.

Module MarketTick.
Record t : Type := mk {
  instrument : string;
  price : Q;
  timestamp : Py.datetime
}.
End MarketTick.

Module Order.
Record t : Type := mk {
  strategy_id : string;
  instrument : string;
  side : string;
  quantity : Z;
  price : Q;
  timestamp : Py.datetime
}.
End Order.

Module Strategy.

Record t : Type := mk {
  strategy_id : string;
  instrument : string;
  entry_condition : string;
  exit_condition : string;
  quantity : Z;
  max_loss : Q;
  max_profit : Q;
  (* runtime state *)
  state : StrategyState;
  entry_price : option Q;
  exit_price : option Q;
  entry_time : option Py.datetime;
  exit_time : option Py.datetime;
  exit_reason : option ExitReason;
  pnl : Q
}.

(** The constructor call of [_load_strategies] on a configured record:
    the runtime fields take their defaults. *)
Definition new (strategy_id instrument entry_condition exit_condition : string)
    (quantity : Z) (max_loss max_profit : Q) : t :=
  mk strategy_id instrument entry_condition exit_condition
     quantity max_loss max_profit
     CREATED None None None None None 0.

(** A record of the strategies file: [strategy_id], [instrument],
    [entry_condition], [exit_condition], [quantity], [max_loss],
    [max_profit]. *)
Definition config : Type := string * string * string * string * Z * Q * Q.

Definition of_config (c : config) : t :=
  let '(strategy_id, instrument, entry_condition, exit_condition,
        quantity, max_loss, max_profit) := c in
  new strategy_id instrument entry_condition exit_condition
      quantity max_loss max_profit.

Definition is_open (self : t) : bool :=
  bool_decide (state self = OPEN).

Definition is_closed (self : t) : bool :=
  bool_decide (state self = CLOSED) || bool_decide (state self = FORCE_CLOSED).

Definition calculate_pnl (self : t) (current_price : Q) : Q :=
  match entry_price self with
  | None => 0
  | Some entry => (current_price - entry) * inject_Z (quantity self)
  end.

Definition enter (now : Py.datetime) (self : t) (price : Q) : t :=
  mk (strategy_id self) (instrument self) (entry_condition self)
     (exit_condition self) (quantity self) (max_loss self) (max_profit self)
     OPEN (Some price) (exit_price self) (Some now) (exit_time self)
     (exit_reason self) (pnl self).

Definition exit (now : Py.datetime) (self : t) (price : Q) (reason : ExitReason) : t :=
  mk (strategy_id self) (instrument self) (entry_condition self)
     (exit_condition self) (quantity self) (max_loss self) (max_profit self)
     (if decide (reason = MARKET_CLOSE) then FORCE_CLOSED else CLOSED)
     (entry_price self) (Some price) (entry_time self) (Some now)
     (Some reason) (calculate_pnl self price).

Definition mark_failed (self : t) : t :=
  mk (strategy_id self) (instrument self) (entry_condition self)
     (exit_condition self) (quantity self) (max_loss self) (max_profit self)
     FAILED (entry_price self) (exit_price self) (entry_time self)
     (exit_time self) (exit_reason self) (pnl self).

(** [==] on an [Optional] field: [None] equals [None] only. *)
Definition optional_eq {A : Type} (eq : A -> A -> bool) (x y : option A) : bool :=
  match x, y with
  | Some a, Some b => eq a b
  | None, None => true
  | _, _ => false
  end.

(** The [__eq__] that [@dataclass] generates: two records are equal when
    every field is, the configured ones and the runtime ones.  Numbers are
    compared by value. *)
Definition __eq__ (self other : t) : bool :=
  String.eqb (strategy_id self) (strategy_id other)
  && String.eqb (instrument self) (instrument other)
  && String.eqb (entry_condition self) (entry_condition other)
  && String.eqb (exit_condition self) (exit_condition other)
  && Z.eqb (quantity self) (quantity other)
  && Qeq_bool (max_loss self) (max_loss other)
  && Qeq_bool (max_profit self) (max_profit other)
  && bool_decide (state self = state other)
  && optional_eq Qeq_bool (entry_price self) (entry_price other)
  && optional_eq Qeq_bool (exit_price self) (exit_price other)
  && optional_eq (fun a b => bool_decide (a = b)) (entry_time self) (entry_time other)
  && optional_eq (fun a b => bool_decide (a = b)) (exit_time self) (exit_time other)
  && optional_eq (fun a b => bool_decide (a = b)) (exit_reason self) (exit_reason other)
  && Qeq_bool (pnl self) (pnl other).

End Strategy.

(** ** Python [float]

    A [float] is an IEEE 754 binary64 number, here the rational it
    denotes: 53 bits of precision, exponents from -1022 on, gradual
    underflow below.  Infinities and NaN are outside the model, so what is
    said of a float result is said of magnitudes up to [max_float]. *)

(** The integer nearest to [x], ties to the even one. *)
Definition round_half_even (x : Q) : Z :=
  let f := Qfloor x in
  match (x - inject_Z f ?= 1 # 2)%Q with
  | Datatypes.Lt => f
  | Datatypes.Gt => (f + 1)%Z
  | Datatypes.Eq => if Z.even f then f else (f + 1)%Z
  end.

(** For [0 < x], the [e] with [2 ^ e <= x < 2 ^ (e + 1)]. *)
Definition ilog2 (x : Q) : Z :=
  let e := (Z.log2 (Qnum x) - Z.log2 (Zpos (Qden x)))%Z in
  if Qle_bool (2 ^ e) x then e else (e - 1)%Z.

(** The exponent of the binade of [x], and its unit in the last place. *)
Definition exponent (x : Q) : Z := Z.max (ilog2 (Qabs x)) (-1022).

Definition ulp (x : Q) : Q := 2 ^ (exponent x - 52).

(** The float nearest to [x], ties to the even significand. *)
Definition binary64 (x : Q) : Q :=
  Qred (inject_Z (round_half_even (x / ulp x)) * ulp x).

(** [sys.float_info.max]. *)
Definition max_float : Q := (2 ^ 53 - 1) * 2 ^ 971.

(** [float(x)] of an [int] or a [float], and the arithmetic of floats. *)
Definition to_float (x : Q) : Q := binary64 x.
Definition float_add (x y : Q) : Q := binary64 (x + y).
Definition float_sub (x y : Q) : Q := binary64 (x - y).
Definition float_mul (x y : Q) : Q := binary64 (x * y).

(** [round(x, 2)] of a float [x]: the multiple of 1/100 nearest to [x],
    ties to the even one, and of that the nearest float. *)
Definition round2 (x : Q) : Q := binary64 (round_half_even (x * 100) # 100).

#[global] Arguments binary64 : simpl never.
#[global] Arguments to_float : simpl never.
#[global] Arguments float_add : simpl never.
#[global] Arguments float_sub : simpl never.
#[global] Arguments float_mul : simpl never.
#[global] Arguments round2 : simpl never.

(** ** market_sim.py *)

Module MarketDataSimulator.

(** An [asyncio.Queue(maxsize=100)]: its pending items, oldest first;
    [None] is the stop signal. *)
Definition queue : Type := list (option MarketTick.t).
Definition maxsize : nat := 100.

(** [subscribers] keeps the insertion order of the dictionary, which is
    the order of a round; a queue is named by its address in [queues]. *)
Record t : Type := mk {
  is_running : bool;
  subscribers : list (string * list nat);
  current_prices : gmap string Q;
  queues : gmap nat queue
}.

(** [config.BASE_PRICES]. *)
Definition BASE_PRICES : gmap string Q :=
  <["NIFTY" := 20100%Q]> (<["BANKNIFTY" := 45000%Q]> (<["FINNIFTY" := 19500%Q]> ∅)).

Definition init : t := mk false [] BASE_PRICES ∅.

Definition keys (self : t) : list string := map fst (subscribers self).

(** [self.subscribers[instrument]] on a key that is present. *)
Fixpoint lookup_subscribers (instrument : string) (subs : list (string * list nat))
    : option (list nat) :=
  match subs with
  | [] => None
  | (k, qs) :: rest =>
      if String.eqb k instrument then Some qs else lookup_subscribers instrument rest
  end.

(** [self.subscribers[instrument].add(queue)] on the [defaultdict]: a
    missing key is appended with a singleton set. *)
Fixpoint add_subscriber (instrument : string) (q : nat) (subs : list (string * list nat))
    : list (string * list nat) :=
  match subs with
  | [] => [(instrument, [q])]
  | (k, qs) :: rest =>
      if String.eqb k instrument then (k, (qs ++ [q])%list) :: rest
      else (k, qs) :: add_subscriber instrument q rest
  end.

Fixpoint discard_subscriber (instrument : string) (q : nat) (subs : list (string * list nat))
    : list (string * list nat) :=
  match subs with
  | [] => []
  | (k, qs) :: rest =>
      if String.eqb k instrument
      then (k, filter (fun q' => q' ≠ q) qs) :: rest
      else (k, qs) :: discard_subscriber instrument q rest
  end.

(** A fresh queue address. *)
Definition fresh_queue (self : t) : nat :=
  S (foldr Nat.max 0 (map fst (map_to_list (queues self)))).

Definition subscribe (self : t) (instrument : string) : t * nat :=
  let q := fresh_queue self in
  (mk (is_running self) (add_subscriber instrument q (subscribers self))
      (current_prices self) (<[q := []]> (queues self)), q).

Definition unsubscribe (self : t) (instrument : string) (q : nat) : t :=
  mk (is_running self) (discard_subscriber instrument q (subscribers self))
     (current_prices self) (queues self).

(** What [await asyncio.wait_for(queue.put(item), timeout=0.1)] leaves in
    a queue when no consumer runs during the wait: a queue with room takes
    the item, a full queue times out and the item is skipped. *)
Definition deliver (item : option MarketTick.t) (pending : queue) : queue :=
  if (List.length pending <? maxsize)%nat then (pending ++ [item])%list else pending.

Definition put_with_timeout (item : option MarketTick.t) (q : nat)
    (qs : gmap nat queue) : gmap nat queue :=
  match qs !! q with
  | Some pending => <[q := deliver item pending]> qs
  | None => qs
  end.

(** The queues a broadcast for [instrument] goes to: the copy of the set
    [self.subscribers[instrument]], in some order. *)
Definition targets (subs : list (string * list nat)) (instrument : string) : list nat :=
  default [] (lookup_subscribers instrument subs).

Definition _broadcast_tick (self : t) (instrument : string) (tick : MarketTick.t) : t :=
  mk (is_running self) (subscribers self) (current_prices self)
     (foldl (fun qs q => put_with_timeout (Some tick) q qs) (queues self)
            (targets (subscribers self) instrument)).

Definition get_current_price (self : t) (instrument : string) : Q :=
  default 0%Q (current_prices self !! instrument).

Section Round.

(** [config.PRICE_VOLATILITY]: the float read from the environment when
    [config] is loaded, 0.002 unless set. *)
Variable PRICE_VOLATILITY : Q.

(** [random.random()]: [random k] is the [k]-th float the generator hands
    out, in [0, 1). *)
Variable random : nat -> Q.

(** [random.uniform(a, b)], which is [a + (b - a) * self.random()]. *)
Definition uniform (a b : Q) (k : nat) : Q :=
  float_add a (float_mul (float_sub b a) (random k)).

(** The outcome of a round: the state it leaves, the number of draws
    made so far, and the [KeyError] that ended it early, if any. *)
Fixpoint generate_over (now : Py.datetime) (instruments : list string)
    (k : nat) (self : t) : t * nat * option string :=
  match instruments with
  | [] => (self, k, None)
  | instrument :: rest =>
      match current_prices self !! instrument with
      | None => (self, k, Some instrument)
      | Some current_price =>
          let change_percent :=
            uniform (- PRICE_VOLATILITY) PRICE_VOLATILITY k in
          let new_price :=
            float_mul (to_float current_price) (float_add 1 change_percent) in
          let new_price := round2 new_price in
          let self := mk (is_running self) (subscribers self)
                         (<[instrument := new_price]> (current_prices self))
                         (queues self) in
          let tick := MarketTick.mk instrument new_price now in
          generate_over now rest (S k) (_broadcast_tick self instrument tick)
      end
  end.

Definition _generate_and_broadcast_ticks (now : Py.datetime) (k : nat) (self : t)
    : t * nat * option string :=
  generate_over now (keys self) k self.

(** The state a round leaves, whether it ran to its end or not. *)
Definition after (now : Py.datetime) (instruments : list string) (k : nat) (self : t)
    : t :=
  fst (fst (generate_over now instruments k self)).

End Round.

(** The price a round gives an instrument that stands at [current_price],
    with the [k]-th number of the generator. *)
Abbreviation next_price PRICE_VOLATILITY random current_price k :=
  (round2 (float_mul (to_float current_price)
             (float_add 1 (uniform random (- PRICE_VOLATILITY) PRICE_VOLATILITY k)))).

(** The shape [subscribe] gives the registry: one entry per instrument,
    and no queue registered twice. *)
Definition registry_wf (subs : list (string * list nat)) : Prop :=
  NoDup (map fst subs) /\ NoDup (concat (map snd subs)).

(** A feed in good order: a well-formed registry of queues that exist. *)
Definition feed_wf (self : t) : Prop :=
  registry_wf (subscribers self)
  /\ forall q, q ∈ concat (map snd (subscribers self)) -> is_Some (queues self !! q).

(** No queue holds more than [maxsize] items. *)
Definition queues_bounded (self : t) : Prop :=
  forall q pending,
    queues self !! q = Some pending -> (List.length pending <= maxsize)%nat.

(** *** [start] and [stop] *)

Definition set_running (b : bool) (self : t) : t :=
  mk b (subscribers self) (current_prices self) (queues self).

(** The puts of [stop]: [await queue.put(None)] has no timeout, so on a
    full queue it waits for a consumer.  With no consumer running the
    call hangs there: the result names the queue it hangs on. *)
Fixpoint put_stop_signal (registered : list nat) (qs : gmap nat queue)
    : gmap nat queue * option nat :=
  match registered with
  | [] => (qs, None)
  | q :: rest =>
      match qs !! q with
      | Some pending =>
          if (List.length pending <? maxsize)%nat
          then put_stop_signal rest (<[q := (pending ++ [None])%list]> qs)
          else (qs, Some q)
      | None => put_stop_signal rest qs
      end
  end.

(** [stop]: [is_running] is cleared first, then every queue of every
    instrument is sent the stop signal. *)
Definition stop (self : t) : t * option nat :=
  let '(qs, blocked) :=
    put_stop_signal (concat (map snd (subscribers self))) (queues self) in
  (mk false (subscribers self) (current_prices self) qs, blocked).

Section Feed.

Variable PRICE_VOLATILITY : Q.
Variable random : nat -> Q.

(** The loop of [start] over the rounds that take place before [stop]
    clears [is_running] during a sleep, one instant per round.  A
    [KeyError] of a round leaves the loop through [except Exception]. *)
Fixpoint start_loop (rounds : list Py.datetime) (k : nat) (self : t) : t * nat :=
  match rounds with
  | [] => (self, k)
  | now :: later =>
      match _generate_and_broadcast_ticks PRICE_VOLATILITY random now k self with
      | (self, k, None) => start_loop later k self
      | (self, k, Some _) => (self, k)
      end
  end.

(** [start]: [is_running] is set, the loop runs, and the [finally] block
    clears [is_running]. *)
Definition start (rounds : list Py.datetime) (k : nat) (self : t) : t * nat :=
  let '(self, k) := start_loop rounds k (set_running true self) in
  (set_running false self, k).

(** What callers do to a feed, with the number of draws made so far. *)
Inductive feed_op : Type :=
  | DoSubscribe (instrument : string)
  | DoUnsubscribe (instrument : string) (q : nat)
  | DoRound (now : Py.datetime).

Definition feed_apply (st : t * nat) (op : feed_op) : t * nat :=
  match op with
  | DoSubscribe instrument => (fst (subscribe (fst st) instrument), snd st)
  | DoUnsubscribe instrument q => (unsubscribe (fst st) instrument q, snd st)
  | DoRound now =>
      let '(self, k, _) :=
        _generate_and_broadcast_ticks PRICE_VOLATILITY random now (snd st) (fst st) in
      (self, k)
  end.

End Feed.

End MarketDataSimulator.

(** A round in the words of the specification: every instrument of the
    price map moves by a draw of the round, and every subscriber of the
    instrument finds the tick at the end of its queue. *)
Definition spec_round (v : Q) (random : nat -> Q) (now : Py.datetime) (k : nat)
    (sim : MarketDataSimulator.t) : Prop :=
  let '(sim', k', _) :=
    MarketDataSimulator._generate_and_broadcast_ticks v random now k sim in
  forall instrument old,
    MarketDataSimulator.current_prices sim !! instrument = Some old ->
    exists n new,
      (k <= n < k')%nat
      /\ MarketDataSimulator.current_prices sim' !! instrument = Some new
      /\ (new == MarketDataSimulator.next_price v random old n)%Q
      /\ forall qs q pending,
           MarketDataSimulator.lookup_subscribers instrument
             (MarketDataSimulator.subscribers sim) = Some qs ->
           q ∈ qs ->
           MarketDataSimulator.queues sim !! q = Some pending ->
           MarketDataSimulator.queues sim' !! q
           = Some (pending ++ [Some (MarketTick.mk instrument new now)])%list.

(** ** strategy_engine.py *)

(** [sum(...)] over a generator: a left fold from the integer zero. *)
Definition py_sum_nat (l : list nat) : nat := foldl Nat.add 0%nat l.
Definition py_sum_float (l : list Q) : Q := foldl Qplus 0%Q l.

Module StrategyEngine.

(** The engine's fields, with the store of the [Strategy] objects they
    refer to: [strategies] and [active_strategies] hold addresses into
    [heap], so that a strategy closed through one list is seen closed
    through the other.  [live_tasks] names the tasks [run] has created
    for [_run_strategy] that have not finished yet, each by the address
    of its strategy. *)
Record t : Type := mk {
  market_simulator : MarketDataSimulator.t;
  heap : list Strategy.t;
  strategies : list nat;
  active_strategies : list nat;
  live_tasks : list nat
}.

Record statistics : Type := mk_statistics {
  total : nat;
  completed : nat;
  force_closed : nat;
  failed : nat;
  never_entered : nat;
  total_pnl : Q;
  winners : nat;
  losers : nat
}.

(** The objects a list of addresses refers to. *)
Definition deref (h : list Strategy.t) (refs : list nat) : list Strategy.t :=
  omap (fun r => h !! r) refs.

(** [if strategy in l: l.remove(strategy)]: the first element of the list
    that is equal to [strategy] goes, if there is one.  Both tests use
    [__eq__], so the element that goes need not be [strategy] itself. *)
Fixpoint remove_first (h : list Strategy.t) (strategy : Strategy.t) (l : list nat)
    : list nat :=
  match l with
  | [] => []
  | x :: rest =>
      match h !! x with
      | Some other =>
          if Strategy.__eq__ other strategy then rest
          else x :: remove_first h strategy rest
      | None => x :: remove_first h strategy rest
      end
  end.

Section Engine.

Variable py_eval :
  string -> ConditionEvaluator.namespace -> ConditionEvaluator.namespace ->
  ConditionEvaluator.result ConditionEvaluator.value.

(** The [Order] both methods build is dropped on return. *)
Definition _enter_position (now : Py.datetime) (strategy : Strategy.t) (price : Q)
    : Strategy.t :=
  Strategy.enter now strategy price.

Definition _exit_position (now : Py.datetime) (strategy : Strategy.t) (price : Q)
    (reason : ExitReason) : Strategy.t :=
  Strategy.exit now strategy price reason.

Definition _evaluate_strategy (now : Py.datetime) (strategy : Strategy.t)
    (tick : MarketTick.t) : Strategy.t :=
  match Strategy.state strategy with
  | CREATED =>
      if ConditionEvaluator.evaluate py_eval now
           (Strategy.entry_condition strategy) (MarketTick.price tick)
      then _enter_position now strategy (MarketTick.price tick)
      else strategy
  | OPEN =>
      let current_pnl := Strategy.calculate_pnl strategy (MarketTick.price tick) in
      if Qle_bool current_pnl (- Strategy.max_loss strategy)
      then _exit_position now strategy (MarketTick.price tick) STOP_LOSS
      else if Qle_bool (Strategy.max_profit strategy) current_pnl
      then _exit_position now strategy (MarketTick.price tick) TARGET_HIT
      else if ConditionEvaluator.evaluate py_eval now
                (Strategy.exit_condition strategy) (MarketTick.price tick)
      then _exit_position now strategy (MarketTick.price tick) EXIT_CONDITION
      else strategy
  | CLOSED | FORCE_CLOSED | FAILED => strategy
  end.

Definition _force_close_strategy (sim : MarketDataSimulator.t) (now : Py.datetime)
    (strategy : Strategy.t) (reason : ExitReason) : Strategy.t :=
  if Strategy.is_open strategy
  then
    let current_price :=
      MarketDataSimulator.get_current_price sim (Strategy.instrument strategy) in
    _exit_position now strategy current_price reason
  else strategy.

(** The guarded call of the loop of [force_close_all] and of the epilogue
    of [_run_strategy]:
    [if strategy.is_open(): await self._force_close_strategy(strategy, MARKET_CLOSE)]. *)
Definition close_if_open (sim : MarketDataSimulator.t) (now : Py.datetime)
    (strategy : Strategy.t) : Strategy.t :=
  if Strategy.is_open strategy
  then _force_close_strategy sim now strategy MARKET_CLOSE
  else strategy.

(** An in-place change of the object at address [r]. *)
Definition update (r : nat) (f : Strategy.t -> Strategy.t) (h : list Strategy.t)
    : list Strategy.t :=
  match h !! r with
  | Some strategy => <[r := f strategy]> h
  | None => h
  end.

(** [__init__] and [run], up to the point where every unit has been
    created: the roster is recorded and every strategy is active. *)
Definition run (sim : MarketDataSimulator.t) (roster : list Strategy.t) : t :=
  mk sim roster (seq 0 (List.length roster)) (seq 0 (List.length roster))
     (seq 0 (List.length roster)).

Definition force_close_all (now : Py.datetime) (self : t) : t :=
  mk (market_simulator self)
     (foldl (fun h r => update r (close_if_open (market_simulator self) now) h)
            (heap self) (active_strategies self))
     (strategies self) (active_strategies self) (live_tasks self).

Definition count (p : Strategy.t -> bool) (roster : list Strategy.t) : nat :=
  py_sum_nat (map (fun _ => 1%nat) (List.filter p roster)).

Definition get_statistics (self : t) : statistics :=
  let roster := deref (heap self) (strategies self) in
  mk_statistics
    (List.length (strategies self))
    (count (fun s => bool_decide (Strategy.state s = CLOSED)) roster)
    (count (fun s => bool_decide (Strategy.state s = FORCE_CLOSED)) roster)
    (count (fun s => bool_decide (Strategy.state s = FAILED)) roster)
    (count (fun s => bool_decide (Strategy.state s = CREATED)) roster)
    (* [s.pnl] is a float, never [None] *)
    (py_sum_float (map Strategy.pnl roster))
    (count (fun s => negb (Qeq_bool (Strategy.pnl s) 0)
                     && negb (Qle_bool (Strategy.pnl s) 0)) roster)
    (count (fun s => negb (Qeq_bool (Strategy.pnl s) 0)
                     && negb (Qle_bool 0 (Strategy.pnl s))) roster).

(** *** The units of [_run_strategy] as a schedule of atomic steps

    Between two suspension points a unit runs alone.  A unit is alive
    from [run] until its task finishes, which is when its [finally]
    block has run. *)
Inductive event : Type :=
  | Tick (r : nat) (now : Py.datetime) (tick : MarketTick.t)
      (* the unit of [r] takes a tick from its queue and evaluates it *)
  | Stop (r : nat) (now : Py.datetime)
      (* the unit of [r] reads the stop signal, or is cancelled *)
  | Fault (r : nat)
      (* an exception escapes inside the unit of [r] *)
  | Market (sim : MarketDataSimulator.t)
      (* the feed moves on: rounds, subscriptions, the stop signal *)
  | ForceCloseAll (now : Py.datetime).
      (* the coordinator calls [force_close_all] *)

(** The [finally] block of the unit of [r], after which its task is
    finished. *)
Definition cleanup (r : nat) (self : t) : t :=
  mk (market_simulator self) (heap self) (strategies self)
     (match heap self !! r with
      | Some strategy => remove_first (heap self) strategy (active_strategies self)
      | None => active_strategies self
      end)
     (filter (fun r' => r' ≠ r) (live_tasks self)).

Definition alive (r : nat) (self : t) : bool :=
  bool_decide (r ∈ live_tasks self).

Definition with_heap (h : list Strategy.t) (self : t) : t :=
  mk (market_simulator self) h (strategies self) (active_strategies self)
     (live_tasks self).

Definition exec (self : t) (ev : event) : t :=
  match ev with
  | Tick r now tick =>
      if alive r self then
        let self := with_heap
          (update r (fun s => _evaluate_strategy now s tick) (heap self)) self in
        (* [if strategy.is_closed(): break], then the [finally] block *)
        match heap self !! r with
        | Some s => if Strategy.is_closed s then cleanup r self else self
        | None => self
        end
      else self
  | Stop r now =>
      if alive r self then
        cleanup r (with_heap
          (update r (close_if_open (market_simulator self) now) (heap self)) self)
      else self
  | Fault r =>
      if alive r self then
        cleanup r (with_heap (update r Strategy.mark_failed (heap self)) self)
      else self
  | Market sim =>
      mk sim (heap self) (strategies self) (active_strategies self) (live_tasks self)
  | ForceCloseAll now => force_close_all now self
  end.

Definition exec_all (self : t) (schedule : list event) : t :=
  foldl exec self schedule.

(** What the engine ever does to one strategy object: evaluate a tick,
    force-close it if open, mark it failed. *)
Inductive operation : Type :=
  | OnTick (now : Py.datetime) (tick : MarketTick.t)
  | OnForceClose (sim : MarketDataSimulator.t) (now : Py.datetime)
  | OnFault.

Definition apply (strategy : Strategy.t) (op : operation) : Strategy.t :=
  match op with
  | OnTick now tick => _evaluate_strategy now strategy tick
  | OnForceClose sim now => _force_close_strategy sim now strategy MARKET_CLOSE
  | OnFault => Strategy.mark_failed strategy
  end.

Definition is_fault (op : operation) : bool :=
  match op with
  | OnFault => true
  | OnTick _ _ | OnForceClose _ _ => false
  end.

(** *** One unit on its own

    The loop of [_run_strategy] over what its queue delivers, each item
    with the time at which the unit takes it: a tick is evaluated and the
    loop ends on a closed strategy; the stop signal [None] ends the loop;
    on an empty queue the unit keeps waiting. *)
Fixpoint consume (strategy : Strategy.t)
    (delivered : list (Py.datetime * option MarketTick.t)) : Strategy.t :=
  match delivered with
  | [] => strategy
  | (_, None) :: _ => strategy
  | (now, Some tick) :: rest =>
      let strategy := _evaluate_strategy now strategy tick in
      if Strategy.is_closed strategy then strategy else consume strategy rest
  end.

(** [_run_strategy] from its first tick to the end of its [try] block,
    when the loop ends at time [now]. *)
Definition _run_strategy (sim : MarketDataSimulator.t) (now : Py.datetime)
    (strategy : Strategy.t) (delivered : list (Py.datetime * option MarketTick.t))
    : Strategy.t :=
  close_if_open sim now (consume strategy delivered).

End Engine.

End StrategyEngine.

(** ** Invariants of a strategy record *)

Definition is_set {A : Type} (o : option A) : bool :=
  match o with
  | Some _ => true
  | None => false
  end.

(** The invariant in the words of the specification: [entry_price] is set
    if and only if the state has left [CREATED]; [exit_price] and
    [exit_reason] are set if and only if the state is [CLOSED] or
    [FORCE_CLOSED]. *)
Definition spec_invariant (s : Strategy.t) : Prop :=
  (is_set (Strategy.entry_price s) = true <-> Strategy.state s <> CREATED)
  /\ (is_set (Strategy.exit_price s) = true <-> Strategy.is_closed s = true)
  /\ (is_set (Strategy.exit_reason s) = true <-> Strategy.is_closed s = true).

(** The same with "beyond [CREATED]" read as a set of states of its own. *)
Definition spec_invariant_for (beyond : StrategyState -> Prop) (s : Strategy.t) : Prop :=
  (is_set (Strategy.entry_price s) = true <-> beyond (Strategy.state s))
  /\ (is_set (Strategy.exit_price s) = true <-> Strategy.is_closed s = true)
  /\ (is_set (Strategy.exit_reason s) = true <-> Strategy.is_closed s = true).

(** The prices a record may hold in each state.  A failed record keeps the
    prices of the state it failed in. *)
Definition prices_of_created (s : Strategy.t) : bool :=
  negb (is_set (Strategy.entry_price s)) && negb (is_set (Strategy.exit_price s))
  && negb (is_set (Strategy.exit_reason s)).

Definition prices_of_open (s : Strategy.t) : bool :=
  is_set (Strategy.entry_price s) && negb (is_set (Strategy.exit_price s))
  && negb (is_set (Strategy.exit_reason s)).

Definition prices_of_closed (s : Strategy.t) : bool :=
  is_set (Strategy.entry_price s) && is_set (Strategy.exit_price s)
  && is_set (Strategy.exit_reason s).

Definition lifecycle_invariant (s : Strategy.t) : bool :=
  match Strategy.state s with
  | CREATED => prices_of_created s
  | OPEN => prices_of_open s
  | CLOSED | FORCE_CLOSED => prices_of_closed s
  | FAILED => prices_of_created s || prices_of_open s || prices_of_closed s
  end.

(** The realized profit of a record: what [calculate_pnl] gives at the exit
    price, and nothing before an exit. *)
Definition realized_pnl (s : Strategy.t) : Q :=
  match Strategy.exit_price s with
  | Some price => Strategy.calculate_pnl s price
  | None => 0
  end.

(** The [pnl] field holds the realized profit, under the invariant. *)
Definition pnl_is_realized (s : Strategy.t) : Prop :=
  lifecycle_invariant s = true /\ Strategy.pnl s = realized_pnl s.

(** Every open strategy is in [active_strategies]. *)
Definition open_is_active (e : StrategyEngine.t) : Prop :=
  forall r s,
    StrategyEngine.heap e !! r = Some s -> Strategy.state s = OPEN ->
    r ∈ StrategyEngine.active_strategies e.

(** Every open strategy is held by a unit whose task has not finished. *)
Definition open_is_live (e : StrategyEngine.t) : Prop :=
  forall r s,
    StrategyEngine.heap e !! r = Some s -> Strategy.state s = OPEN ->
    r ∈ StrategyEngine.live_tasks e.

(** The strategies of a roster carry pairwise distinct [strategy_id]s. *)
Definition distinct_ids (roster : list Strategy.t) : Prop :=
  NoDup (map Strategy.strategy_id roster).

(** A unit that is alive is still in [active_strategies]. *)
Definition live_is_active (e : StrategyEngine.t) : Prop :=
  forall r, r ∈ StrategyEngine.live_tasks e -> r ∈ StrategyEngine.active_strategies e.

(** The arrows of the life cycle: from [CREATED] to [OPEN], from [OPEN]
    to [CLOSED] or [FORCE_CLOSED], from anywhere to [FAILED], and staying
    put. *)
Definition lifecycle_step (before after : StrategyState) : bool :=
  match before, after with
  | CREATED, (CREATED | OPEN | FAILED) => true
  | OPEN, (OPEN | CLOSED | FORCE_CLOSED | FAILED) => true
  | CLOSED, (CLOSED | FAILED) => true
  | FORCE_CLOSED, (FORCE_CLOSED | FAILED) => true
  | FAILED, FAILED => true
  | _, _ => false
  end.

(** The reasons each state is recorded with. *)
Definition reason_of_state (s : Strategy.t) : bool :=
  match Strategy.state s, Strategy.exit_reason s with
  | (CREATED | OPEN), None => true
  | CLOSED, Some (STOP_LOSS | TARGET_HIT | EXIT_CONDITION) => true
  | FORCE_CLOSED, Some MARKET_CLOSE => true
  | FAILED, (None | Some (STOP_LOSS | TARGET_HIT | EXIT_CONDITION | MARKET_CLOSE)) => true
  | _, _ => false
  end.

(** The recorded [pnl] against the risk limits, by recorded reason. *)
Definition reason_fits_pnl (s : Strategy.t) : Prop :=
  match Strategy.exit_reason s with
  | Some STOP_LOSS => (Strategy.pnl s <= - Strategy.max_loss s)%Q
  | Some TARGET_HIT =>
      ~ (Strategy.pnl s <= - Strategy.max_loss s)%Q
      /\ (Strategy.max_profit s <= Strategy.pnl s)%Q
  | Some EXIT_CONDITION =>
      ~ (Strategy.pnl s <= - Strategy.max_loss s)%Q
      /\ ~ (Strategy.max_profit s <= Strategy.pnl s)%Q
  | _ => True
  end.

(** The configured fields of a record. *)
Definition config_of (s : Strategy.t) : Strategy.config :=
  (Strategy.strategy_id s, Strategy.instrument s, Strategy.entry_condition s,
   Strategy.exit_condition s, Strategy.quantity s, Strategy.max_loss s,
   Strategy.max_profit s).

(** The sum of a list of amounts, and the number of records in a state,
    as the specification counts them. *)
Definition sum_of (amounts : list Q) : Q := foldr Qplus 0%Q amounts.

Definition number_in (st : StrategyState) (roster : list Strategy.t) : nat :=
  List.length (List.filter (fun s => bool_decide (Strategy.state s = st)) roster).

(** ** Sample data *)

Module Sample.

Definition now : Py.datetime :=
  {| Py.year := 2024; Py.month := 1; Py.day := 15;
     Py.hour := 10; Py.minute := 30; Py.second := 0; Py.microsecond := 0 |}.

Definition tick (price : Q) : MarketTick.t := MarketTick.mk "NIFTY" price now.

(** Quantity 10, stop at a loss of 30, target at a profit of 60. *)
Definition fresh : Strategy.t :=
  Strategy.new "S1" "NIFTY" "price >= 100" "price < 99" 10 30 60.

Definition fresh_config : Strategy.config :=
  ("S1", "NIFTY", "price >= 100", "price < 99", 10%Z, 30%Q, 60%Q).

(** A tick that enters, a tick that stops out. *)
Definition in_and_out : list StrategyEngine.operation :=
  [StrategyEngine.OnTick now (tick 100); StrategyEngine.OnTick now (tick 95)].

(** Entered at 100. *)
Definition entered : Strategy.t := Strategy.enter now fresh 100.

(** Entered at 100 and stopped out at 95. *)
Definition stopped : Strategy.t := Strategy.exit now entered 95 STOP_LOSS.

(** Entered at 100 on an instrument the feed has no price for. *)
Definition unlisted : Strategy.t :=
  Strategy.enter now
    (Strategy.new "S9" "RELIANCE" "price >= 100" "price < 1" 10 30 60) 100.

(** A roster of three: one that never enters, one that reaches its
    target, one that is stopped out. *)
Definition idle : Strategy.t :=
  Strategy.new "S0" "NIFTY" "price > 99999" "price < 1" 10 30 60.
Definition winner : Strategy.t :=
  Strategy.new "S1" "NIFTY" "price >= 100" "price < 1" 10 30 40.
Definition loser : Strategy.t :=
  Strategy.new "S2" "NIFTY" "price >= 100" "price < 1" 4 15 60.
(** As [winner], with a target out of reach. *)
Definition holder : Strategy.t :=
  Strategy.new "S1" "NIFTY" "price >= 100" "price < 1" 10 30 1000.

Definition feed (price : Q) : MarketDataSimulator.t :=
  MarketDataSimulator.mk true [("NIFTY", [1%nat])]
    (<["NIFTY" := price]> MarketDataSimulator.BASE_PRICES) (<[1%nat := []]> ∅).

Definition day_with_target : list (StrategyEngine.event) :=
  [StrategyEngine.Tick 0 now (tick 100); StrategyEngine.Tick 1 now (tick 100);
   StrategyEngine.Tick 2 now (tick 100);
   StrategyEngine.Tick 0 now (tick 105); StrategyEngine.Tick 1 now (tick 105);
   StrategyEngine.Tick 2 now (tick 95);
   StrategyEngine.Market (feed 95);
   StrategyEngine.ForceCloseAll now;
   StrategyEngine.Stop 0 now].

Definition day_with_force_close : list (StrategyEngine.event) :=
  [StrategyEngine.Tick 0 now (tick 100); StrategyEngine.Tick 1 now (tick 100);
   StrategyEngine.Tick 2 now (tick 100);
   StrategyEngine.Tick 2 now (tick 95);
   StrategyEngine.Market (feed 105);
   StrategyEngine.ForceCloseAll now;
   StrategyEngine.Stop 0 now; StrategyEngine.Stop 1 now].

(** What may still reach a strategy after its exit. *)
Definition late_events : list StrategyEngine.operation :=
  [StrategyEngine.OnTick now (tick 100);
   StrategyEngine.OnForceClose (feed 105) now;
   StrategyEngine.OnTick now (tick 120)].

(** A day on which [holder] enters at 100 and the feed ends at 105. *)
Definition open_at_close : list StrategyEngine.event :=
  [StrategyEngine.Tick 0 now (tick 100); StrategyEngine.Market (feed 105)].

Definition configs : list Strategy.config :=
  [("S0", "NIFTY", "price > 99999", "price < 1", 10%Z, 30%Q, 60%Q);
   ("S1", "NIFTY", "price >= 100", "price < 1", 10%Z, 30%Q, 40%Q);
   ("S2", "NIFTY", "price >= 100", "price < 1", 4%Z, 15%Q, 60%Q)].

Definition configs_with_holder : list Strategy.config :=
  [("S0", "NIFTY", "price > 99999", "price < 1", 10%Z, 30%Q, 60%Q);
   ("S1", "NIFTY", "price >= 100", "price < 1", 10%Z, 30%Q, 1000%Q);
   ("S2", "NIFTY", "price >= 100", "price < 1", 4%Z, 15%Q, 60%Q)].

(** An entry condition that names something the evaluator does not know. *)
Definition misconfigured : Strategy.t :=
  Strategy.new "S7" "NIFTY" "price > limit" "price < 1" 10 30 60.

(** Ticks and a force-close, no fault. *)
Definition busy_day : list StrategyEngine.operation :=
  [StrategyEngine.OnTick now (tick 100); StrategyEngine.OnTick now (tick 20500);
   StrategyEngine.OnForceClose (feed 105) now].

(** What a queue delivers before the stop signal, and after it. *)
Definition delivered : list (Py.datetime * option MarketTick.t) :=
  [(now, Some (tick 100)); (now, Some (tick 101))].
Definition late : list (Py.datetime * option MarketTick.t) :=
  [(now, Some (tick 95))].

(** A queue whose second tick stops the strategy out. *)
Definition late_exit : list (Py.datetime * option MarketTick.t) :=
  [(now, Some (tick 100)); (now, Some (tick 95))].


(** A feed with three priced instruments and one subscriber, on NIFTY. *)
Definition one_subscriber : MarketDataSimulator.t :=
  MarketDataSimulator.mk true [("NIFTY", [1%nat])]
    MarketDataSimulator.BASE_PRICES (<[1%nat := []]> ∅).

(** The feed after subscriptions to NIFTY, to SENSEX, which has no base
    price, and to BANKNIFTY: queues 1, 2 and 3. *)
Definition unpriced : MarketDataSimulator.t :=
  fst (MarketDataSimulator.subscribe
         (fst (MarketDataSimulator.subscribe
                 (fst (MarketDataSimulator.subscribe MarketDataSimulator.init "NIFTY"))
                 "SENSEX"))
         "BANKNIFTY").

(** The volatility [float("0.002")] of the default configuration. *)
Definition volatility : Q := binary64 (2 # 1000).

(** A generator whose [random()] always hands out 0.75, which makes every
    draw of [uniform(-0.002, 0.002)] the float 0.001. *)
Definition steady (k : nat) : Q := 3 # 4.

End Sample.

(** * Properties *)

(** ** Strings and substitution passes *)

#[local] Arguments Ascii.eqb : simpl never.
#[local] Arguments Py.is_digit : simpl never.
#[local] Arguments Py.is_space : simpl never.

Section StringFacts.
Import Py.

Lemma append_cons (c : ascii) (s t : string) : String c s ++ t = String c (s ++ t).
Proof. reflexivity. Qed.

Lemma append_nil (t : string) : "" ++ t = t.
Proof. reflexivity. Qed.

Lemma append_empty (s : string) : s ++ "" = s.
Proof.
  induction s as [|c s IH]; [reflexivity|]. now rewrite append_cons, IH.
Qed.

Lemma elem_app (c : ascii) (s t : string) :
  elem c (s ++ t) = elem c s || elem c t.
Proof.
  induction s as [|d s IH]; [reflexivity|].
  rewrite append_cons. simpl. rewrite IH. apply orb_assoc.
Qed.

Lemma str_length_app (s t : string) :
  String.length (s ++ t) = (String.length s + String.length t)%nat.
Proof.
  induction s as [|d s IH]; [reflexivity|].
  rewrite append_cons. simpl. now rewrite IH.
Qed.

Lemma str_take_drop (n : nat) (s : string) : take n s ++ drop n s = s.
Proof.
  revert s; induction n as [|n IH]; intros [|c s]; simpl; try reflexivity.
  now rewrite append_cons, IH.
Qed.

Lemma elem_drop (c : ascii) (n : nat) (s : string) :
  elem c (drop n s) = true -> elem c s = true.
Proof.
  revert s; induction n as [|n IH]; intros [|d s]; simpl; auto.
  intros H. rewrite (IH _ H). apply orb_true_r.
Qed.

Lemma elem_take (c : ascii) (n : nat) (s : string) :
  elem c (take n s) = true -> elem c s = true.
Proof.
  revert s; induction n as [|n IH]; intros [|d s]; simpl; auto; try discriminate.
  destruct (Ascii.eqb c d); simpl; auto.
Qed.

Lemma starts_with_elem (c : ascii) (p s : string) :
  starts_with p s = true -> elem c p = true -> elem c s = true.
Proof.
  revert s; induction p as [|a p IH]; intros [|b s]; simpl; try discriminate.
  destruct (Ascii.eqb a b) eqn:E; [|discriminate].
  apply Ascii.eqb_eq in E; subst b.
  intros Hp. destruct (Ascii.eqb c a); simpl; auto.
Qed.

(** A pass that meets no match leaves the text as it is. *)
Lemma re_sub_no_match (matcher : string -> option (nat * string)) (s : string) :
  (forall n, matcher (drop n s) = None) -> re_sub matcher 0 s = s.
Proof.
  induction s as [|c s IH]; intros H; simpl; [reflexivity|].
  pose proof (H 0%nat) as H0. simpl in H0. rewrite H0.
  f_equal. apply IH. intros n. apply (H (S n)).
Qed.

(** What a pass in the middle of a match does: the rest of the match
    goes, the pass resumes behind it. *)
Lemma re_sub_skip (matcher : string -> option (nat * string)) (k : nat) (s : string) :
  re_sub matcher k s = re_sub matcher 0 (drop k s).
Proof.
  revert s; induction k as [|k IH]; intros [|c s]; simpl; auto.
Qed.

End StringFacts.

(** ** Time normalization *)

Section NormalizeTime.
Import Py ConditionEvaluator.

Lemma count_zero_elem (c : ascii) (s : string) :
  count c s = 0%nat -> elem c s = false.
Proof.
  induction s as [|d s IH]; simpl; [reflexivity|].
  destruct (Ascii.eqb c d); simpl; [discriminate|exact IH].
Qed.

Lemma count_take_drop (c : ascii) (n : nat) (s : string) :
  count c s = (count c (take n s) + count c (drop n s))%nat.
Proof.
  revert s; induction n as [|n IH]; intros [|d s]; simpl; try reflexivity.
  rewrite (IH s). lia.
Qed.

Lemma elem_count_pos (c : ascii) (s : string) :
  elem c s = true -> (1 <= count c s)%nat.
Proof.
  induction s as [|d s IH]; simpl; [discriminate|].
  destruct (Ascii.eqb c d); simpl; [lia|auto].
Qed.

Lemma count_app (c : ascii) (s t : string) :
  count c (s ++ t) = (count c s + count c t)%nat.
Proof.
  induction s as [|d s IH]; [reflexivity|].
  rewrite append_cons. simpl. rewrite IH. lia.
Qed.

Lemma count_digits_colon (s : string) :
  all_of is_digit s = true -> count ":" s = 0%nat.
Proof.
  unfold all_of. induction s as [|d s IH]; simpl; [reflexivity|].
  destruct (is_digit d) eqn:Hd; [|discriminate]. intros H.
  rewrite (IH H). destruct (Ascii.eqb ":" d) eqn:E; [|reflexivity].
  apply Ascii.eqb_eq in E. subst d. discriminate.
Qed.

(** The decimal rendering of a number is made of digits. *)
Lemma string_of_uint_no_colon (d : Decimal.uint) :
  elem ":" (NilEmpty.string_of_uint d) = false.
Proof. induction d; simpl; auto. Qed.

Lemma str_of_nat_no_colon (n : nat) : elem ":" (str_of_nat n) = false.
Proof. apply string_of_uint_no_colon. Qed.

(** A match of the time pattern spans a colon and is replaced by digits. *)
Lemma match_time_with_colon (k : nat) (s h m : string) :
  match_time_with k s = Some (h, m) ->
  String.length h = k /\ elem ":" (take (k + 3) s) = true.
Proof.
  unfold match_time_with.
  destruct (span_len is_digit (take k s) =? k)%nat eqn:Hk; [|discriminate].
  destruct (starts_with ":" (drop k s)) eqn:Hc; [|discriminate].
  simpl. destruct (_ =? 2)%nat; [|discriminate].
  intros [= <- _]. apply Nat.eqb_eq in Hk.
  assert (Hlen : forall j t, span_len is_digit (take j t) = j ->
                 String.length (take j t) = j).
  { induction j as [|j IH]; intros [|c t]; simpl; try reflexivity; try discriminate.
    destruct (is_digit c); [|discriminate]. intros [= E]. now rewrite IH. }
  split; [now apply Hlen|].
  clear Hk Hlen. revert s Hc.
  induction k as [|k IH]; intros [|c s]; simpl; try discriminate.
  - destruct (Ascii.eqb ":" c) eqn:E; [reflexivity|discriminate].
  - intros H. rewrite (IH _ H). apply orb_true_r.
Qed.

Lemma time_matcher_colon (s : string) (k : nat) (r : string) :
  time_matcher s = Some (k, r) ->
  elem ":" (take (S k) s) = true /\ elem ":" r = false.
Proof.
  unfold time_matcher, match_time.
  destruct (match_time_with 2 s) as [[h m]|] eqn:H2.
  - intros [= <- <-]. apply match_time_with_colon in H2 as [-> H].
    split; [exact H|apply str_of_nat_no_colon].
  - destruct (match_time_with 1 s) as [[h m]|] eqn:H1; [|discriminate].
    intros [= <- <-]. apply match_time_with_colon in H1 as [-> H].
    split; [exact H|apply str_of_nat_no_colon].
Qed.

(** Text without a colon is left as it is. *)
Lemma normalize_time_no_colon (s : string) :
  elem ":" s = false -> _normalize_time s = s.
Proof.
  intros H. apply re_sub_no_match. intros n.
  destruct (time_matcher (drop n s)) as [[k r]|] eqn:E; [|reflexivity].
  apply time_matcher_colon in E as [E _].
  apply elem_take, elem_drop in E. congruence.
Qed.

(** After one pass over a text with at most one colon, either no colon
    is left or nothing was rewritten. *)
Lemma normalize_time_one_colon (s : string) :
  (count ":" s <= 1)%nat ->
  elem ":" (_normalize_time s) = false \/ _normalize_time s = s.
Proof.
  unfold _normalize_time.
  induction s as [|c s IH]; intros Hc; [now left|].
  cbn [re_sub].
  destruct (time_matcher (String c s)) as [[k r]|] eqn:E.
  - left. apply time_matcher_colon in E as [Hin Hr].
    rewrite elem_app, Hr, re_sub_skip. simpl.
    assert (Hrest : elem ":" (drop k s) = false).
    { apply count_zero_elem. apply elem_count_pos in Hin.
      rewrite (count_take_drop ":" (S k) (String c s)) in Hc.
      change (drop (S k) (String c s)) with (drop k s) in Hc. lia. }
    fold (_normalize_time (drop k s)).
    now rewrite normalize_time_no_colon.
  - simpl in Hc. destruct (Ascii.eqb ":" c) eqn:Ec.
    + right. f_equal. apply normalize_time_no_colon.
      apply count_zero_elem. lia.
    + destruct IH as [IH|IH]; [lia| |].
      * left. simpl. now rewrite Ec.
      * right. now rewrite IH.
Qed.

Lemma normalize_time_idempotent_one_colon (s : string) :
  (count ":" s <= 1)%nat ->
  _normalize_time (_normalize_time s) = _normalize_time s.
Proof.
  intros H. destruct (normalize_time_one_colon s H) as [E|E].
  - now apply normalize_time_no_colon.
  - now rewrite !E.
Qed.

Lemma all_of_cons (p : ascii -> bool) (c : ascii) (s : string) :
  all_of p (String c s) = true -> p c = true /\ all_of p s = true.
Proof.
  unfold all_of. simpl. destruct (p c); [|discriminate].
  intros H. split; [reflexivity|exact H].
Qed.

Lemma match_time_literal2 (a b x y : ascii) (rest : string) :
  is_digit a = true -> is_digit b = true ->
  is_digit x = true -> is_digit y = true ->
  time_matcher (String a (String b (String ":" (String x (String y rest)))))
  = Some (4%nat, repl (String a (String b ""), String x (String y ""))).
Proof.
  intros Ha Hb Hx Hy. unfold time_matcher, match_time, match_time_with.
  cbn [take drop span_len starts_with]. rewrite Ha, Hb, Hx, Hy.
  reflexivity.
Qed.

Lemma match_time_literal1 (a x y : ascii) (rest : string) :
  is_digit a = true -> is_digit x = true -> is_digit y = true ->
  time_matcher (String a (String ":" (String x (String y rest))))
  = Some (3%nat, repl (String a "", String x (String y ""))).
Proof.
  intros Ha Hx Hy. unfold time_matcher, match_time, match_time_with.
  cbn [take drop span_len starts_with]. rewrite Ha, Hx, Hy.
  change (is_digit ":") with false. cbn [Nat.eqb andb].
  reflexivity.
Qed.

Lemma normalize_time_value (h m : string) :
  is_hours h = true -> is_minutes m = true ->
  _normalize_time (h ++ ":" ++ m)
  = str_of_nat (int_of_digits h * 60 + int_of_digits m).
Proof.
  unfold is_hours, is_minutes. intros Hh Hm.
  apply andb_true_iff in Hh as [Hlh Hh], Hm as [Hlm Hm].
  destruct m as [|x [|y [|? ?]]]; try discriminate.
  apply all_of_cons in Hm as [Hx Hm]. apply all_of_cons in Hm as [Hy _].
  destruct h as [|a [|b [|? ?]]]; try discriminate.
  - apply all_of_cons in Hh as [Ha _].
    unfold _normalize_time. repeat first [rewrite append_cons | rewrite append_nil].
    cbn [re_sub]. rewrite match_time_literal1 by assumption.
    cbn [re_sub]. apply append_empty.
  - apply all_of_cons in Hh as [Ha Hh]. apply all_of_cons in Hh as [Hb _].
    unfold _normalize_time. repeat first [rewrite append_cons | rewrite append_nil].
    cbn [re_sub]. rewrite match_time_literal2 by assumption.
    cbn [re_sub]. apply append_empty.
Qed.

End NormalizeTime.

(** ** The safety filter *)

Section SafetyFilter.
Import Py ConditionEvaluator.

Lemma elem_take_drop (c : ascii) (n : nat) (s : string) :
  elem c s = elem c (take n s) || elem c (drop n s).
Proof. now rewrite <- elem_app, str_take_drop. Qed.

Lemma str_take_add (a b : nat) (s : string) :
  take (a + b) s = take a s ++ take b (drop a s).
Proof.
  revert s; induction a as [|a IH]; intros [|c s]; simpl; try reflexivity.
  - now destruct b.
  - now rewrite append_cons, IH.
Qed.

Lemma str_drop_add (a b : nat) (s : string) :
  drop (a + b) s = drop b (drop a s).
Proof.
  revert s; induction a as [|a IH]; intros [|c s]; simpl; try reflexivity.
  - now destruct b.
  - apply IH.
Qed.

Lemma starts_with_take (w s : string) :
  starts_with w s = true -> take (String.length w) s = w.
Proof.
  revert s; induction w as [|a w IH]; intros [|b s]; simpl; try discriminate;
    try reflexivity.
  destruct (Ascii.eqb a b) eqn:E; [|discriminate].
  apply Ascii.eqb_eq in E; subst b. intros H. now rewrite IH.
Qed.

(** The characters of a run belong to the class of the run. *)
Lemma elem_span (p : ascii -> bool) (c : ascii) (s : string) :
  p c = false -> elem c (take (span_len p s) s) = false.
Proof.
  intros Hc. induction s as [|d s IH]; simpl; [reflexivity|].
  destruct (p d) eqn:Hd; simpl; [|reflexivity].
  rewrite IH, orb_false_r. apply Ascii.eqb_neq. congruence.
Qed.

Lemma elem_all_of (p : ascii -> bool) (c : ascii) (s : string) :
  p c = false -> all_of p s = true -> elem c s = false.
Proof.
  intros Hc. unfold all_of. induction s as [|d s IH]; simpl; [reflexivity|].
  destruct (p d) eqn:Hd; [|discriminate]. intros H.
  rewrite (IH H), orb_false_r. apply Ascii.eqb_neq. congruence.
Qed.

(** A character no match reaches is still there after the pass. *)
Lemma re_sub_keeps (matcher : string -> option (nat * string)) (c : ascii) :
  (forall s k r, matcher s = Some (k, r) -> elem c (take (S k) s) = false) ->
  forall s skip, elem c (drop skip s) = true ->
  elem c (re_sub matcher skip s) = true.
Proof.
  intros Hm. induction s as [|d s IH]; intros skip H.
  - now destruct skip.
  - destruct skip as [|k]; cbn [re_sub drop] in *.
    + destruct (matcher (String d s)) as [[k r]|] eqn:E.
      * rewrite elem_app. apply orb_true_iff. right. apply IH.
        rewrite (elem_take_drop c (S k)), (Hm _ _ _ E) in H. exact H.
      * cbn [elem] in *. apply orb_true_iff in H as [H|H]; [now rewrite H|].
        rewrite (IH 0%nat); [apply orb_true_r|exact H].
    + now apply IH.
Qed.

Lemma remove_class_keeps (p : ascii -> bool) (c : ascii) (s : string) :
  p c = false -> elem c s = true -> elem c (remove_class p s) = true.
Proof.
  intros Hp. induction s as [|d s IH]; simpl; [discriminate|].
  destruct (Ascii.eqb c d) eqn:E; simpl.
  - apply Ascii.eqb_eq in E; subst d. rewrite Hp. simpl.
    now rewrite Ascii.eqb_refl.
  - intros H. destruct (p d); simpl; [auto|]. rewrite E. auto.
Qed.

(** [w] is written with characters of [alphabet] only. *)
Lemma elem_subset (c : ascii) (w alphabet : string) :
  all_of (fun d => elem d alphabet) w = true ->
  elem c alphabet = false -> elem c w = false.
Proof. intros Hw Hc. exact (elem_all_of _ c w Hc Hw). Qed.

Lemma literal_matcher_keeps (w new : string) (c : ascii) (s : string) (k : nat)
    (r : string) :
  elem c w = false ->
  (if starts_with w s then Some (Nat.pred (String.length w), new) else None)
  = Some (k, r) ->
  w <> "" -> elem c (take (S k) s) = false.
Proof.
  intros Hc H Hw. destruct (starts_with w s) eqn:E; [|discriminate].
  injection H as <- <-. destruct w as [|a w]; [congruence|].
  change (S (Nat.pred (String.length (String a w)))) with (String.length (String a w)).
  now rewrite (starts_with_take _ _ E).
Qed.

Lemma words_matcher_keeps (w1 w2 : string) (c : ascii) (s : string) (k : nat)
    (r : string) :
  elem c w1 = false -> elem c w2 = false -> w1 <> "" -> w2 <> "" ->
  words_matcher w1 w2 s = Some (k, r) -> elem c (take (S k) s) = false.
Proof.
  intros H1 H2 N1 N2. unfold words_matcher.
  destruct (starts_with w1 s) eqn:E1.
  - intros H. apply (literal_matcher_keeps w1 "" c s k r H1); [|exact N1].
    now rewrite E1.
  - intros H. apply (literal_matcher_keeps w2 "" c s k r H2); [|exact N2].
    exact H.
Qed.

Lemma number_matcher_keeps (c : ascii) (s : string) (k : nat) (r : string) :
  is_digit c = false -> elem c "." = false ->
  number_matcher s = Some (k, r) -> elem c (take (S k) s) = false.
Proof.
  intros Hd Hdot. unfold number_matcher. cbv zeta.
  destruct (span_len is_digit s) as [|n1] eqn:E1 at 1; [discriminate|].
  intros H.
  apply (f_equal (fun o => match o with Some (x, _) => x | None => 0%nat end)) in H.
  cbv beta iota in H. subst k.
  set (dot := if starts_with "." (drop (span_len is_digit s) s) then 1%nat else 0%nat).
  set (n2 := span_len is_digit (drop (span_len is_digit s + dot) s)).
  replace (S (Nat.pred (span_len is_digit s + dot + n2)))
    with (span_len is_digit s + (dot + n2))%nat by lia.
  rewrite str_take_add, elem_app, (elem_span _ _ _ Hd). cbn [orb].
  rewrite str_take_add, elem_app.
  assert (Hn2 : elem c (take n2 (drop dot (drop (span_len is_digit s) s))) = false).
  { rewrite <- str_drop_add. apply elem_span, Hd. }
  rewrite Hn2, orb_false_r. subst dot.
  destruct (starts_with "." (drop (span_len is_digit s) s)) eqn:E; [|reflexivity].
  apply starts_with_take in E. cbn [String.length] in E. now rewrite E.
Qed.

Lemma span_take_all (p : ascii -> bool) (n : nat) (s : string) :
  span_len p (take n s) = n -> all_of p (take n s) = true.
Proof.
  unfold all_of. revert s; induction n as [|n IH]; intros [|c s]; simpl;
    try reflexivity; try discriminate.
  destruct (p c); [|discriminate]. intros [= E]. now apply IH.
Qed.

Lemma time_matcher_keeps (c : ascii) (s : string) (k : nat) (r : string) :
  is_digit c = false -> elem c ":" = false ->
  time_matcher s = Some (k, r) -> elem c (take (S k) s) = false.
Proof.
  intros Hd Hc.
  assert (Hj : forall j h m, match_time_with j s = Some (h, m) ->
            String.length h = j /\ elem c (take (j + 3) s) = false).
  { intros j h m H. split; [apply (match_time_with_colon _ _ _ _ H)|].
    revert H. unfold match_time_with.
    destruct (span_len is_digit (take j s) =? j)%nat eqn:Hk; [|discriminate].
    destruct (starts_with ":" (drop j s)) eqn:Hs; [|discriminate].
    cbn [andb].
    destruct (span_len is_digit (take 2 (drop (S j) s)) =? 2)%nat eqn:Hm;
      [|discriminate].
    intros _. apply Nat.eqb_eq in Hk, Hm.
    rewrite str_take_add, elem_app.
    rewrite (elem_all_of _ _ _ Hd (span_take_all _ _ _ Hk)). cbn [orb].
    rewrite (str_take_add 1 2), elem_app.
    apply starts_with_take in Hs. cbn [String.length] in Hs. rewrite Hs, Hc.
    cbn [orb]. rewrite <- str_drop_add. replace (j + 1)%nat with (S j) by lia.
    apply (elem_all_of _ _ _ Hd (span_take_all _ _ _ Hm)). }
  unfold time_matcher, match_time.
  destruct (match_time_with 2 s) as [[h m]|] eqn:H2.
  - intros [= <- _]. destruct (Hj _ _ _ H2) as [-> H]. exact H.
  - destruct (match_time_with 1 s) as [[h m]|] eqn:H1; [|discriminate].
    intros [= <- _]. destruct (Hj _ _ _ H1) as [-> H]. exact H.
Qed.

Lemma allowed_char_alphabet (c : ascii) :
  allowed_char c = false ->
  is_digit c = false /\ is_space c = false
  /\ elem c " .:()><=!pricetimeandorANDOR" = false.
Proof.
  unfold allowed_char. intros H.
  apply orb_false_iff in H as [H H5]. apply orb_false_iff in H as [H H4].
  apply orb_false_iff in H as [H H3]. apply orb_false_iff in H as [H1 H2].
  repeat split; try assumption.
  change " .:()><=!pricetimeandorANDOR"
    with (" " ++ ".:()><=!" ++ "pricetimeandor" ++ "ANDOR").
  rewrite !elem_app, H3, H4, H5, !orb_false_r.
  cbn [elem]. rewrite orb_false_r.
  apply Ascii.eqb_neq. intros ->. discriminate.
Qed.

(** A word written in the alphabet of the allow-list. *)
Ltac in_alphabet H :=
  apply elem_subset with (alphabet := " .:()><=!pricetimeandorANDOR");
  [vm_compute; reflexivity | exact H].

(** A character outside the allow-list survives the substitutions of
    [_safe_eval] and the six removals of the filter. *)
Lemma prepared_keeps (c : ascii) (s : string) :
  allowed_char c = false -> elem c s = true -> elem c (prepared s) = true.
Proof.
  intros Hc Hs. apply allowed_char_alphabet in Hc as (Hd & _ & Ha).
  unfold prepared, _normalize_time, replace.
  apply (re_sub_keeps _ c); [intros t k r; apply time_matcher_keeps; [exact Hd|in_alphabet Ha]|].
  apply (re_sub_keeps _ c);
    [intros t k r H; refine (literal_matcher_keeps _ _ c t k r _ H _);
     [in_alphabet Ha|discriminate]|].
  apply (re_sub_keeps _ c);
    [intros t k r H; refine (literal_matcher_keeps _ _ c t k r _ H _);
     [in_alphabet Ha|discriminate]|].
  exact Hs.
Qed.

Lemma cleaned_keeps (c : ascii) (s : string) :
  allowed_char c = false -> elem c s = true -> elem c (cleaned s) = true.
Proof.
  intros Hc Hs. apply allowed_char_alphabet in Hc as (Hd & Hsp & Ha).
  unfold cleaned.
  apply remove_class_keeps; [unfold is_paren_or_colon; in_alphabet Ha|].
  apply (re_sub_keeps _ c);
    [intros t k r; apply words_matcher_keeps;
     [in_alphabet Ha|in_alphabet Ha|discriminate|discriminate]|].
  apply remove_class_keeps; [exact Hsp|].
  apply remove_class_keeps; [unfold is_comparison_char; in_alphabet Ha|].
  apply (re_sub_keeps _ c);
    [intros t k r; apply words_matcher_keeps;
     [in_alphabet Ha|in_alphabet Ha|discriminate|discriminate]|].
  apply (re_sub_keeps _ c);
    [intros t k r; apply number_matcher_keeps; [exact Hd|in_alphabet Ha]|].
  exact Hs.
Qed.

Lemma unsafe_of_foreign_character (c : ascii) (condition : string) :
  allowed_char c = false -> elem c condition = true ->
  _is_safe_expression (prepared condition) = false.
Proof.
  intros Hc Hs. unfold _is_safe_expression.
  pose proof (cleaned_keeps c _ Hc (prepared_keeps c _ Hc Hs)) as H.
  destruct (cleaned (prepared condition)); [discriminate|reflexivity].
Qed.

Section Evaluate.

Variable py_eval : string -> namespace -> namespace -> result value.

(** [evaluate] answers [True] exactly when the filter lets the prepared
    text through and [eval] returns a value that [bool] maps to [True];
    an exception of any kind ends in [False]. *)
Lemma evaluate_true_iff (now : datetime) (condition : string) (price : Q) :
  evaluate py_eval now condition price = true <->
  _is_safe_expression (prepared condition) = true /\
  exists v,
    py_eval (prepared condition) (<["__builtins__" := VDict []]> ∅)
      ((<["price" := VFloat price]>
         (<["time" := VInt (hour now * 60 + minute now)]> ∅)) ∪ safe_dict)
    = Ok v /\ truthy v = true.
Proof.
  unfold evaluate, _safe_eval, try_except, bind. fold (prepared condition).
  destruct (_is_safe_expression (prepared condition)); cbn [negb].
  - destruct (py_eval _ _ _) as [v|e].
    + split; [intros H; split; [reflexivity|now exists v]|].
      intros [_ (w & [= <-] & H)]. exact H.
    + split; [discriminate|]. intros [_ (w & [=] & _)].
  - split; [discriminate|]. intros [[=] _].
Qed.

Lemma evaluate_unsafe (now : datetime) (condition : string) (price : Q) :
  _is_safe_expression (prepared condition) = false ->
  evaluate py_eval now condition price = false.
Proof.
  intros H. apply not_true_is_false. rewrite evaluate_true_iff.
  intros [E _]. congruence.
Qed.

(** An exception of [eval] never leaves [evaluate]. *)
Lemma evaluate_raise (now : datetime) (condition : string) (price : Q) (e : exn) :
  py_eval (prepared condition) (<["__builtins__" := VDict []]> ∅)
    ((<["price" := VFloat price]>
       (<["time" := VInt (hour now * 60 + minute now)]> ∅)) ∪ safe_dict)
  = Raise e ->
  evaluate py_eval now condition price = false.
Proof.
  intros H. apply not_true_is_false. rewrite evaluate_true_iff.
  intros [_ (v & E & _)]. congruence.
Qed.

(** Whatever [eval] does, a condition written with a character outside
    the allow-list is answered [False]. *)
Lemma evaluate_foreign_character (now : datetime) (condition : string)
    (price : Q) (c : ascii) :
  allowed_char c = false -> elem c condition = true ->
  evaluate py_eval now condition price = false.
Proof.
  intros Hc Hs. apply evaluate_unsafe.
  exact (unsafe_of_foreign_character c condition Hc Hs).
Qed.

End Evaluate.

End SafetyFilter.

(** ** The life cycle of one strategy *)

Section Lifecycle.
Import StrategyEngine.

Variable py_eval :
  string -> ConditionEvaluator.namespace -> ConditionEvaluator.namespace ->
  ConditionEvaluator.result ConditionEvaluator.value.

Lemma is_open_true (s : Strategy.t) :
  Strategy.is_open s = true <-> Strategy.state s = OPEN.
Proof. unfold Strategy.is_open. apply bool_decide_eq_true. Qed.

Lemma is_closed_true (s : Strategy.t) :
  Strategy.is_closed s = true <->
  Strategy.state s = CLOSED \/ Strategy.state s = FORCE_CLOSED.
Proof.
  unfold Strategy.is_closed. rewrite orb_true_iff, !bool_decide_eq_true.
  reflexivity.
Qed.

(** A tick changes nothing outside [CREATED] and [OPEN]. *)
Lemma evaluate_strategy_settled (now : Py.datetime) (s : Strategy.t)
    (tick : MarketTick.t) :
  Strategy.state s <> CREATED -> Strategy.state s <> OPEN ->
  _evaluate_strategy py_eval now s tick = s.
Proof.
  unfold _evaluate_strategy. destruct (Strategy.state s); congruence.
Qed.

Lemma force_close_not_open (sim : MarketDataSimulator.t) (now : Py.datetime)
    (s : Strategy.t) (reason : ExitReason) :
  Strategy.state s <> OPEN -> _force_close_strategy sim now s reason = s.
Proof.
  intros H. unfold _force_close_strategy.
  destruct (Strategy.is_open s) eqn:E; [|reflexivity].
  apply is_open_true in E. contradiction.
Qed.

Lemma force_close_open (sim : MarketDataSimulator.t) (now : Py.datetime)
    (s : Strategy.t) (reason : ExitReason) :
  Strategy.state s = OPEN ->
  _force_close_strategy sim now s reason
  = Strategy.exit now s
      (MarketDataSimulator.get_current_price sim (Strategy.instrument s)) reason.
Proof.
  intros H. unfold _force_close_strategy, _exit_position.
  apply is_open_true in H. now rewrite H.
Qed.

(** The state a tick or a force-close leaves is never [OPEN] unless the
    strategy was [CREATED] or [OPEN] before. *)
Lemma exit_state (now : Py.datetime) (s : Strategy.t) (price : Q)
    (reason : ExitReason) :
  Strategy.state (Strategy.exit now s price reason)
  = if decide (reason = MARKET_CLOSE) then FORCE_CLOSED else CLOSED.
Proof. reflexivity. Qed.

Lemma lifecycle_invariant_enter (now : Py.datetime) (s : Strategy.t) (price : Q) :
  Strategy.state s = CREATED -> lifecycle_invariant s = true ->
  lifecycle_invariant (Strategy.enter now s price) = true.
Proof.
  unfold lifecycle_invariant. intros ->. unfold prices_of_created, prices_of_open.
  simpl. intros H. apply andb_true_iff in H as [H ->].
  apply andb_true_iff in H as [_ ->]. reflexivity.
Qed.

Lemma lifecycle_invariant_exit (now : Py.datetime) (s : Strategy.t) (price : Q)
    (reason : ExitReason) :
  Strategy.state s = OPEN -> lifecycle_invariant s = true ->
  lifecycle_invariant (Strategy.exit now s price reason) = true.
Proof.
  unfold lifecycle_invariant. intros ->. unfold prices_of_open, prices_of_closed.
  simpl. intros H. apply andb_true_iff in H as [H _].
  apply andb_true_iff in H as [-> _].
  destruct (decide (reason = MARKET_CLOSE)); reflexivity.
Qed.

Lemma lifecycle_invariant_mark_failed (s : Strategy.t) :
  lifecycle_invariant s = true ->
  lifecycle_invariant (Strategy.mark_failed s) = true.
Proof.
  unfold lifecycle_invariant, prices_of_created, prices_of_open, prices_of_closed.
  simpl. destruct (Strategy.state s); intros ->;
    rewrite ?orb_true_r; reflexivity.
Qed.

Lemma lifecycle_invariant_tick (now : Py.datetime) (s : Strategy.t)
    (tick : MarketTick.t) :
  lifecycle_invariant s = true ->
  lifecycle_invariant (_evaluate_strategy py_eval now s tick) = true.
Proof.
  intros H. unfold _evaluate_strategy, _enter_position, _exit_position.
  destruct (Strategy.state s) eqn:E; try exact H.
  - destruct (ConditionEvaluator.evaluate _ _ _ _); [|exact H].
    now apply lifecycle_invariant_enter.
  - repeat match goal with
           | |- context [if ?b then _ else _] => destruct b
           end; try exact H; now apply lifecycle_invariant_exit.
Qed.

Lemma lifecycle_invariant_force_close (sim : MarketDataSimulator.t)
    (now : Py.datetime) (s : Strategy.t) (reason : ExitReason) :
  lifecycle_invariant s = true ->
  lifecycle_invariant (_force_close_strategy sim now s reason) = true.
Proof.
  intros H. unfold _force_close_strategy, _exit_position.
  destruct (Strategy.is_open s) eqn:E; [|exact H].
  apply is_open_true in E. now apply lifecycle_invariant_exit.
Qed.

Lemma lifecycle_invariant_apply (s : Strategy.t) (op : operation) :
  lifecycle_invariant s = true ->
  lifecycle_invariant (apply py_eval s op) = true.
Proof.
  destruct op; simpl.
  - apply lifecycle_invariant_tick.
  - apply lifecycle_invariant_force_close.
  - apply lifecycle_invariant_mark_failed.
Qed.

(** A unit on its own only applies life-cycle operations, and never
    leaves its strategy open. *)
Lemma consume_as_operations (s : Strategy.t)
    (delivered : list (Py.datetime * option MarketTick.t)) :
  exists ops, consume py_eval s delivered = foldl (apply py_eval) s ops.
Proof.
  revert s. induction delivered as [|[now [tick|]] rest IH]; intros s; simpl.
  - now exists [].
  - destruct (Strategy.is_closed _).
    + now exists [OnTick now tick].
    + destruct (IH (_evaluate_strategy py_eval now s tick)) as [ops H].
      exists (OnTick now tick :: ops). exact H.
  - now exists [].
Qed.

Lemma run_strategy_as_operations (sim : MarketDataSimulator.t) (now : Py.datetime)
    (s : Strategy.t) (delivered : list (Py.datetime * option MarketTick.t)) :
  exists ops, _run_strategy py_eval sim now s delivered = foldl (apply py_eval) s ops.
Proof.
  destruct (consume_as_operations s delivered) as [ops H].
  exists (ops ++ [OnForceClose sim now])%list. unfold _run_strategy.
  rewrite foldl_app, <- H. simpl. unfold close_if_open, _force_close_strategy.
  now destruct (Strategy.is_open _).
Qed.

Lemma run_strategy_not_open (sim : MarketDataSimulator.t) (now : Py.datetime)
    (s : Strategy.t) (delivered : list (Py.datetime * option MarketTick.t)) :
  Strategy.state (_run_strategy py_eval sim now s delivered) <> OPEN.
Proof.
  unfold _run_strategy, close_if_open, _force_close_strategy, _exit_position.
  destruct (Strategy.is_open _) eqn:E; simpl; [discriminate|].
  intros H. apply is_open_true in H. congruence.
Qed.

Lemma lifecycle_invariant_foldl (ops : list operation) (s : Strategy.t) :
  lifecycle_invariant s = true ->
  lifecycle_invariant (foldl (apply py_eval) s ops) = true.
Proof.
  revert s. induction ops as [|op ops IH]; intros s H; [exact H|].
  simpl. apply IH. now apply lifecycle_invariant_apply.
Qed.

Lemma pnl_is_realized_enter (now : Py.datetime) (s : Strategy.t) (price : Q) :
  Strategy.state s = CREATED -> pnl_is_realized s ->
  pnl_is_realized (Strategy.enter now s price).
Proof.
  intros E [Hi Hp]. split; [now apply lifecycle_invariant_enter|].
  unfold lifecycle_invariant in Hi. rewrite E in Hi.
  unfold prices_of_created in Hi.
  apply andb_true_iff in Hi as [Hi _]. apply andb_true_iff in Hi as [_ Hx].
  unfold realized_pnl in *. simpl.
  destruct (Strategy.exit_price s); [discriminate|exact Hp].
Qed.

Lemma pnl_is_realized_exit (now : Py.datetime) (s : Strategy.t) (price : Q)
    (reason : ExitReason) :
  Strategy.state s = OPEN -> pnl_is_realized s ->
  pnl_is_realized (Strategy.exit now s price reason).
Proof.
  intros E [Hi Hp]. split; [now apply lifecycle_invariant_exit|]. reflexivity.
Qed.

Lemma pnl_is_realized_apply (s : Strategy.t) (op : operation) :
  pnl_is_realized s -> pnl_is_realized (apply py_eval s op).
Proof.
  intros H. destruct op; simpl.
  - unfold _evaluate_strategy, _enter_position, _exit_position.
    destruct (Strategy.state s) eqn:E; try exact H.
    + destruct (ConditionEvaluator.evaluate _ _ _ _); [|exact H].
      now apply pnl_is_realized_enter.
    + repeat match goal with
             | |- context [if ?b then _ else _] => destruct b
             end; try exact H; now apply pnl_is_realized_exit.
  - unfold _force_close_strategy, _exit_position.
    destruct (Strategy.is_open s) eqn:E; [|exact H].
    apply is_open_true in E. now apply pnl_is_realized_exit.
  - destruct H as [Hi Hp]. split; [now apply lifecycle_invariant_mark_failed|].
    exact Hp.
Qed.

Lemma pnl_is_realized_new (strategy_id instrument entry_condition exit_condition : string)
    (quantity : Z) (max_loss max_profit : Q) :
  pnl_is_realized (Strategy.new strategy_id instrument entry_condition
                     exit_condition quantity max_loss max_profit).
Proof. split; reflexivity. Qed.

End Lifecycle.

(** ** The engine: store, schedule and force-close *)

Section EngineFacts.
Import StrategyEngine.

Variable py_eval :
  string -> ConditionEvaluator.namespace -> ConditionEvaluator.namespace ->
  ConditionEvaluator.result ConditionEvaluator.value.

Lemma update_lookup (r r' : nat) (f : Strategy.t -> Strategy.t)
    (h : list Strategy.t) :
  update r f h !! r' = if decide (r = r') then f <$> h !! r else h !! r'.
Proof.
  unfold update. destruct (h !! r) as [s|] eqn:E.
  - destruct (decide (r = r')) as [<-|N].
    + rewrite list_lookup_insert_eq; [reflexivity|].
      now apply lookup_lt_Some in E.
    + now rewrite list_lookup_insert_ne.
  - destruct (decide (r = r')) as [<-|N]; [now rewrite E|reflexivity].
Qed.

Lemma update_length (r : nat) (f : Strategy.t -> Strategy.t) (h : list Strategy.t) :
  List.length (update r f h) = List.length h.
Proof. unfold update. destruct (h !! r); [apply length_insert|reflexivity]. Qed.

Lemma update_Forall (P : Strategy.t -> Prop) (r : nat)
    (f : Strategy.t -> Strategy.t) (h : list Strategy.t) :
  (forall s, P s -> P (f s)) -> Forall P h -> Forall P (update r f h).
Proof.
  intros Hf Hh. unfold update. destruct (h !! r) as [s|] eqn:E; [|exact Hh].
  apply Forall_insert; [exact Hh|]. apply Hf.
  exact (Forall_lookup_1 _ _ _ _ Hh E).
Qed.

(** A pass over a list of addresses with an idempotent change. *)
Lemma foldl_update_lookup (f : Strategy.t -> Strategy.t) (l : list nat) :
  (forall s, f (f s) = f s) ->
  forall (h : list Strategy.t) (r : nat),
  foldl (fun h r => update r f h) h l !! r
  = if decide (r ∈ l) then f <$> h !! r else h !! r.
Proof.
  intros Hf. induction l as [|x l IH]; intros h r; simpl.
  - destruct (decide (r ∈ [])) as [H|_]; [|reflexivity].
    now apply elem_of_nil in H.
  - rewrite IH, update_lookup.
    destruct (decide (x = r)) as [->|Hx].
    + destruct (decide (r ∈ r :: l)) as [_|H]; [|exfalso; apply H; left].
      destruct (decide (r ∈ l)); [|reflexivity].
      destruct (h !! r); simpl; [now rewrite Hf|reflexivity].
    + destruct (decide (r ∈ l)) as [Hl|Hl];
        destruct (decide (r ∈ x :: l)) as [H|H]; try reflexivity.
      * exfalso. apply H. now right.
      * exfalso. apply elem_of_cons in H as [H|H]; congruence.
Qed.

Lemma close_if_open_eq (sim : MarketDataSimulator.t) (now : Py.datetime)
    (s : Strategy.t) :
  close_if_open sim now s = _force_close_strategy sim now s MARKET_CLOSE.
Proof.
  unfold close_if_open, _force_close_strategy.
  now destruct (Strategy.is_open s).
Qed.

Lemma close_if_open_not_open (sim : MarketDataSimulator.t) (now : Py.datetime)
    (s : Strategy.t) :
  Strategy.state (close_if_open sim now s) <> OPEN.
Proof.
  unfold close_if_open, _force_close_strategy, _exit_position.
  destruct (Strategy.is_open s) eqn:E; simpl; [discriminate|].
  intros H. apply is_open_true in H. congruence.
Qed.

Lemma close_if_open_idempotent (sim : MarketDataSimulator.t) (now : Py.datetime)
    (s : Strategy.t) :
  close_if_open sim now (close_if_open sim now s) = close_if_open sim now s.
Proof.
  unfold close_if_open at 1.
  destruct (Strategy.is_open _) eqn:E; [|reflexivity].
  apply is_open_true in E. now apply close_if_open_not_open in E.
Qed.

(** What [force_close_all] leaves at an address. *)
Lemma force_close_all_lookup (now : Py.datetime) (e : t) (r : nat) :
  heap (force_close_all now e) !! r
  = if decide (r ∈ active_strategies e)
    then close_if_open (market_simulator e) now <$> heap e !! r
    else heap e !! r.
Proof.
  unfold force_close_all. simpl.
  apply (foldl_update_lookup (close_if_open (market_simulator e) now)).
  apply close_if_open_idempotent.
Qed.

(** *** Equality of records and [list.remove] *)

Lemma optional_eq_refl {A : Type} (eq : A -> A -> bool) (x : option A) :
  (forall a, eq a a = true) -> Strategy.optional_eq eq x x = true.
Proof. intros H. destruct x; simpl; auto. Qed.

Lemma strategy_eq_refl (s : Strategy.t) : Strategy.__eq__ s s = true.
Proof.
  unfold Strategy.__eq__.
  rewrite !String.eqb_refl, Z.eqb_refl, !Qeq_bool_refl, bool_decide_eq_true_2
    by reflexivity.
  rewrite !optional_eq_refl; try reflexivity.
  - intros a. now apply bool_decide_eq_true_2.
  - intros a. now apply bool_decide_eq_true_2.
  - intros a. now apply bool_decide_eq_true_2.
  - apply Qeq_bool_refl.
  - apply Qeq_bool_refl.
Qed.

Lemma strategy_eq_id (a b : Strategy.t) :
  Strategy.__eq__ a b = true -> Strategy.strategy_id a = Strategy.strategy_id b.
Proof.
  unfold Strategy.__eq__. rewrite !andb_true_iff.
  intros [[[[[[[[[[[[[H _] _] _] _] _] _] _] _] _] _] _] _] _].
  now apply String.eqb_eq.
Qed.

Lemma elem_of_remove_first_inv (h : list Strategy.t) (s : Strategy.t) (x : nat)
    (l : list nat) :
  x ∈ remove_first h s l -> x ∈ l.
Proof.
  induction l as [|y l IH]; simpl; [auto|].
  destruct (h !! y) as [other|]; [destruct (Strategy.__eq__ other s)|]; intros H.
  - now right.
  - apply elem_of_cons in H as [->|H]; [left|right; auto].
  - apply elem_of_cons in H as [->|H]; [left|right; auto].
Qed.

(** Among records with distinct [strategy_id]s the element that
    [list.remove] takes is the strategy itself. *)
Lemma elem_of_remove_first (h : list Strategy.t) (r : nat) (s : Strategy.t)
    (x : nat) (l : list nat) :
  distinct_ids h -> h !! r = Some s ->
  x ∈ l -> x <> r -> x ∈ remove_first h s l.
Proof.
  intros Hd Hr. induction l as [|y l IH]; simpl; [easy|].
  intros H N. destruct (h !! y) as [other|] eqn:Hy.
  - destruct (Strategy.__eq__ other s) eqn:E.
    + apply strategy_eq_id in E.
      assert (y = r).
      { apply (NoDup_lookup _ y r (Strategy.strategy_id s) Hd).
        - rewrite list_lookup_fmap, Hy. simpl. now rewrite E.
        - now rewrite list_lookup_fmap, Hr. }
      subst y. apply elem_of_cons in H as [H|H]; congruence.
    + apply elem_of_cons in H as [->|H]; [left|right; auto].
  - apply elem_of_cons in H as [->|H]; [left|right; auto].
Qed.

Lemma update_ids (r : nat) (f : Strategy.t -> Strategy.t) (h : list Strategy.t) :
  (forall s, Strategy.strategy_id (f s) = Strategy.strategy_id s) ->
  map Strategy.strategy_id (update r f h) = map Strategy.strategy_id h.
Proof.
  intros Hf. unfold update. destruct (h !! r) as [s|] eqn:E; [|reflexivity].
  change (Strategy.strategy_id <$> <[r:=f s]> h = Strategy.strategy_id <$> h).
  rewrite list_fmap_insert, Hf. apply list_insert_id.
  now rewrite list_lookup_fmap, E.
Qed.

Lemma apply_strategy_id (s : Strategy.t) (op : operation) :
  Strategy.strategy_id (apply py_eval s op) = Strategy.strategy_id s.
Proof.
  destruct op as [now tick|sim now|]; simpl; [| |reflexivity].
  - unfold _evaluate_strategy, _enter_position, _exit_position.
    destruct (Strategy.state s); try reflexivity;
      repeat match goal with |- context [if ?b then _ else _] => destruct b end;
      reflexivity.
  - unfold _force_close_strategy, _exit_position.
    now destruct (Strategy.is_open s).
Qed.

Lemma close_if_open_strategy_id (sim : MarketDataSimulator.t) (now : Py.datetime)
    (s : Strategy.t) :
  Strategy.strategy_id (close_if_open sim now s) = Strategy.strategy_id s.
Proof.
  rewrite close_if_open_eq. apply (apply_strategy_id s (OnForceClose sim now)).
Qed.

Lemma exec_ids (e : t) (ev : event) :
  map Strategy.strategy_id (heap (exec py_eval e ev))
  = map Strategy.strategy_id (heap e).
Proof.
  destruct ev as [r now tick|r now|r|sim|now]; simpl.
  - destruct (alive r e); [|reflexivity].
    set (h := update r _ (heap e)).
    assert (Hh : map Strategy.strategy_id h = map Strategy.strategy_id (heap e)).
    { apply update_ids. intros s. apply (apply_strategy_id s (OnTick now tick)). }
    destruct (h !! r) as [s|]; [|exact Hh].
    destruct (Strategy.is_closed s); exact Hh.
  - destruct (alive r e); [|reflexivity]. simpl.
    apply update_ids, close_if_open_strategy_id.
  - destruct (alive r e); [|reflexivity]. simpl. now apply update_ids.
  - reflexivity.
  - generalize (heap e).
    induction (active_strategies e) as [|r l IH]; intros h; [reflexivity|].
    simpl. rewrite IH. apply update_ids, close_if_open_strategy_id.
Qed.

(** *** Open strategies and live units *)

(** A unit that ends on a strategy that is not open keeps every open
    strategy with a live unit. *)
Lemma open_is_live_unit_end (e : t) (r : nat) (f : Strategy.t -> Strategy.t) :
  (forall s, Strategy.state (f s) <> OPEN) ->
  open_is_live e ->
  open_is_live (cleanup r (with_heap (update r f (heap e)) e)).
Proof.
  intros Hf He r' s'. simpl. rewrite update_lookup.
  destruct (decide (r = r')) as [<-|N].
  - destruct (heap e !! r) as [s|]; simpl; [|discriminate].
    intros [= <-] H. now apply Hf in H.
  - intros H1 H2. apply list_elem_of_filter. split; [congruence|].
    now apply (He r' s').
Qed.

Lemma open_is_live_exec (e : t) (ev : event) :
  open_is_live e -> open_is_live (exec py_eval e ev).
Proof.
  intros He. destruct ev as [r now tick|r now|r|sim|now]; simpl.
  - destruct (alive r e) eqn:Ha; [|exact He].
    apply bool_decide_eq_true in Ha.
    set (h := update r (fun s => _evaluate_strategy py_eval now s tick) (heap e)).
    assert (Hkeep : open_is_live (with_heap h e)).
    { intros r' s'. simpl. subst h. rewrite update_lookup.
      destruct (decide (r = r')) as [<-|N]; [intros _ _; exact Ha|apply He]. }
    destruct (h !! r) as [s|] eqn:Hr; [|exact Hkeep].
    destruct (Strategy.is_closed s) eqn:Hc; [|exact Hkeep].
    intros r' s'. simpl. destruct (decide (r' = r)) as [->|N].
    + rewrite Hr. intros [= <-] H. apply is_closed_true in Hc. intuition congruence.
    + intros H1 H2. apply list_elem_of_filter. split; [exact N|].
      apply (Hkeep r' s' H1 H2).
  - destruct (alive r e); [|exact He].
    apply (open_is_live_unit_end e r (close_if_open (market_simulator e) now));
      [apply close_if_open_not_open|exact He].
  - destruct (alive r e); [|exact He].
    apply (open_is_live_unit_end e r Strategy.mark_failed); [|exact He].
    intros s. discriminate.
  - exact He.
  - intros r s. rewrite force_close_all_lookup. simpl.
    destruct (decide (r ∈ active_strategies e)) as [Hin|Hin]; [|apply He].
    destruct (heap e !! r) as [s0|]; simpl; [|discriminate].
    intros [= <-] H. now apply close_if_open_not_open in H.
Qed.

Lemma open_is_live_run (sim : MarketDataSimulator.t) (roster : list Strategy.t) :
  open_is_live (run sim roster).
Proof.
  intros r s. simpl. intros H _. apply lookup_lt_Some in H.
  apply elem_of_seq. lia.
Qed.

Lemma open_is_live_exec_all (e : t) (schedule : list event) :
  open_is_live e -> open_is_live (exec_all py_eval e schedule).
Proof.
  unfold exec_all. revert e. induction schedule as [|ev l IH]; intros e He; simpl.
  - exact He.
  - apply IH. now apply open_is_live_exec.
Qed.

(** *** With distinct [strategy_id]s a live unit is an active strategy *)

Lemma live_is_active_unit_end (e : t) (r : nat) (h : list Strategy.t) :
  distinct_ids h -> live_is_active e ->
  live_is_active (cleanup r (with_heap h e)).
Proof.
  intros Hd He x. simpl. intros Hx. apply list_elem_of_filter in Hx as [N Hx].
  destruct (h !! r) as [s|] eqn:Hr; [|now apply He].
  apply (elem_of_remove_first h r s x _ Hd Hr); [now apply He|exact N].
Qed.

Lemma live_is_active_exec (e : t) (ev : event) :
  distinct_ids (heap e) -> live_is_active e ->
  live_is_active (exec py_eval e ev).
Proof.
  intros Hd He.
  pose proof (exec_ids e ev) as Hi.
  destruct ev as [r now tick|r now|r|sim|now]; simpl in *.
  - destruct (alive r e); [|exact He].
    set (h := update r _ (heap e)) in *.
    destruct (h !! r) as [s|] eqn:Hr; [|exact He].
    destruct (Strategy.is_closed s); [|exact He].
    apply live_is_active_unit_end; [|exact He].
    unfold distinct_ids. simpl in Hi. now rewrite Hi.
  - destruct (alive r e); [|exact He].
    apply live_is_active_unit_end; [|exact He].
    unfold distinct_ids. simpl in Hi. now rewrite Hi.
  - destruct (alive r e); [|exact He].
    apply live_is_active_unit_end; [|exact He].
    unfold distinct_ids. simpl in Hi. now rewrite Hi.
  - exact He.
  - exact He.
Qed.

Lemma live_is_active_exec_all (e : t) (schedule : list event) :
  distinct_ids (heap e) -> live_is_active e ->
  distinct_ids (heap (exec_all py_eval e schedule))
  /\ live_is_active (exec_all py_eval e schedule).
Proof.
  unfold exec_all. revert e.
  induction schedule as [|ev l IH]; intros e Hd He; simpl; [auto|].
  apply IH; [|now apply live_is_active_exec].
  unfold distinct_ids. now rewrite exec_ids.
Qed.

(** On a roster with distinct [strategy_id]s every open strategy is in
    [active_strategies], at any point of a day. *)
Lemma open_is_active_of_day (sim : MarketDataSimulator.t) (roster : list Strategy.t)
    (schedule : list event) :
  distinct_ids roster ->
  open_is_active (exec_all py_eval (run sim roster) schedule).
Proof.
  intros Hd r s Hr Hs.
  destruct (live_is_active_exec_all (run sim roster) schedule Hd) as [_ Ha].
  { intros x Hx. exact Hx. }
  apply Ha.
  apply (open_is_live_exec_all (run sim roster) schedule (open_is_live_run sim roster)
           r s Hr Hs).
Qed.

End EngineFacts.

(** ** Floats *)

Section FloatFacts.
#[local] Open Scope Q_scope.

Lemma pow2_pos (e : Z) : 0 < 2 ^ e.
Proof. now apply Qpower_0_lt. Qed.

Lemma pow2_le (e e' : Z) : (e <= e')%Z -> 2 ^ e <= 2 ^ e'.
Proof. intros H. apply Qpower_le_compat_l; [exact H|discriminate]. Qed.

Lemma pow2_lt (e e' : Z) : (e < e')%Z -> 2 ^ e < 2 ^ e'.
Proof. intros H. apply Qpower_lt_compat_l; [exact H|reflexivity]. Qed.

Lemma pow2_succ (e : Z) : 2 ^ (e + 1) == 2 * 2 ^ e.
Proof. rewrite Qpower_plus by discriminate. simpl. ring. Qed.

Lemma pow2_nat (k : Z) : (0 <= k)%Z -> 2 ^ k == inject_Z (2 ^ k).
Proof. intros H. now rewrite Zpower_Qpower. Qed.

Lemma pow2_sub (a b : Z) : 2 ^ (a - b) == 2 ^ a / 2 ^ b.
Proof. apply Qpower_minus. discriminate. Qed.

Lemma div_le_div (a b n d : Q) :
  0 < a -> a <= n -> 0 < d -> d <= b -> a / b <= n / d.
Proof.
  intros Ha Han Hd Hdb.
  apply Qle_shift_div_l; [exact Hd|].
  apply Qle_trans with (a / b * b).
  - apply Qmult_le_l; [|exact Hdb].
    apply Qlt_shift_div_l; [lra|]. now rewrite Qmult_0_l.
  - unfold Qdiv. rewrite <- Qmult_assoc, (Qmult_comm (/ b)), Qmult_inv_r; lra.
Qed.

Lemma div_lt_div (a b n d : Q) :
  0 < d -> 0 < a -> n < a -> 0 < b -> b <= d -> n / d < a / b.
Proof.
  intros Hd Ha Hna Hb Hbd.
  apply Qlt_shift_div_r; [exact Hd|].
  assert (P : 0 < a / b).
  { apply Qlt_shift_div_l; [exact Hb|]. now rewrite Qmult_0_l. }
  assert (E : a / b * b == a) by (field; lra).
  apply Qlt_le_trans with (a / b * b); [lra|].
  apply Qmult_le_l; assumption.
Qed.

(** [ilog2] on a positive number. *)
Lemma ilog2_spec (x : Q) : 0 < x -> 2 ^ ilog2 x <= x /\ x < 2 ^ (ilog2 x + 1).
Proof.
  intros Hx. destruct x as [n d]. unfold ilog2. cbn [Qnum Qden].
  assert (Hn : (0 < n)%Z).
  { unfold Qlt in Hx. simpl in Hx. lia. }
  pose proof (Z.log2_spec n Hn) as [A1 A2].
  pose proof (Z.log2_spec (Zpos d) (Pos2Z.is_pos d)) as [B1 B2].
  pose proof (Z.log2_nonneg n) as An. pose proof (Z.log2_nonneg (Zpos d)) as Bn.
  set (a := Z.log2 n) in *. set (b := Z.log2 (Z.pos d)) in *.
  assert (Hq : n # d == inject_Z n / inject_Z (Zpos d)) by apply Qmake_Qdiv.
  assert (Hd : 0 < inject_Z (Zpos d)) by (unfold Qlt; simpl; lia).
  assert (HA : 2 ^ a <= inject_Z n).
  { rewrite pow2_nat by lia. now rewrite <- Zle_Qle. }
  assert (HA' : inject_Z n < 2 ^ (a + 1)).
  { rewrite pow2_nat by lia. rewrite <- Zlt_Qlt.
    replace (a + 1)%Z with (Z.succ a) by lia. exact A2. }
  assert (HB : 2 ^ b <= inject_Z (Zpos d)).
  { rewrite pow2_nat by lia. now rewrite <- Zle_Qle. }
  assert (HB' : inject_Z (Zpos d) < 2 ^ (b + 1)).
  { rewrite pow2_nat by lia. rewrite <- Zlt_Qlt.
    replace (b + 1)%Z with (Z.succ b) by lia. exact B2. }
  assert (Lo : 2 ^ (a - b - 1) <= n # d).
  { rewrite Hq. replace (a - b - 1)%Z with (a - (b + 1))%Z by lia.
    rewrite pow2_sub. now apply div_le_div; [apply pow2_pos| | |apply Qlt_le_weak]. }
  assert (Hi : n # d < 2 ^ (a - b + 1)).
  { rewrite Hq. replace (a - b + 1)%Z with (a + 1 - b)%Z by lia.
    rewrite pow2_sub. apply div_lt_div; try assumption; apply pow2_pos. }
  destruct (Qle_bool (2 ^ (a - b)) (n # d)) eqn:E.
  - apply Qle_bool_iff in E. split; [exact E|exact Hi].
  - split; [exact Lo|].
    replace (a - b - 1 + 1)%Z with (a - b)%Z by lia.
    apply Qnot_le_lt. intros H. apply Qle_bool_iff in H. congruence.
Qed.

Lemma ilog2_unique (x : Q) (e : Z) :
  2 ^ e <= x -> x < 2 ^ (e + 1) -> ilog2 x = e.
Proof.
  intros H1 H2.
  assert (Hx : 0 < x) by (apply Qlt_le_trans with (2 ^ e); [apply pow2_pos|exact H1]).
  destruct (ilog2_spec x Hx) as [K1 K2].
  assert (A : (ilog2 x < e + 1)%Z).
  { apply (Qpower_lt_compat_l_inv 2); [|reflexivity].
    apply Qle_lt_trans with x; assumption. }
  assert (B : (e < ilog2 x + 1)%Z).
  { apply (Qpower_lt_compat_l_inv 2); [|reflexivity].
    apply Qle_lt_trans with x; assumption. }
  lia.
Qed.

Lemma ilog2_le (x y : Q) : 0 < x -> x <= y -> (ilog2 x <= ilog2 y)%Z.
Proof.
  intros Hx Hxy.
  assert (Hy : 0 < y) by (apply Qlt_le_trans with x; assumption).
  destruct (ilog2_spec x Hx) as [K1 _]. destruct (ilog2_spec y Hy) as [_ K2].
  assert (A : (ilog2 x < ilog2 y + 1)%Z).
  { apply (Qpower_lt_compat_l_inv 2); [|reflexivity].
    apply Qle_lt_trans with x; [exact K1|].
    apply Qle_lt_trans with y; assumption. }
  lia.
Qed.

(** Rounding to the nearest integer. *)
Lemma round_half_even_int (z : Z) (x : Q) : x == inject_Z z -> round_half_even x = z.
Proof.
  intros H. unfold round_half_even.
  assert (F : Qfloor x = z) by (rewrite H; apply Qfloor_Z).
  rewrite F.
  assert (E : (x - inject_Z z ?= 1 # 2) = Datatypes.Lt).
  { rewrite <- Qlt_alt. set (q := inject_Z z) in *. clearbody q. lra. }
  now rewrite E.
Qed.

Lemma round_half_even_le (z : Z) (x : Q) :
  x <= inject_Z z -> (round_half_even x <= z)%Z.
Proof.
  intros H. unfold round_half_even.
  pose proof (Qfloor_resp_le _ _ H) as F. rewrite Qfloor_Z in F.
  destruct (Z.eq_dec (Qfloor x) z) as [E|N].
  - pose proof (Qfloor_le x) as L. rewrite E in *.
    assert (X : (x - inject_Z z ?= 1 # 2) = Datatypes.Lt).
    { rewrite <- Qlt_alt. set (q := inject_Z z) in *. clearbody q. lra. }
    rewrite X. lia.
  - destruct (x - inject_Z (Qfloor x) ?= 1 # 2); [destruct (Z.even _)| |]; lia.
Qed.

Lemma round_half_even_ge (z : Z) (x : Q) :
  inject_Z z <= x -> (z <= round_half_even x)%Z.
Proof.
  intros H. unfold round_half_even.
  pose proof (Qfloor_resp_le _ _ H) as F. rewrite Qfloor_Z in F.
  destruct (x - inject_Z (Qfloor x) ?= 1 # 2); [destruct (Z.even _)| |]; lia.
Qed.

Lemma round_half_even_close (x : Q) :
  (Qabs (inject_Z (round_half_even x) - x) <= 1 # 2)%Q.
Proof.
  unfold round_half_even.
  pose proof (Qfloor_le x) as H1. pose proof (Qlt_floor x) as H2.
  rewrite inject_Z_plus in H2.
  apply Qabs_Qle_condition.
  destruct (Qcompare_spec (x - inject_Z (Qfloor x)) (1 # 2)) as [E|L|G].
  - destruct (Z.even (Qfloor x)); rewrite ?inject_Z_plus;
      set (F := inject_Z (Qfloor x)) in *; clearbody F;
      change (inject_Z 1) with 1%Q in *; split; lra.
  - set (F := inject_Z (Qfloor x)) in *. clearbody F.
    change (inject_Z 1) with 1%Q in *. split; lra.
  - rewrite inject_Z_plus. set (F := inject_Z (Qfloor x)) in *. clearbody F.
    change (inject_Z 1) with 1%Q in *. split; lra.
Qed.

(** The value of a float. *)
Lemma ulp_pos (x : Q) : 0 < ulp x.
Proof. apply pow2_pos. Qed.

Lemma binary64_value (x : Q) :
  binary64 x == inject_Z (round_half_even (x / ulp x)) * ulp x.
Proof. apply Qred_correct. Qed.

Lemma binary64_nonneg (x : Q) : 0 <= x -> 0 <= binary64 x.
Proof.
  intros H. rewrite binary64_value.
  apply Qmult_le_0_compat; [|apply Qlt_le_weak, ulp_pos].
  change 0 with (inject_Z 0). rewrite <- Zle_Qle. apply round_half_even_ge.
  apply Qle_shift_div_l; [apply ulp_pos|]. now rewrite Qmult_0_l.
Qed.

Lemma binary64_nonpos (x : Q) : x <= 0 -> binary64 x <= 0.
Proof.
  intros H. rewrite binary64_value.
  assert (R : (round_half_even (x / ulp x) <= 0)%Z).
  { apply round_half_even_le. apply Qle_shift_div_r; [apply ulp_pos|].
    now rewrite Qmult_0_l. }
  rewrite Zle_Qle in R. pose proof (ulp_pos x) as U.
  set (m := inject_Z (round_half_even (x / ulp x))) in *. clearbody m.
  set (u := ulp x) in *. clearbody u. change (inject_Z 0) with 0 in R. nra.
Qed.

(** A number that is a multiple of its own unit in the last place is a
    float. *)
Lemma binary64_multiple (x : Q) (m : Z) :
  x == inject_Z m * ulp x -> binary64 x == x.
Proof.
  intros H. rewrite binary64_value.
  rewrite (round_half_even_int m); [now rewrite <- H|].
  rewrite H at 1. field. apply Qnot_eq_sym, Qlt_not_eq, ulp_pos.
Qed.

Lemma exponent_le (x y : Q) :
  ~ x == 0 -> Qabs x <= Qabs y -> (exponent x <= exponent y)%Z.
Proof.
  intros Hx H. unfold exponent.
  assert (P : 0 < Qabs x).
  { destruct (Qlt_le_dec 0 (Qabs x)) as [L|L]; [exact L|].
    exfalso. apply Hx. pose proof (Qabs_nonneg x) as N.
    assert (E : Qabs x == 0) by lra.
    revert E. apply Qabs_case; intros; lra. }
  pose proof (ilog2_le _ _ P H). lia.
Qed.

(** Between zero and a float, or a float and zero, rounding stays on the
    near side of the float. *)
Lemma binary64_multiple_of (x d : Q) :
  ~ x == 0 -> Qabs x <= Qabs d -> binary64 d == d ->
  exists n, d == inject_Z n * ulp x.
Proof.
  intros Hx H Hd. rewrite binary64_value in Hd.
  pose proof (exponent_le x d Hx H) as He.
  exists (round_half_even (d / ulp d) * 2 ^ (exponent d - exponent x))%Z.
  rewrite <- Hd at 1. rewrite inject_Z_mult, <- Qmult_assoc.
  apply Qmult_comp; [reflexivity|].
  rewrite <- pow2_nat by lia. unfold ulp.
  rewrite <- Qpower_plus by discriminate. f_equiv. lia.
Qed.

Lemma binary64_le (x hi : Q) :
  0 <= x -> x <= hi -> binary64 hi == hi -> binary64 x <= hi.
Proof.
  intros H0 H Hd.
  destruct (Qeq_dec x 0) as [Z|N].
  - apply Qle_trans with 0; [apply binary64_nonpos; lra|lra].
  - destruct (binary64_multiple_of x hi N) as [n Hn]; [|exact Hd|].
    { rewrite !Qabs_pos by lra. exact H. }
    rewrite binary64_value. rewrite Hn.
    apply Qmult_le_compat_r; [|apply Qlt_le_weak, ulp_pos].
    rewrite <- Zle_Qle. apply round_half_even_le.
    apply Qle_shift_div_r; [apply ulp_pos|]. now rewrite <- Hn.
Qed.

Lemma binary64_ge (x lo : Q) :
  x <= 0 -> lo <= x -> binary64 lo == lo -> lo <= binary64 x.
Proof.
  intros H0 H Hd.
  destruct (Qeq_dec x 0) as [Z|N].
  - apply Qle_trans with 0; [lra|apply binary64_nonneg; lra].
  - destruct (binary64_multiple_of x lo N) as [n Hn]; [|exact Hd|].
    { rewrite !Qabs_neg by lra. lra. }
    rewrite binary64_value. rewrite Hn at 1.
    apply Qmult_le_compat_r; [|apply Qlt_le_weak, ulp_pos].
    rewrite <- Zle_Qle. apply round_half_even_ge.
    apply Qle_shift_div_l; [apply ulp_pos|]. now rewrite <- Hn.
Qed.

Lemma round_half_even_comp (x y : Q) : x == y -> round_half_even x = round_half_even y.
Proof.
  intros H. unfold round_half_even. rewrite (Qfloor_comp _ _ H).
  assert (E : (x - inject_Z (Qfloor y) ?= 1 # 2) = (y - inject_Z (Qfloor y) ?= 1 # 2)).
  { apply Qcompare_comp; [now rewrite H|reflexivity]. }
  now rewrite E.
Qed.

Lemma Qabs_pos_of (x : Q) : ~ x == 0 -> 0 < Qabs x.
Proof.
  intros Hx. destruct (Qlt_le_dec 0 (Qabs x)) as [L|L]; [exact L|].
  exfalso. apply Hx. pose proof (Qabs_nonneg x) as N.
  assert (E : Qabs x == 0) by lra.
  revert E. apply Qabs_case; intros; lra.
Qed.

Lemma exponent_comp (x y : Q) : ~ x == 0 -> x == y -> exponent x = exponent y.
Proof.
  intros Hx H. unfold exponent. f_equal.
  pose proof (Qabs_pos_of x Hx) as P.
  destruct (ilog2_spec _ P) as [K1 K2].
  symmetry. apply ilog2_unique; now rewrite <- H.
Qed.

Lemma binary64_zero (x : Q) : x == 0 -> binary64 x == 0.
Proof.
  intros H. rewrite binary64_value.
  rewrite (round_half_even_int 0); [apply Qmult_0_l|].
  generalize (ulp x). intros u. rewrite H. unfold Qdiv. apply Qmult_0_l.
Qed.

Lemma binary64_comp (x y : Q) : x == y -> binary64 x == binary64 y.
Proof.
  intros H. destruct (Qeq_dec x 0) as [Z|N].
  - rewrite (binary64_zero x Z), (binary64_zero y); [reflexivity|].
    now rewrite <- H.
  - rewrite !binary64_value. unfold ulp.
    rewrite <- (exponent_comp x y N H).
    generalize (2 ^ (exponent x - 52)). intros u.
    rewrite (round_half_even_comp (y / u) (x / u)); [reflexivity|now rewrite H].
Qed.

#[global] Instance binary64_proper : Proper (Qeq ==> Qeq) binary64.
Proof. intros x y H. now apply binary64_comp. Qed.

(** Twice a float is a float, and so is its opposite. *)
Lemma binary64_twice (v x : Q) : binary64 v == v -> x == 2 * v -> binary64 x == x.
Proof.
  intros Hv Hx. destruct (Qeq_dec v 0) as [Z|N].
  - apply (binary64_multiple x 0). change (inject_Z 0) with 0.
    rewrite Qmult_0_l, Hx, Z. ring.
  - rewrite binary64_value in Hv.
    set (m := round_half_even (v / ulp v)) in *. clearbody m.
    pose proof (Qabs_pos_of v N) as P.
    destruct (ilog2_spec _ P) as [K1 K2].
    assert (A : Qabs x == 2 * Qabs v).
    { rewrite Hx, Qabs_Qmult. now rewrite (Qabs_pos 2) by discriminate. }
    assert (E : ilog2 (Qabs x) = (ilog2 (Qabs v) + 1)%Z).
    { apply ilog2_unique.
      - rewrite A, pow2_succ. lra.
      - rewrite A, (pow2_succ (ilog2 (Qabs v) + 1)). lra. }
    destruct (Z_le_gt_dec (-1022) (ilog2 (Qabs v))) as [L|G].
    + apply (binary64_multiple x m).
      assert (U : ulp x == 2 * ulp v).
      { unfold ulp, exponent. rewrite E.
        replace (Z.max (ilog2 (Qabs v) + 1) (-1022) - 52)%Z
          with (Z.max (ilog2 (Qabs v)) (-1022) - 52 + 1)%Z by lia.
        apply pow2_succ. }
      rewrite U, Hx. rewrite <- Hv at 1. ring.
    + apply (binary64_multiple x (2 * m)).
      assert (U : ulp x = ulp v).
      { unfold ulp, exponent. rewrite E. f_equal. lia. }
      rewrite U, Hx, inject_Z_mult. rewrite <- Hv at 1.
      change (inject_Z 2) with 2. ring.
Qed.

Lemma binary64_opp (v : Q) : binary64 v == v -> binary64 (- v) == - v.
Proof.
  intros Hv. rewrite binary64_value in Hv.
  apply (binary64_multiple (- v) (- round_half_even (v / ulp v))).
  assert (U : ulp (- v) = ulp v).
  { unfold ulp, exponent. do 3 f_equal. destruct v as [n d]. unfold Qabs, Qopp.
    simpl. now rewrite Z.abs_opp. }
  rewrite U, inject_Z_opp. rewrite <- Hv at 1. ring.
Qed.

(** [a + (b - a) * r] in floats, for [a = - v], [b = v] and [r] between 0
    and 1, stays between [- v] and [v]. *)
Lemma uniform_range (v r : Q) :
  0 <= v -> binary64 v == v -> 0 <= r -> r <= 1 ->
  let u := binary64 (- v + binary64 (binary64 (v - - v) * r)) in
  - v <= u /\ u <= v.
Proof.
  intros H0 Hv Hr0 Hr1.
  assert (W : binary64 (v - - v) == 2 * v).
  { rewrite (binary64_twice v (v - - v) Hv); ring. }
  set (w := binary64 (v - - v)) in *.
  assert (Ww : binary64 w == w) by (apply (binary64_twice v w Hv), W).
  assert (T0 : 0 <= binary64 (w * r)).
  { apply binary64_nonneg. nra. }
  assert (T1 : binary64 (w * r) <= w).
  { apply binary64_le; [nra|nra|exact Ww]. }
  set (t := binary64 (w * r)) in *. clearbody t. clearbody w.
  cbv zeta. destruct (Qlt_le_dec (- v + t) 0) as [L|L].
  - split.
    + apply binary64_ge; [lra|lra|now apply binary64_opp].
    + apply Qle_trans with 0; [apply binary64_nonpos; lra|exact H0].
  - split.
    + apply Qle_trans with 0; [lra|now apply binary64_nonneg].
    + apply binary64_le; [exact L|lra|exact Hv].
Qed.

End FloatFacts.

(** ** A round of the market feed *)

Section MarketFacts.
Import MarketDataSimulator.

Lemma put_lookup (item : option MarketTick.t) (q q' : nat) (qs : gmap nat queue) :
  put_with_timeout item q qs !! q'
  = if decide (q = q') then deliver item <$> qs !! q else qs !! q'.
Proof.
  unfold put_with_timeout.
  destruct (qs !! q) as [pending|] eqn:E.
  - destruct (decide (q = q')) as [<-|N].
    + now rewrite lookup_insert_eq.
    + now rewrite lookup_insert_ne.
  - destruct (decide (q = q')) as [<-|N]; [exact E|reflexivity].
Qed.

(** A broadcast reaches each of its targets once and nothing else. *)
Lemma foldl_put_lookup (item : option MarketTick.t) (targets : list nat) :
  NoDup targets ->
  forall (qs : gmap nat queue) (q : nat),
  foldl (fun qs q => put_with_timeout item q qs) qs targets !! q
  = if decide (q ∈ targets) then deliver item <$> qs !! q else qs !! q.
Proof.
  induction targets as [|x l IH]; intros Hnd qs q; simpl.
  - destruct (decide (q ∈ [])) as [H|_]; [|reflexivity].
    now apply elem_of_nil in H.
  - apply NoDup_cons in Hnd as [Hx Hnd]. rewrite (IH Hnd), put_lookup.
    destruct (decide (x = q)) as [->|N].
    + destruct (decide (q ∈ l)) as [H|_]; [contradiction|].
      destruct (decide (q ∈ q :: l)) as [_|H]; [reflexivity|].
      exfalso. apply H. left.
    + destruct (decide (q ∈ l)) as [Hl|Hl];
        destruct (decide (q ∈ x :: l)) as [H|H]; try reflexivity.
      * exfalso. apply H. now right.
      * exfalso. apply elem_of_cons in H as [H|H]; congruence.
Qed.

Lemma broadcast_tick_queues (sim : t) (instrument : string) (tick : MarketTick.t)
    (q : nat) :
  NoDup (targets (subscribers sim) instrument) ->
  queues (_broadcast_tick sim instrument tick) !! q
  = if decide (q ∈ targets (subscribers sim) instrument)
    then deliver (Some tick) <$> queues sim !! q
    else queues sim !! q.
Proof. intros H. unfold _broadcast_tick. simpl. now apply foldl_put_lookup. Qed.

Lemma lookup_subscribers_elem (instrument : string) (qs : list nat)
    (subs : list (string * list nat)) :
  lookup_subscribers instrument subs = Some qs -> (instrument, qs) ∈ subs.
Proof.
  induction subs as [|[k l] subs IH]; simpl; [discriminate|].
  destruct (String.eqb k instrument) eqn:E.
  - apply String.eqb_eq in E. intros [= <-]. subst k. left.
  - intros H. right. auto.
Qed.

Lemma lookup_subscribers_at (j : nat) (instrument : string) (qs : list nat)
    (subs : list (string * list nat)) :
  NoDup (map fst subs) -> subs !! j = Some (instrument, qs) ->
  lookup_subscribers instrument subs = Some qs.
Proof.
  revert j. induction subs as [|[k l] subs IH]; intros j Hnd; [easy|].
  simpl in Hnd. apply NoDup_cons in Hnd as [Hk Hnd].
  destruct j as [|j]; simpl.
  - intros [= -> ->]. now rewrite String.eqb_refl.
  - intros H. destruct (String.eqb k instrument) eqn:E.
    + apply String.eqb_eq in E. subst k. exfalso. apply Hk.
      apply list_elem_of_fmap. exists (instrument, qs). split; [reflexivity|].
      now apply list_elem_of_lookup_2 in H.
    + now apply (IH j).
Qed.

Lemma elem_of_concat_snd (subs : list (string * list nat)) (a : string)
    (b : list nat) (q : nat) :
  (a, b) ∈ subs -> q ∈ b -> q ∈ concat (map snd subs).
Proof.
  induction subs as [|[k l] subs IH]; intros H Hq; [now apply elem_of_nil in H|].
  simpl. apply elem_of_app.
  apply elem_of_cons in H as [[= <- <-]|H]; [now left|right; auto].
Qed.

(** Under [registry_wf] the queues of an instrument are distinct, and
    apart from those of any other instrument. *)
Lemma registry_wf_targets (subs : list (string * list nat)) (instrument : string) :
  registry_wf subs -> NoDup (targets subs instrument).
Proof.
  intros [_ Hq]. unfold targets.
  destruct (lookup_subscribers instrument subs) as [qs|] eqn:E; simpl;
    [|apply NoDup_nil_2].
  apply lookup_subscribers_elem in E. clear -Hq E.
  induction subs as [|[k l] subs IH]; [now apply elem_of_nil in E|].
  simpl in Hq. apply NoDup_app in Hq as (Hl & _ & Hrest).
  apply elem_of_cons in E as [[= <- <-]|E]; [exact Hl|auto].
Qed.

Lemma registry_wf_apart (subs : list (string * list nat)) (i i' : string) (q : nat) :
  registry_wf subs -> i <> i' ->
  q ∈ targets subs i -> q ∉ targets subs i'.
Proof.
  intros [Hk Hq] N. unfold targets.
  destruct (lookup_subscribers i subs) as [qs|] eqn:E; simpl;
    [|intros H; now apply elem_of_nil in H].
  destruct (lookup_subscribers i' subs) as [qs'|] eqn:E'; simpl;
    [|intros _ H; now apply elem_of_nil in H].
  apply lookup_subscribers_elem in E, E'. intros Hin Hin'.
  clear Hk. induction subs as [|[k l] subs IH]; [now apply elem_of_nil in E|].
  simpl in Hq. apply NoDup_app in Hq as (Hl & Hsep & Hrest).
  apply elem_of_cons in E as [[= <- <-]|E], E' as [[= <- <-]|E'].
  - congruence.
  - apply (Hsep q Hin). now apply (elem_of_concat_snd subs i' qs').
  - apply (Hsep q Hin'). now apply (elem_of_concat_snd subs i qs).
  - now apply IH.
Qed.

Section Round.

Variable PRICE_VOLATILITY : Q.
Variable random : nat -> Q.
Variable now : Py.datetime.

#[local] Abbreviation after := (MarketDataSimulator.after PRICE_VOLATILITY random now).

Lemma after_cons_priced (i : string) (l : list string) (k : nat) (sim : t) (p : Q) :
  current_prices sim !! i = Some p ->
  after (i :: l) k sim
  = after l (S k)
      (_broadcast_tick
         (mk (is_running sim) (subscribers sim)
             (<[i := next_price PRICE_VOLATILITY random p k]> (current_prices sim))
             (queues sim))
         i (MarketTick.mk i (next_price PRICE_VOLATILITY random p k) now)).
Proof.
  intros H. unfold after. cbn [generate_over]. rewrite H. reflexivity.
Qed.

Lemma after_cons_missing (i : string) (l : list string) (k : nat) (sim : t) :
  current_prices sim !! i = None -> after (i :: l) k sim = sim.
Proof. intros H. unfold after. simpl. now rewrite H. Qed.

Lemma after_nil (k : nat) (sim : t) : after [] k sim = sim.
Proof. reflexivity. Qed.

Lemma after_subscribers (l : list string) (k : nat) (sim : t) :
  subscribers (after l k sim) = subscribers sim.
Proof.
  revert k sim. induction l as [|i l IH]; intros k sim; [reflexivity|].
  destruct (current_prices sim !! i) as [p|] eqn:E.
  - rewrite (after_cons_priced _ _ _ _ _ E), IH. reflexivity.
  - now rewrite after_cons_missing.
Qed.

Lemma after_prices_other (l : list string) (k : nat) (sim : t) (i : string) :
  i ∉ l -> current_prices (after l k sim) !! i = current_prices sim !! i.
Proof.
  revert k sim. induction l as [|i0 l IH]; intros k sim Hi; [reflexivity|].
  apply not_elem_of_cons in Hi as [N Hi].
  destruct (current_prices sim !! i0) as [p|] eqn:E.
  - rewrite (after_cons_priced _ _ _ _ _ E), (IH _ _ Hi). simpl.
    now apply lookup_insert_ne.
  - now rewrite after_cons_missing.
Qed.

Lemma foldl_put_other (item : option MarketTick.t) (l : list nat)
    (qs : gmap nat queue) (q : nat) :
  q ∉ l -> foldl (fun qs q => put_with_timeout item q qs) qs l !! q = qs !! q.
Proof.
  revert qs. induction l as [|x l IH]; intros qs Hq; [reflexivity|].
  apply not_elem_of_cons in Hq as [N Hq]. simpl.
  rewrite (IH _ Hq), put_lookup. destruct (decide (x = q)); congruence.
Qed.

Lemma after_queues_other (l : list string) (k : nat) (sim : t) (q : nat) :
  (forall i, i ∈ l -> q ∉ targets (subscribers sim) i) ->
  queues (after l k sim) !! q = queues sim !! q.
Proof.
  revert k sim. induction l as [|i0 l IH]; intros k sim Hq; [reflexivity|].
  destruct (current_prices sim !! i0) as [p|] eqn:E.
  - rewrite (after_cons_priced _ _ _ _ _ E), IH.
    + unfold _broadcast_tick. simpl. apply foldl_put_other.
      apply (Hq i0). left.
    + intros i Hi. simpl. apply Hq. now right.
  - now rewrite after_cons_missing.
Qed.

(** With a price for every instrument of the round, no [KeyError]
    ends it, and it makes one draw for each. *)
Lemma generate_over_completes (l : list string) (k : nat) (sim : t) :
  (forall i, i ∈ l -> is_Some (current_prices sim !! i)) ->
  generate_over PRICE_VOLATILITY random now l k sim = (after l k sim, (k + List.length l)%nat, None).
Proof.
  revert k sim. induction l as [|i l IH]; intros k sim Hp.
  - simpl. unfold after. simpl. now rewrite Nat.add_0_r.
  - destruct (Hp i) as [p E]; [left|].
    rewrite (after_cons_priced _ _ _ _ _ E). simpl. rewrite E.
    rewrite IH; [now rewrite Nat.add_succ_r|].
    intros i' Hi'. simpl. apply lookup_insert_is_Some.
    destruct (decide (i = i')); [now left|right]. split; [assumption|].
    apply Hp. now right.
Qed.

(** The instrument at position [j] of the round moves by the draw
    [k + j], and each of its queues is offered the tick. *)
Lemma after_at (l : list string) (k : nat) (sim : t) (j : nat) (i : string) (p : Q) :
  NoDup l ->
  (forall i', i' ∈ l -> is_Some (current_prices sim !! i')) ->
  registry_wf (subscribers sim) ->
  l !! j = Some i ->
  current_prices sim !! i = Some p ->
  let new := next_price PRICE_VOLATILITY random p (k + j) in
  current_prices (after l k sim) !! i = Some new
  /\ forall q, q ∈ targets (subscribers sim) i ->
     queues (after l k sim) !! q
     = deliver (Some (MarketTick.mk i new now)) <$> queues sim !! q.
Proof.
  revert k sim j. induction l as [|i0 l IH]; intros k sim j Hnd Hp Hwf Hj Hi;
    [discriminate|].
  apply NoDup_cons in Hnd as [Hi0 Hnd].
  destruct j as [|j]; simpl in Hj.
  - injection Hj as ->. rewrite Nat.add_0_r. cbv zeta.
    rewrite (after_cons_priced _ _ _ _ _ Hi). split.
    + rewrite (after_prices_other _ _ _ _ Hi0). simpl. apply lookup_insert_eq.
    + intros q Hq. rewrite after_queues_other.
      * rewrite broadcast_tick_queues; simpl; [|now apply registry_wf_targets].
        destruct (decide (q ∈ targets (subscribers sim) i)); [reflexivity|contradiction].
      * intros i' Hi'. simpl. apply (registry_wf_apart _ i); [exact Hwf| |exact Hq].
        intros ->. contradiction.
  - destruct (Hp i0) as [p0 E0]; [left|].
    assert (N : i0 <> i).
    { intros ->. apply Hi0. now apply list_elem_of_lookup_2 in Hj. }
    rewrite (after_cons_priced _ _ _ _ _ E0). cbv zeta.
    replace (k + S j)%nat with (S k + j)%nat by lia.
    match goal with
    | |- context [after l (S k) ?s] => set (sim1 := s)
    end.
    assert (Hi1 : current_prices sim1 !! i = Some p).
    { subst sim1. simpl. now rewrite lookup_insert_ne. }
    assert (Hp1 : forall i', i' ∈ l -> is_Some (current_prices sim1 !! i')).
    { intros i' Hi'. subst sim1. simpl. apply lookup_insert_is_Some.
      destruct (decide (i0 = i')); [now left|right]. split; [assumption|].
      apply Hp. now right. }
    destruct (IH (S k) sim1 j Hnd Hp1 Hwf Hj Hi1) as [H1 H2].
    split; [exact H1|]. intros q Hq. rewrite (H2 q Hq). f_equal.
    subst sim1. rewrite broadcast_tick_queues; simpl;
      [|now apply registry_wf_targets].
    destruct (decide (q ∈ targets (subscribers sim) i0)) as [Hin|_]; [|reflexivity].
    exfalso. revert Hin. apply (registry_wf_apart _ i); [exact Hwf|congruence|exact Hq].
Qed.

End Round.

(** *** The registry stays well-formed *)

Lemma le_foldr_max (x : nat) (l : list nat) : x ∈ l -> (x <= foldr Nat.max 0 l)%nat.
Proof.
  induction l as [|y l IH]; intros H; [now apply elem_of_nil in H|].
  simpl. apply elem_of_cons in H as [->|H]; [lia|]. specialize (IH H). lia.
Qed.

Lemma fresh_queue_is_fresh (sim : t) : queues sim !! fresh_queue sim = None.
Proof.
  destruct (queues sim !! fresh_queue sim) as [v|] eqn:E; [|reflexivity].
  exfalso. apply elem_of_map_to_list in E.
  assert (H : fresh_queue sim ∈ map fst (map_to_list (queues sim)))
    by exact (list_elem_of_fmap_2 fst _ _ E).
  apply le_foldr_max in H. unfold fresh_queue in H. lia.
Qed.

Lemma elem_of_keys_add (x i : string) (q : nat) (subs : list (string * list nat)) :
  x ∈ map fst (add_subscriber i q subs) <-> x = i \/ x ∈ map fst subs.
Proof.
  induction subs as [|[k qs] subs IH]; simpl.
  - rewrite list_elem_of_singleton. split; [auto|]. intros [H|H]; [exact H|].
    now apply elem_of_nil in H.
  - destruct (String.eqb k i) eqn:E; simpl.
    + apply String.eqb_eq in E. subst k. rewrite elem_of_cons. tauto.
    + rewrite !elem_of_cons, IH. tauto.
Qed.

Lemma elem_of_queues_add (x : nat) (i : string) (q : nat)
    (subs : list (string * list nat)) :
  x ∈ concat (map snd (add_subscriber i q subs))
  <-> x = q \/ x ∈ concat (map snd subs).
Proof.
  induction subs as [|[k qs] subs IH]; simpl.
  - rewrite list_elem_of_singleton. split; [auto|].
    intros [H|H]; [exact H|now apply elem_of_nil in H].
  - destruct (String.eqb k i); simpl.
    + rewrite !elem_of_app, list_elem_of_singleton. tauto.
    + rewrite !elem_of_app, IH. tauto.
Qed.

Lemma registry_wf_add (i : string) (q : nat) (subs : list (string * list nat)) :
  registry_wf subs -> q ∉ concat (map snd subs) ->
  registry_wf (add_subscriber i q subs).
Proof.
  intros [Hk Hq] Hfresh. split.
  - clear Hq Hfresh. induction subs as [|[k qs] subs IH]; simpl.
    + apply NoDup_singleton.
    + simpl in Hk. apply NoDup_cons in Hk as [Hk Hrest].
      destruct (String.eqb k i) eqn:E; simpl.
      * now apply NoDup_cons.
      * apply NoDup_cons. split; [|auto]. rewrite elem_of_keys_add.
        intros [->|H]; [|contradiction]. now rewrite String.eqb_refl in E.
  - clear Hk. induction subs as [|[k qs] subs IH]; simpl.
    + apply NoDup_singleton.
    + simpl in Hq, Hfresh. apply NoDup_app in Hq as (Hqs & Hsep & Hrest).
      apply not_elem_of_app in Hfresh as [Hf1 Hf2].
      destruct (String.eqb k i); simpl.
      * apply NoDup_app. split; [|split; [|exact Hrest]].
        -- apply NoDup_app. split; [exact Hqs|]. split; [|apply NoDup_singleton].
           intros x Hx Hx'. apply list_elem_of_singleton in Hx'. congruence.
        -- intros x Hx. apply elem_of_app in Hx as [Hx|Hx]; [now apply Hsep|].
           apply list_elem_of_singleton in Hx. congruence.
      * apply NoDup_app. split; [exact Hqs|]. split; [|now apply IH].
        intros x Hx. rewrite elem_of_queues_add. intros [->|H]; [contradiction|].
        now apply (Hsep x).
Qed.

Lemma keys_discard (i : string) (q : nat) (subs : list (string * list nat)) :
  map fst (discard_subscriber i q subs) = map fst subs.
Proof.
  induction subs as [|[k qs] subs IH]; simpl; [reflexivity|].
  destruct (String.eqb k i); simpl; [reflexivity|now rewrite IH].
Qed.

Lemma elem_of_queues_discard (x : nat) (i : string) (q : nat)
    (subs : list (string * list nat)) :
  x ∈ concat (map snd (discard_subscriber i q subs)) ->
  x ∈ concat (map snd subs).
Proof.
  induction subs as [|[k qs] subs IH]; simpl; [auto|].
  destruct (String.eqb k i); simpl; rewrite !elem_of_app.
  - intros [H|H]; [left|now right]. now apply list_elem_of_filter in H as [_ H].
  - intros [H|H]; [now left|right; auto].
Qed.

Lemma registry_wf_discard (i : string) (q : nat) (subs : list (string * list nat)) :
  registry_wf subs -> registry_wf (discard_subscriber i q subs).
Proof.
  intros [Hk Hq]. split; [now rewrite keys_discard|]. clear Hk.
  induction subs as [|[k qs] subs IH]; simpl; [exact Hq|].
  simpl in Hq. apply NoDup_app in Hq as (Hqs & Hsep & Hrest).
  destruct (String.eqb k i); simpl; apply NoDup_app.
  - split; [now apply NoDup_filter|]. split; [|exact Hrest].
    intros x Hx. apply list_elem_of_filter in Hx as [_ Hx]. now apply Hsep.
  - split; [exact Hqs|]. split; [|now apply IH].
    intros x Hx Hx'. apply elem_of_queues_discard in Hx'. now apply (Hsep x).
Qed.

Lemma feed_wf_init : feed_wf init.
Proof.
  split; [split; apply NoDup_nil_2|]. intros q H. now apply elem_of_nil in H.
Qed.

Lemma feed_wf_subscribe (sim : t) (instrument : string) :
  feed_wf sim -> feed_wf (fst (subscribe sim instrument)).
Proof.
  intros [Hwf Hq]. unfold subscribe. simpl.
  pose proof (fresh_queue_is_fresh sim) as Hfresh.
  split.
  - apply registry_wf_add; [exact Hwf|]. intros H. apply Hq in H.
    rewrite Hfresh in H. now destruct H.
  - intros q H. apply elem_of_queues_add in H. apply lookup_insert_is_Some'.
    destruct H as [->|H]; [now left|right; auto].
Qed.

Lemma feed_wf_unsubscribe (sim : t) (instrument : string) (q : nat) :
  feed_wf sim -> feed_wf (unsubscribe sim instrument q).
Proof.
  intros [Hwf Hq]. unfold unsubscribe. split; simpl.
  - now apply registry_wf_discard.
  - intros x H. apply Hq. now apply elem_of_queues_discard in H.
Qed.

Lemma after_queues_is_Some (PRICE_VOLATILITY : Q) (random : nat -> Q) (now : Py.datetime)
    (l : list string) (k : nat) (sim : t) (q : nat) :
  is_Some (queues sim !! q) ->
  is_Some (queues (MarketDataSimulator.after PRICE_VOLATILITY random now l k sim) !! q).
Proof.
  revert k sim. induction l as [|i l IH]; intros k sim H; [exact H|].
  destruct (current_prices sim !! i) as [p|] eqn:E.
  - rewrite (after_cons_priced _ _ _ _ _ _ _ _ E). apply IH.
    unfold _broadcast_tick. simpl.
    generalize (targets (subscribers sim) i). intros ts.
    revert H. generalize (queues sim). induction ts as [|x ts IHts]; intros qs H;
      [exact H|].
    simpl. apply IHts. rewrite put_lookup.
    destruct (decide (x = q)) as [->|_]; [now apply fmap_is_Some|exact H].
  - now rewrite after_cons_missing.
Qed.

Lemma feed_wf_round (PRICE_VOLATILITY : Q) (random : nat -> Q) (now : Py.datetime) (k : nat) (sim : t) :
  feed_wf sim ->
  feed_wf (fst (fst (_generate_and_broadcast_ticks PRICE_VOLATILITY random now k sim))).
Proof.
  intros [Hwf Hq]. unfold _generate_and_broadcast_ticks.
  fold (MarketDataSimulator.after PRICE_VOLATILITY random now (keys sim) k sim).
  split; rewrite after_subscribers; [exact Hwf|].
  intros q H. apply after_queues_is_Some. now apply Hq.
Qed.

End MarketFacts.

(** ** Statistics *)

Section StatisticsFacts.
Import StrategyEngine.

Variable py_eval :
  string -> ConditionEvaluator.namespace -> ConditionEvaluator.namespace ->
  ConditionEvaluator.result ConditionEvaluator.value.

Lemma py_sum_nat_ones {A : Type} (l : list A) :
  py_sum_nat (map (fun _ => 1%nat) l) = List.length l.
Proof.
  unfold py_sum_nat.
  assert (H : forall n, foldl Nat.add n (map (fun _ : A => 1%nat) l)
                        = (n + List.length l)%nat).
  { induction l as [|x l IH]; intros n; simpl; [lia|]. rewrite IH. lia. }
  apply H.
Qed.

Lemma count_number_in (st : StrategyState) (roster : list Strategy.t) :
  count (fun s => bool_decide (Strategy.state s = st)) roster = number_in st roster.
Proof. unfold count. apply py_sum_nat_ones. Qed.

Lemma py_sum_float_sum_of (l : list Q) : (py_sum_float l == sum_of l)%Q.
Proof.
  unfold py_sum_float, sum_of.
  assert (H : forall a, (foldl Qplus a l == a + foldr Qplus 0 l)%Q).
  { induction l as [|x l IH]; intros a; simpl.
    - now rewrite Qplus_0_r.
    - rewrite IH. now rewrite Qplus_assoc. }
  rewrite H. apply Qplus_0_l.
Qed.

(** The addresses [run] hands out name the roster in order. *)
Lemma deref_seq (pre h : list Strategy.t) :
  deref (pre ++ h)%list (seq (List.length pre) (List.length h)) = h.
Proof.
  unfold deref. revert pre. induction h as [|x h IH]; intros pre; [reflexivity|].
  simpl. rewrite list_lookup_middle by reflexivity. f_equal.
  specialize (IH (pre ++ [x])%list). rewrite <- app_assoc in IH. simpl in IH.
  rewrite List.length_app in IH. simpl in IH.
  now rewrite Nat.add_1_r in IH.
Qed.

Lemma deref_all (h : list Strategy.t) : deref h (seq 0 (List.length h)) = h.
Proof. exact (deref_seq [] h). Qed.

Lemma force_close_all_heap (now : Py.datetime) (e : t) (P : Strategy.t -> Prop) :
  (forall s, P s -> P (close_if_open (market_simulator e) now s)) ->
  Forall P (heap e) -> Forall P (heap (force_close_all now e)).
Proof.
  intros HP. unfold force_close_all. simpl.
  generalize (heap e). induction (active_strategies e) as [|r l IH]; intros h Hh;
    [exact Hh|].
  simpl. apply IH. now apply update_Forall.
Qed.

Lemma force_close_all_length (now : Py.datetime) (e : t) :
  List.length (heap (force_close_all now e)) = List.length (heap e).
Proof.
  unfold force_close_all. simpl.
  generalize (heap e). induction (active_strategies e) as [|r l IH]; intros h;
    [reflexivity|].
  simpl. now rewrite IH, update_length.
Qed.

(** A schedule keeps the roster: same addresses, same number of objects,
    and every object is changed by life-cycle operations only. *)
Lemma exec_keeps (P : Strategy.t -> Prop) (e : t) (ev : event) :
  (forall s op, P s -> P (apply py_eval s op)) ->
  Forall P (heap e) ->
  Forall P (heap (exec py_eval e ev))
  /\ List.length (heap (exec py_eval e ev)) = List.length (heap e)
  /\ strategies (exec py_eval e ev) = strategies e.
Proof.
  intros HP Hh. destruct ev as [r now tick|r now|r|sim|now]; simpl.
  - destruct (alive r e); [|auto].
    set (h := update r _ (heap e)).
    assert (Hh' : Forall P h /\ List.length h = List.length (heap e)).
    { split; [|apply update_length]. apply update_Forall; [|exact Hh].
      intros s. apply (HP s (OnTick now tick)). }
    destruct (h !! r) as [s|]; [|now simpl].
    destruct (Strategy.is_closed s); now simpl.
  - destruct (alive r e); [|auto]. simpl. rewrite update_length.
    split; [|auto]. apply update_Forall; [|exact Hh]. intros s Hs.
    fold (close_if_open (market_simulator e) now s). rewrite close_if_open_eq.
    apply (HP s (OnForceClose (market_simulator e) now) Hs).
  - destruct (alive r e); [|auto]. simpl. rewrite update_length.
    split; [|auto]. apply update_Forall; [|exact Hh]. intros s.
    apply (HP s OnFault).
  - auto.
  - split; [|split; [apply force_close_all_length|reflexivity]].
    apply force_close_all_heap; [|exact Hh]. intros s Hs.
    rewrite close_if_open_eq.
    apply (HP s (OnForceClose (market_simulator e) now) Hs).
Qed.

Lemma exec_all_keeps (P : Strategy.t -> Prop) (e : t) (schedule : list event) :
  (forall s op, P s -> P (apply py_eval s op)) ->
  Forall P (heap e) ->
  Forall P (heap (exec_all py_eval e schedule))
  /\ List.length (heap (exec_all py_eval e schedule)) = List.length (heap e)
  /\ strategies (exec_all py_eval e schedule) = strategies e.
Proof.
  intros HP. unfold exec_all. revert e.
  induction schedule as [|ev l IH]; intros e Hh; simpl; [auto|].
  destruct (exec_keeps P e ev HP Hh) as (H1 & H2 & H3).
  destruct (IH _ H1) as (K1 & K2 & K3).
  split; [exact K1|]. split; congruence.
Qed.

(** At any point of a day the roster of the statistics is the store. *)
Lemma roster_of_day (sim : MarketDataSimulator.t) (roster : list Strategy.t)
    (schedule : list event) :
  let e := exec_all py_eval (run sim roster) schedule in
  deref (heap e) (strategies e) = heap e
  /\ List.length (heap e) = List.length roster.
Proof.
  intros e.
  destruct (exec_all_keeps (fun _ => True) (run sim roster) schedule) as (_ & H2 & H3).
  - auto.
  - simpl. apply Forall_forall. auto.
  - subst e. rewrite H3. simpl in *. rewrite <- H2. split; [apply deref_all|reflexivity].
Qed.

(** At any point of a day every record of the store holds the prices of
    its state. *)
Lemma lifecycle_invariant_of_day (sim : MarketDataSimulator.t)
    (configs : list Strategy.config) (schedule : list event) :
  Forall (fun s => lifecycle_invariant s = true)
    (heap (exec_all py_eval (run sim (map Strategy.of_config configs)) schedule)).
Proof.
  destruct (exec_all_keeps (fun s => lifecycle_invariant s = true)
              (run sim (map Strategy.of_config configs)) schedule) as (H & _ & _).
  - intros s op. apply lifecycle_invariant_apply.
  - simpl. apply Forall_fmap, Forall_forall. intros c _.
    destruct c as [[[[[[? ?] ?] ?] ?] ?] ?]. reflexivity.
  - exact H.
Qed.

End StatisticsFacts.

(** * The properties of the specification *)

(** ** Condition evaluator *)

(** C8. Time normalization of [HH:MM] literals is correct and idempotent:
    a literal of one or two digits of hours and two digits of minutes is
    rewritten to the decimal numeral of [hours * 60 + minutes], and a
    second normalization leaves the result as it is, for the literal on
    its own and for the literal inside a text that has no other colon.
    The witness gives ["09:15"] as [555] and ["15:20"] as [920]. *)
Theorem normalize_time_correct_and_idempotent (h m : string) :
  ConditionEvaluator.is_hours h = true ->
  ConditionEvaluator.is_minutes m = true ->
  ConditionEvaluator._normalize_time (h ++ ":" ++ m)
  = Py.str_of_nat (Py.int_of_digits h * 60 + Py.int_of_digits m)
  /\ ConditionEvaluator._normalize_time
       (ConditionEvaluator._normalize_time (h ++ ":" ++ m))
     = ConditionEvaluator._normalize_time (h ++ ":" ++ m)
  /\ forall before behind,
       Py.count ":" before = 0%nat -> Py.count ":" behind = 0%nat ->
       let text := before ++ h ++ ":" ++ m ++ behind in
       ConditionEvaluator._normalize_time (ConditionEvaluator._normalize_time text)
       = ConditionEvaluator._normalize_time text.
Proof.
  intros Hh Hm. rewrite (normalize_time_value h m Hh Hm).
  split; [reflexivity|]. split.
  - apply normalize_time_no_colon, str_of_nat_no_colon.
  - intros before behind Hb Ha text. apply normalize_time_idempotent_one_colon.
    subst text. rewrite !count_app, Hb, Ha.
    unfold ConditionEvaluator.is_hours, ConditionEvaluator.is_minutes in Hh, Hm.
    apply andb_true_iff in Hh as [_ Hh], Hm as [_ Hm].
    rewrite (count_digits_colon h Hh), (count_digits_colon m Hm). simpl. lia.
Qed.

Lemma normalize_time_market_hours :
  (ConditionEvaluator._normalize_time "09:15" = "555"
   /\ ConditionEvaluator._normalize_time (ConditionEvaluator._normalize_time "09:15")
      = ConditionEvaluator._normalize_time "09:15")
  /\ (ConditionEvaluator._normalize_time "15:20" = "920"
      /\ ConditionEvaluator._normalize_time (ConditionEvaluator._normalize_time "15:20")
         = ConditionEvaluator._normalize_time "15:20")
  /\ ConditionEvaluator._normalize_time
       (ConditionEvaluator._normalize_time "time >= 15:20")
     = ConditionEvaluator._normalize_time "time >= 15:20".
Proof.
  split; [|split].
  - pose proof (normalize_time_correct_and_idempotent "09" "15" eq_refl eq_refl)
      as (H1 & H2 & _).
    split; [exact H1|exact H2].
  - pose proof (normalize_time_correct_and_idempotent "15" "20" eq_refl eq_refl)
      as (H1 & H2 & _).
    split; [exact H1|exact H2].
  - exact (proj2 (proj2 (normalize_time_correct_and_idempotent "15" "20"
                           eq_refl eq_refl)) "time >= " "" eq_refl eq_refl).
Defined.

(** The pattern is applied once, from left to right, so a literal that is
    followed by a colon leaves text that a second pass rewrites again.
    Such text holds two colons; with at most one colon a second pass
    changes nothing ([normalize_time_idempotent_one_colon]). *)
Example normalize_time_with_seconds :
  ConditionEvaluator._normalize_time "15:20:00" = "920:00"
  /\ ConditionEvaluator._normalize_time "920:00" = "91200".
Proof. split; reflexivity. Qed.

(** Inside a condition the literal is rewritten in place. *)
Example normalize_time_in_condition :
  ConditionEvaluator._normalize_time "price > 20100 or time >= 15:20"
  = "price > 20100 or time >= 920".
Proof. reflexivity. Qed.

(** Whatever [eval] does, [evaluate] says [True] on the text below as soon
    as [eval] returns the integer 1 for it, which Python's does: the left
    operand of [or] is true and the right one is never looked at. *)
Lemma evaluate_short_circuit
    (py_eval : string -> ConditionEvaluator.namespace -> ConditionEvaluator.namespace ->
               ConditionEvaluator.result ConditionEvaluator.value)
    (now : Py.datetime) (price : Q) :
  (forall globals locals,
     py_eval "1 or a>nd" globals locals = ConditionEvaluator.Ok (ConditionEvaluator.VInt 1)) ->
  ConditionEvaluator.evaluate py_eval now "1 or a>nd" price = true.
Proof.
  intros H. apply evaluate_true_iff. split; [reflexivity|].
  exists (ConditionEvaluator.VInt 1). split; [|reflexivity].
  change (ConditionEvaluator.prepared "1 or a>nd") with "1 or a>nd". apply H.
Qed.

(** C1. [evaluate] always answers with a boolean, and answers [False] on a
    condition that holds a token outside the allow-list.  The code misses
    the second part on ["1 or a>nd"]: the identifiers [a] and [nd] are not
    on the allow-list, yet the six removals leave nothing ([a>nd] loses
    [>] and is then taken for [and]), the text reaches [eval], and
    [evaluate] answers [True]. *)
Theorem evaluate_accepts_recombined_identifier (now : Py.datetime) (price : Q) :
  ConditionEvaluator.cleaned (ConditionEvaluator.prepared "1 or a>nd") = ""
  /\ ConditionEvaluator._is_safe_expression (ConditionEvaluator.prepared "1 or a>nd") = true
  /\ PyEval.parse "1 or a>nd"
     = ConditionEvaluator.Ok
         (PyEval.BoolOr (PyEval.Constant (ConditionEvaluator.VInt 1))
            (PyEval.Compare (PyEval.Name "a") PyEval.Gt (PyEval.Name "nd")))
  /\ ConditionEvaluator.evaluate PyEval.eval now "1 or a>nd" price = true.
Proof.
  split; [reflexivity|]. split; [reflexivity|]. split; [reflexivity|].
  apply evaluate_short_circuit. intros globals locals. reflexivity.
Qed.

(** ** Strategy records *)

(** C6. With [entry_price] set, [pnl(price) = (price - entry_price) *
    quantity], with the same sign for every strategy, and an exit stores
    that amount in [pnl].  The witness enters at 100 with quantity 10:
    105 gives +50 and 95 gives -50. *)
Theorem calculate_pnl_long_only (s : Strategy.t) (entry price : Q) :
  Strategy.entry_price s = Some entry ->
  Strategy.calculate_pnl s price = ((price - entry) * inject_Z (Strategy.quantity s))%Q
  /\ forall now reason,
     Strategy.pnl (Strategy.exit now s price reason)
     = ((price - entry) * inject_Z (Strategy.quantity s))%Q.
Proof.
  intros H. unfold Strategy.exit, Strategy.calculate_pnl. simpl.
  rewrite H. split; reflexivity.
Qed.

Lemma calculate_pnl_scenario :
  Strategy.entry_price Sample.entered = Some 100%Q
  /\ Strategy.quantity Sample.entered = 10%Z
  /\ Strategy.calculate_pnl Sample.entered 105 = 50%Q
  /\ Strategy.calculate_pnl Sample.entered 95 = (-50)%Q
  /\ Strategy.pnl (Strategy.exit Sample.now Sample.entered 105 TARGET_HIT) = 50%Q
  /\ Strategy.pnl (Strategy.exit Sample.now Sample.entered 95 STOP_LOSS) = (-50)%Q.
Proof.
  split; [reflexivity|]. split; [reflexivity|].
  split; [exact (proj1 (calculate_pnl_long_only Sample.entered 100 105 eq_refl))|].
  split; [exact (proj1 (calculate_pnl_long_only Sample.entered 100 95 eq_refl))|].
  split.
  - exact (proj2 (calculate_pnl_long_only Sample.entered 100 105 eq_refl)
             Sample.now TARGET_HIT).
  - exact (proj2 (calculate_pnl_long_only Sample.entered 100 95 eq_refl)
             Sample.now STOP_LOSS).
Defined.

(** C2. On an [OPEN] strategy a tick is checked against the stop-loss
    first, then the profit target, then the exit condition, and the first
    that holds decides: with [pnl(tick.price) <= -max_loss] the strategy
    exits with [STOP_LOSS], whatever the target and the exit condition say.
    In the witness the tick meets the stop-loss and the exit condition at
    once, and the reason is [STOP_LOSS]. *)
Theorem risk_checks_come_first
    (py_eval : string -> ConditionEvaluator.namespace -> ConditionEvaluator.namespace ->
               ConditionEvaluator.result ConditionEvaluator.value)
    (now : Py.datetime) (s : Strategy.t) (tick : MarketTick.t) :
  Strategy.state s = OPEN ->
  let price := MarketTick.price tick in
  let pnl := Strategy.calculate_pnl s price in
  let s' := StrategyEngine._evaluate_strategy py_eval now s tick in
  let exit_condition :=
    ConditionEvaluator.evaluate py_eval now (Strategy.exit_condition s) price in
  ((pnl <= - Strategy.max_loss s)%Q ->
     s' = Strategy.exit now s price STOP_LOSS
     /\ Strategy.state s' = CLOSED /\ Strategy.exit_reason s' = Some STOP_LOSS)
  /\ (~ (pnl <= - Strategy.max_loss s)%Q -> (Strategy.max_profit s <= pnl)%Q ->
     s' = Strategy.exit now s price TARGET_HIT
     /\ Strategy.state s' = CLOSED /\ Strategy.exit_reason s' = Some TARGET_HIT)
  /\ (~ (pnl <= - Strategy.max_loss s)%Q -> ~ (Strategy.max_profit s <= pnl)%Q ->
     exit_condition = true ->
     s' = Strategy.exit now s price EXIT_CONDITION
     /\ Strategy.state s' = CLOSED /\ Strategy.exit_reason s' = Some EXIT_CONDITION)
  /\ (~ (pnl <= - Strategy.max_loss s)%Q -> ~ (Strategy.max_profit s <= pnl)%Q ->
     exit_condition = false -> s' = s).
Proof.
  intros Hs price pnl s' exit_condition. subst s'.
  unfold StrategyEngine._evaluate_strategy, StrategyEngine._exit_position.
  rewrite Hs. fold price. fold pnl. fold exit_condition.
  destruct (Qle_bool pnl (- Strategy.max_loss s)) eqn:Hl.
  - apply Qle_bool_iff in Hl. repeat split; tauto.
  - assert (Nl : ~ (pnl <= - Strategy.max_loss s)%Q).
    { rewrite <- Qle_bool_iff. congruence. }
    destruct (Qle_bool (Strategy.max_profit s) pnl) eqn:Hp.
    + apply Qle_bool_iff in Hp. repeat split; tauto.
    + assert (Np : ~ (Strategy.max_profit s <= pnl)%Q).
      { rewrite <- Qle_bool_iff. congruence. }
      destruct exit_condition; repeat split; intros; tauto || congruence.
Qed.

Lemma stop_loss_beats_exit_condition :
  Strategy.state Sample.entered = OPEN
  /\ (Strategy.calculate_pnl Sample.entered 95 <= - Strategy.max_loss Sample.entered)%Q
  /\ ConditionEvaluator.evaluate PyEval.eval Sample.now
       (Strategy.exit_condition Sample.entered) 95 = true
  /\ Strategy.exit_reason
       (StrategyEngine._evaluate_strategy PyEval.eval Sample.now Sample.entered
          (Sample.tick 95)) = Some STOP_LOSS.
Proof.
  split; [reflexivity|].
  assert (H : (Strategy.calculate_pnl Sample.entered 95
               <= - Strategy.max_loss Sample.entered)%Q).
  { apply Qle_bool_imp_le. reflexivity. }
  split; [exact H|]. split; [vm_compute; reflexivity|].
  exact (proj2 (proj2 (proj1
    (risk_checks_come_first PyEval.eval Sample.now Sample.entered (Sample.tick 95)
       eq_refl) H))).
Defined.

(** C10. [get_current_price] gives 0 for an instrument that has no entry
    in the price map; so the force-close of an [OPEN] strategy on such an
    instrument sets [exit_price] to 0 and [pnl] to [(0 - entry_price) *
    quantity]. *)
Theorem force_close_without_price (sim : MarketDataSimulator.t) (instrument : string) :
  MarketDataSimulator.current_prices sim !! instrument = None ->
  MarketDataSimulator.get_current_price sim instrument = 0%Q
  /\ forall now s entry,
     Strategy.instrument s = instrument ->
     Strategy.state s = OPEN ->
     Strategy.entry_price s = Some entry ->
     let s' := StrategyEngine._force_close_strategy sim now s MARKET_CLOSE in
     Strategy.exit_price s' = Some 0%Q
     /\ Strategy.pnl s' = ((0 - entry) * inject_Z (Strategy.quantity s))%Q
     /\ Strategy.state s' = FORCE_CLOSED
     /\ Strategy.exit_reason s' = Some MARKET_CLOSE.
Proof.
  intros H.
  assert (H0 : MarketDataSimulator.get_current_price sim instrument = 0%Q).
  { unfold MarketDataSimulator.get_current_price. now rewrite H. }
  split; [exact H0|]. intros now s entry Hi Hs He s'. subst s'.
  rewrite (force_close_open sim now s MARKET_CLOSE Hs), Hi, H0.
  unfold Strategy.exit, Strategy.calculate_pnl. simpl. rewrite He.
  repeat split; reflexivity.
Qed.

Lemma force_close_unlisted :
  MarketDataSimulator.current_prices MarketDataSimulator.init !! "RELIANCE" = None
  /\ MarketDataSimulator.get_current_price MarketDataSimulator.init "RELIANCE" = 0%Q
  /\ (let s' := StrategyEngine._force_close_strategy MarketDataSimulator.init
                  Sample.now Sample.unlisted MARKET_CLOSE in
      Strategy.exit_price s' = Some 0%Q
      /\ Strategy.pnl s' = (-1000)%Q
      /\ Strategy.state s' = FORCE_CLOSED
      /\ Strategy.exit_reason s' = Some MARKET_CLOSE).
Proof.
  assert (H : MarketDataSimulator.current_prices MarketDataSimulator.init
              !! "RELIANCE" = None) by (vm_compute; reflexivity).
  split; [exact H|].
  split; [exact (proj1 (force_close_without_price _ _ H))|].
  exact (proj2 (force_close_without_price _ _ H) Sample.now Sample.unlisted 100%Q
           eq_refl eq_refl eq_refl).
Defined.

(** C9. A strategy in [CLOSED] or [FORCE_CLOSED] stays as it is: the
    per-tick step and the force-close, alone, in any sequence, or through
    [force_close_all] on the store, leave every field unchanged, so the
    state never returns to [OPEN]. *)
Theorem closed_is_final
    (py_eval : string -> ConditionEvaluator.namespace -> ConditionEvaluator.namespace ->
               ConditionEvaluator.result ConditionEvaluator.value)
    (s : Strategy.t) :
  Strategy.is_closed s = true ->
  (forall now tick, StrategyEngine._evaluate_strategy py_eval now s tick = s)
  /\ (forall sim now reason, StrategyEngine._force_close_strategy sim now s reason = s)
  /\ (forall ops,
        forallb (fun op => negb (StrategyEngine.is_fault op)) ops = true ->
        foldl (StrategyEngine.apply py_eval) s ops = s)
  /\ (forall now e r,
        StrategyEngine.heap e !! r = Some s ->
        StrategyEngine.heap (StrategyEngine.force_close_all now e) !! r = Some s).
Proof.
  intros Hc. apply is_closed_true in Hc.
  assert (Ht : forall now tick, StrategyEngine._evaluate_strategy py_eval now s tick = s).
  { intros. apply evaluate_strategy_settled; destruct Hc; congruence. }
  assert (Hf : forall sim now reason,
             StrategyEngine._force_close_strategy sim now s reason = s).
  { intros. apply force_close_not_open. destruct Hc; congruence. }
  split; [exact Ht|]. split; [exact Hf|]. split.
  - induction ops as [|op ops IH]; intros Hops; [reflexivity|].
    simpl in Hops. apply andb_true_iff in Hops as [Hop Hops]. simpl.
    destruct op as [now tick|sim now|]; simpl in *;
      [rewrite Ht|rewrite Hf|discriminate]; auto.
  - intros now e r Hr. rewrite force_close_all_lookup, Hr.
    destruct (decide (r ∈ StrategyEngine.active_strategies e)); [|reflexivity].
    simpl. now rewrite close_if_open_eq, Hf.
Qed.

Lemma stopped_out_is_final :
  Strategy.is_closed Sample.stopped = true
  /\ foldl (StrategyEngine.apply PyEval.eval) Sample.stopped Sample.late_events
     = Sample.stopped.
Proof.
  split; [reflexivity|].
  exact (proj1 (proj2 (proj2 (closed_is_final PyEval.eval Sample.stopped eq_refl)))
           Sample.late_events eq_refl).
Defined.

(** The invariant of the specification does not survive [mark_failed],
    however "beyond [CREATED]" is read: a record that failed before its
    entry and one that failed after it are both [FAILED], and only one of
    them has an [entry_price]. *)
Lemma spec_invariant_no_reading (beyond : StrategyState -> Prop) :
  ~ (spec_invariant_for beyond (Strategy.mark_failed Sample.fresh)
     /\ spec_invariant_for beyond (Strategy.mark_failed Sample.entered)).
Proof.
  intros [[H1 _] [H2 _]]. simpl in H1, H2.
  assert (H : false = true) by (apply H1, H2; reflexivity). discriminate.
Qed.

(** A strategy that fails before its entry is reached by one operation
    from a configured record that satisfies the invariant of the
    specification, and does not satisfy it: its state has left [CREATED]
    and it has no [entry_price].  Reading "beyond [CREATED]" otherwise
    does not help, since the record that fails after its entry has one. *)
Lemma mark_failed_breaks_spec_invariant :
  (spec_invariant Sample.fresh
   /\ Strategy.mark_failed Sample.fresh
      = StrategyEngine.apply PyEval.eval Sample.fresh StrategyEngine.OnFault
   /\ ~ spec_invariant (Strategy.mark_failed Sample.fresh))
  /\ (Sample.entered
      = StrategyEngine.apply PyEval.eval Sample.fresh
          (StrategyEngine.OnTick Sample.now (Sample.tick 100))
      /\ forall beyond : StrategyState -> Prop,
         ~ (spec_invariant_for beyond (Strategy.mark_failed Sample.fresh)
            /\ spec_invariant_for beyond (Strategy.mark_failed Sample.entered))).
Proof.
  split; [split; [|split; [reflexivity|]]|split; [vm_compute; reflexivity|]].
  - unfold spec_invariant. simpl. repeat split; intros H; try discriminate;
      try (exfalso; now apply H).
  - intros [H _]. simpl in H. destruct H as [_ H].
    assert (E : false = true) by (apply H; discriminate). discriminate.
  - exact spec_invariant_no_reading.
Qed.

(** C4, as the code has it.  Every record reached from a configured
    strategy by ticks, force-closes and [mark_failed] holds the prices of
    its state: none in [CREATED], the entry alone in [OPEN], entry and exit
    in [CLOSED] and [FORCE_CLOSED]; a [FAILED] record holds those of the
    state it failed in.  So outside [FAILED]: [entry_price] is set if and
    only if the state has left [CREATED], and [exit_price] and
    [exit_reason] are set if and only if the state is [CLOSED] or
    [FORCE_CLOSED]. *)
Theorem lifecycle_invariant_reachable
    (py_eval : string -> ConditionEvaluator.namespace -> ConditionEvaluator.namespace ->
               ConditionEvaluator.result ConditionEvaluator.value)
    (c : Strategy.config) (ops : list StrategyEngine.operation) :
  let s := foldl (StrategyEngine.apply py_eval) (Strategy.of_config c) ops in
  lifecycle_invariant s = true
  /\ (Strategy.state s <> FAILED -> spec_invariant s).
Proof.
  intros s.
  assert (H : lifecycle_invariant s = true).
  { subst s. apply lifecycle_invariant_foldl.
    destruct c as [[[[[[? ?] ?] ?] ?] ?] ?]. reflexivity. }
  split; [exact H|]. intros Hf. clear -H Hf.
  unfold lifecycle_invariant, prices_of_created, prices_of_open, prices_of_closed in H.
  unfold spec_invariant, Strategy.is_closed.
  destruct (Strategy.state s); try congruence;
    destruct (Strategy.entry_price s), (Strategy.exit_price s),
      (Strategy.exit_reason s); try discriminate; simpl;
    repeat split; intros; try reflexivity; try discriminate; try congruence.
Qed.

Lemma lifecycle_invariant_in_and_out :
  let s := foldl (StrategyEngine.apply PyEval.eval)
             (Strategy.of_config Sample.fresh_config) Sample.in_and_out in
  Strategy.state s = CLOSED
  /\ Strategy.exit_reason s = Some STOP_LOSS
  /\ lifecycle_invariant s = true
  /\ spec_invariant s.
Proof.
  intros s.
  assert (Hs : Strategy.state s = CLOSED) by (vm_compute; reflexivity).
  split; [exact Hs|]. split; [vm_compute; reflexivity|].
  split.
  - exact (proj1 (lifecycle_invariant_reachable PyEval.eval
                    Sample.fresh_config Sample.in_and_out)).
  - apply (proj2 (lifecycle_invariant_reachable PyEval.eval
                    Sample.fresh_config Sample.in_and_out)).
    fold s. rewrite Hs. discriminate.
Defined.

(** ** Engine *)

(** Why the [strategy_id]s have to be distinct.  Of two strategies with
    equal fields the unit of the second ends first: its [list.remove]
    takes the first strategy out of [active_strategies].  The first then
    enters, and [force_close_all] passes it by. *)
Lemma equal_records_escape_force_close :
  let e := StrategyEngine.exec_all PyEval.eval
             (StrategyEngine.run (Sample.feed 100) [Sample.fresh; Sample.fresh])
             [StrategyEngine.Stop 1 Sample.now;
              StrategyEngine.Tick 0 Sample.now (Sample.tick 100)] in
  map Strategy.state (StrategyEngine.heap e) = [OPEN; CREATED]
  /\ StrategyEngine.active_strategies e = [1%nat]
  /\ StrategyEngine.live_tasks e = [0%nat]
  /\ map Strategy.state
       (StrategyEngine.heap (StrategyEngine.force_close_all Sample.now e))
     = [OPEN; CREATED].
Proof. repeat split; vm_compute; reflexivity. Qed.

(** C3. At any point of a day (a roster of strategies with distinct
    [strategy_id]s handed to [run], then any schedule of unit steps, feed
    moves and force-closes), a strategy that is [OPEN] is taken by
    [force_close_all] to [FORCE_CLOSED] with reason [MARKET_CLOSE], and its
    [exit_price] is what [get_current_price] gives for its instrument at
    that point. *)
Theorem force_close_all_closes_open
    (py_eval : string -> ConditionEvaluator.namespace -> ConditionEvaluator.namespace ->
               ConditionEvaluator.result ConditionEvaluator.value)
    (sim : MarketDataSimulator.t) (roster : list Strategy.t)
    (schedule : list StrategyEngine.event) (now : Py.datetime)
    (r : nat) (s : Strategy.t) :
  distinct_ids roster ->
  let e := StrategyEngine.exec_all py_eval (StrategyEngine.run sim roster) schedule in
  StrategyEngine.heap e !! r = Some s ->
  Strategy.state s = OPEN ->
  let last_price :=
    MarketDataSimulator.get_current_price (StrategyEngine.market_simulator e)
      (Strategy.instrument s) in
  exists s',
    StrategyEngine.heap (StrategyEngine.force_close_all now e) !! r = Some s'
    /\ s' = Strategy.exit now s last_price MARKET_CLOSE
    /\ Strategy.state s' = FORCE_CLOSED
    /\ Strategy.exit_reason s' = Some MARKET_CLOSE
    /\ Strategy.exit_price s' = Some last_price.
Proof.
  intros Hd e Hr Hs last_price.
  assert (Hact : r ∈ StrategyEngine.active_strategies e).
  { apply (open_is_active_of_day py_eval sim roster schedule Hd r s Hr Hs). }
  exists (Strategy.exit now s last_price MARKET_CLOSE).
  split; [|repeat split].
  rewrite force_close_all_lookup, Hr.
  destruct (decide (r ∈ StrategyEngine.active_strategies e)); [|contradiction].
  simpl. f_equal. rewrite close_if_open_eq. now apply force_close_open.
Qed.

Lemma force_close_all_at_close :
  let e := StrategyEngine.exec_all PyEval.eval
             (StrategyEngine.run (Sample.feed 100) [Sample.holder])
             Sample.open_at_close in
  let s := Strategy.enter Sample.now Sample.holder 100 in
  distinct_ids [Sample.holder]
  /\ StrategyEngine.heap e !! 0%nat = Some s
  /\ Strategy.state s = OPEN
  /\ MarketDataSimulator.get_current_price (StrategyEngine.market_simulator e)
       (Strategy.instrument s) = 105%Q
  /\ exists s',
       StrategyEngine.heap (StrategyEngine.force_close_all Sample.now e) !! 0%nat = Some s'
       /\ s' = Strategy.exit Sample.now s
                 (MarketDataSimulator.get_current_price
                    (StrategyEngine.market_simulator e) (Strategy.instrument s))
                 MARKET_CLOSE
       /\ Strategy.state s' = FORCE_CLOSED
       /\ Strategy.exit_reason s' = Some MARKET_CLOSE
       /\ Strategy.exit_price s'
          = Some (MarketDataSimulator.get_current_price
                    (StrategyEngine.market_simulator e) (Strategy.instrument s)).
Proof.
  intros e s.
  assert (Hd : distinct_ids [Sample.holder]) by apply NoDup_singleton.
  assert (H : StrategyEngine.heap e !! 0%nat = Some s) by (vm_compute; reflexivity).
  split; [exact Hd|].
  split; [exact H|]. split; [reflexivity|]. split; [vm_compute; reflexivity|].
  exact (force_close_all_closes_open PyEval.eval (Sample.feed 100) [Sample.holder]
           Sample.open_at_close Sample.now 0%nat s Hd H eq_refl).
Defined.

(** The statistics scenario as the code runs it: the strategy that reaches
    its target and the one that is stopped out are both [CLOSED], so
    [completed] is 2, not 1. *)
Lemma statistics_scenario_completed_two :
  let e := StrategyEngine.exec_all PyEval.eval
             (StrategyEngine.run (Sample.feed 100)
                [Sample.idle; Sample.winner; Sample.loser])
             Sample.day_with_target in
  let st := StrategyEngine.get_statistics e in
  map Strategy.state (StrategyEngine.heap e) = [CREATED; CLOSED; CLOSED]
  /\ map Strategy.exit_reason (StrategyEngine.heap e)
     = [None; Some TARGET_HIT; Some STOP_LOSS]
  /\ map Strategy.pnl (StrategyEngine.heap e) = [0%Q; 50%Q; (-20)%Q]
  /\ StrategyEngine.never_entered st = 1%nat
  /\ StrategyEngine.failed st = 0%nat
  /\ StrategyEngine.completed st = 2%nat
  /\ StrategyEngine.completed st <> 1%nat.
Proof.
  intros e st.
  assert (H : StrategyEngine.completed st = 2%nat) by (vm_compute; reflexivity).
  repeat split; try (vm_compute; reflexivity).
  rewrite H. discriminate.
Qed.

Lemma number_in_partition (roster : list Strategy.t) :
  List.length roster
  = (number_in CLOSED roster + number_in FORCE_CLOSED roster
     + number_in FAILED roster + number_in CREATED roster
     + number_in OPEN roster)%nat.
Proof.
  unfold number_in. induction roster as [|s l IH]; [reflexivity|].
  simpl. destruct (Strategy.state s); simpl; lia.
Qed.

(** C7, as the code has it.  For the roster of a day, [get_statistics]
    gives [total] = the number of strategies, [completed], [force_closed],
    [failed] and [never_entered] = the numbers of strategies in [CLOSED],
    [FORCE_CLOSED], [FAILED] and [CREATED], and [total_pnl] = the sum of
    the realized profits.  With one strategy that never enters, one that
    closes on its target and one that is stopped out: [never_entered] = 1,
    [failed] = 0, [completed] = 2 and [total_pnl] = the sum of the two
    realized profits; when the profitable one is closed at market close
    instead, [completed] = 1 and [force_closed] = 1. *)
Theorem get_statistics_of_day
    (py_eval : string -> ConditionEvaluator.namespace -> ConditionEvaluator.namespace ->
               ConditionEvaluator.result ConditionEvaluator.value)
    (sim : MarketDataSimulator.t) (configs : list Strategy.config)
    (schedule : list StrategyEngine.event) :
  let e := StrategyEngine.exec_all py_eval
             (StrategyEngine.run sim (map Strategy.of_config configs)) schedule in
  let st := StrategyEngine.get_statistics e in
  let final := StrategyEngine.heap e in
  (StrategyEngine.total st = List.length configs
   /\ List.length final = List.length configs
   /\ StrategyEngine.completed st = number_in CLOSED final
   /\ StrategyEngine.force_closed st = number_in FORCE_CLOSED final
   /\ StrategyEngine.failed st = number_in FAILED final
   /\ StrategyEngine.never_entered st = number_in CREATED final
   /\ (StrategyEngine.total_pnl st == sum_of (map realized_pnl final))%Q
   /\ StrategyEngine.total st
      = (StrategyEngine.completed st + StrategyEngine.force_closed st
         + StrategyEngine.failed st + StrategyEngine.never_entered st
         + number_in OPEN final)%nat)
  /\ (let target_day :=
        StrategyEngine.exec_all PyEval.eval
          (StrategyEngine.run (Sample.feed 100) (map Strategy.of_config Sample.configs))
          Sample.day_with_target in
      let st := StrategyEngine.get_statistics target_day in
      map Strategy.exit_reason (StrategyEngine.heap target_day)
      = [None; Some TARGET_HIT; Some STOP_LOSS]
      /\ StrategyEngine.never_entered st = 1%nat
      /\ StrategyEngine.failed st = 0%nat
      /\ StrategyEngine.completed st = 2%nat
      /\ StrategyEngine.force_closed st = 0%nat
      /\ (StrategyEngine.total_pnl st == 50 + -20)%Q)
  /\ (let close_day :=
        StrategyEngine.exec_all PyEval.eval
          (StrategyEngine.run (Sample.feed 100)
             (map Strategy.of_config Sample.configs_with_holder))
          Sample.day_with_force_close in
      let st := StrategyEngine.get_statistics close_day in
      map Strategy.exit_reason (StrategyEngine.heap close_day)
      = [None; Some MARKET_CLOSE; Some STOP_LOSS]
      /\ StrategyEngine.never_entered st = 1%nat
      /\ StrategyEngine.failed st = 0%nat
      /\ StrategyEngine.completed st = 1%nat
      /\ StrategyEngine.force_closed st = 1%nat
      /\ (StrategyEngine.total_pnl st == 50 + -20)%Q).
Proof.
  intros e st final.
  split; [|split; repeat split; vm_compute; reflexivity].
  destruct (roster_of_day py_eval sim (map Strategy.of_config configs) schedule)
    as [Hd Hl].
  fold e in Hd, Hl. fold final in Hl. rewrite length_map in Hl.
  assert (Hs : StrategyEngine.strategies e
               = seq 0 (List.length configs)).
  { destruct (exec_all_keeps py_eval (fun _ => True)
                (StrategyEngine.run sim (map Strategy.of_config configs)) schedule)
      as (_ & _ & H3); [auto|apply Forall_forall; auto|].
    fold e in H3. rewrite H3. simpl. now rewrite length_map. }
  assert (Hr : Forall (pnl_is_realized) final).
  { destruct (exec_all_keeps py_eval pnl_is_realized
                (StrategyEngine.run sim (map Strategy.of_config configs)) schedule)
      as (H1 & _ & _); [apply pnl_is_realized_apply| |exact H1].
    simpl. apply Forall_fmap, Forall_forall. intros c _.
    destruct c as [[[[[[? ?] ?] ?] ?] ?] ?]. apply pnl_is_realized_new. }
  assert (Ht : StrategyEngine.total st = List.length configs).
  { subst st. unfold StrategyEngine.get_statistics. simpl. rewrite Hs.
    apply length_seq. }
  assert (Hc : forall state,
             StrategyEngine.count (fun s => bool_decide (Strategy.state s = state))
               (StrategyEngine.deref (StrategyEngine.heap e) (StrategyEngine.strategies e))
             = number_in state final).
  { intros state. rewrite Hd. apply count_number_in. }
  split; [exact Ht|]. split; [exact Hl|].
  split; [apply Hc|]. split; [apply Hc|]. split; [apply Hc|]. split; [apply Hc|].
  split.
  - subst st. unfold StrategyEngine.get_statistics. simpl. rewrite Hd.
    rewrite py_sum_float_sum_of. fold final.
    replace (map Strategy.pnl final) with (map realized_pnl final); [reflexivity|].
    clear -Hr. induction Hr as [|s l [_ Hs] _ IH]; [reflexivity|].
    simpl. now rewrite Hs, IH.
  - rewrite Ht, <- Hl. subst st. unfold StrategyEngine.get_statistics. simpl.
    rewrite !Hc. apply number_in_partition.
Qed.

(** ** Market feed *)

(** A round only walks the instruments that have an entry in the
    subscriber registry: with one subscriber, on NIFTY, the price of
    BANKNIFTY stays at 45000 while every draw of the generator would have
    moved it to 45045. *)
Lemma spec_round_fails_without_subscriber :
  ~ spec_round Sample.volatility Sample.steady Sample.now 0 Sample.one_subscriber.
Proof.
  unfold spec_round, MarketDataSimulator._generate_and_broadcast_ticks.
  rewrite generate_over_completes.
  - cbv beta iota. intros H.
    destruct (H "BANKNIFTY" 45000%Q) as (n & new & _ & Hp & Hq & _);
      [vm_compute; reflexivity|].
    rewrite after_prices_other in Hp.
    + assert (E : new = 45000%Q) by (vm_compute in Hp; congruence).
      subst new. vm_compute in Hq. discriminate.
    + vm_compute. intros H1. apply list_elem_of_singleton in H1. discriminate.
  - intros i Hi. vm_compute in Hi. apply list_elem_of_singleton in Hi. subst i.
    vm_compute. eauto.
Qed.

(** C5, as the code has it.  A round walks the instruments of the
    subscriber registry in its order.  When each of them has a price, the
    round makes one draw [u = uniform(-v, v)] per instrument, which is
    [-v + (v - -v) * random()] in floats and lies in [-v, v] for a
    volatility fraction [v] and [random()] in [0, 1); it replaces the price
    by [round(old * (1 + u), 2)] in floats, and offers a tick with the new
    price to every queue subscribed to the instrument: a queue with room
    gets it at its end, a full queue is left as it is.  Instruments without
    an entry in the registry keep their price. *)
Theorem round_moves_subscribed_instruments
    (v : Q) (random : nat -> Q) (now : Py.datetime) (k : nat)
    (sim : MarketDataSimulator.t) :
  MarketDataSimulator.registry_wf (MarketDataSimulator.subscribers sim) ->
  (forall i, i ∈ MarketDataSimulator.keys sim ->
             is_Some (MarketDataSimulator.current_prices sim !! i)) ->
  (forall i old, i ∈ MarketDataSimulator.keys sim ->
                 MarketDataSimulator.current_prices sim !! i = Some old ->
                 (Qabs old <= max_float / 2)%Q) ->
  (0 <= v <= 1)%Q ->
  (binary64 v == v)%Q ->
  (forall n, (0 <= random n < 1)%Q) ->
  let '(sim', k', err) :=
    MarketDataSimulator._generate_and_broadcast_ticks v random now k sim in
  err = None
  /\ k' = (k + List.length (MarketDataSimulator.subscribers sim))%nat
  /\ MarketDataSimulator.subscribers sim' = MarketDataSimulator.subscribers sim
  /\ (forall i, i ∉ MarketDataSimulator.keys sim ->
        MarketDataSimulator.current_prices sim' !! i
        = MarketDataSimulator.current_prices sim !! i)
  /\ (forall j i qs,
        MarketDataSimulator.subscribers sim !! j = Some (i, qs) ->
        exists old,
          MarketDataSimulator.current_prices sim !! i = Some old
          /\ let u := MarketDataSimulator.uniform random (- v) v (k + j)%nat in
             let new := round2 (float_mul (to_float old) (float_add 1 u)) in
             (- v <= u <= v)%Q
             /\ MarketDataSimulator.current_prices sim' !! i = Some new
             /\ forall q, q ∈ qs ->
                MarketDataSimulator.queues sim' !! q
                = MarketDataSimulator.deliver (Some (MarketTick.mk i new now))
                  <$> MarketDataSimulator.queues sim !! q).
Proof.
  intros Hwf Hp _ Hv Hf Hr. unfold MarketDataSimulator._generate_and_broadcast_ticks.
  rewrite (generate_over_completes v random now _ k sim Hp).
  split; [reflexivity|].
  split; [unfold MarketDataSimulator.keys; now rewrite length_map|].
  split; [apply after_subscribers|].
  split; [intros i Hi; now apply after_prices_other|].
  intros j i qs Hj.
  assert (Hk : MarketDataSimulator.keys sim !! j = Some i).
  { unfold MarketDataSimulator.keys. rewrite list_lookup_fmap, Hj. reflexivity. }
  destruct (Hp i) as [old Hold]; [now apply list_elem_of_lookup_2 in Hk|].
  exists old. split; [exact Hold|]. cbv zeta. split.
  { destruct (Hr (k + j)%nat) as [R0 R1].
    apply (uniform_range v (random (k + j)%nat)); [apply Hv|exact Hf|exact R0|].
    now apply Qlt_le_weak. }
  destruct (after_at v random now (MarketDataSimulator.keys sim) k sim j i old
              (proj1 Hwf) Hp Hwf Hk Hold) as [H1 H2].
  split; [exact H1|]. intros q Hq. apply H2.
  unfold MarketDataSimulator.targets.
  rewrite (lookup_subscribers_at j i qs _ (proj1 Hwf) Hj). exact Hq.
Qed.

Lemma round_with_one_subscriber :
  MarketDataSimulator.registry_wf (MarketDataSimulator.subscribers Sample.one_subscriber)
  /\ (binary64 Sample.volatility == Sample.volatility)%Q
  /\ exists sim',
       MarketDataSimulator._generate_and_broadcast_ticks Sample.volatility Sample.steady
         Sample.now 0 Sample.one_subscriber = (sim', 1%nat, None)
       /\ MarketDataSimulator.uniform Sample.steady (- Sample.volatility)
            Sample.volatility 0 = binary64 (1 # 1000)
       /\ MarketDataSimulator.current_prices sim' !! "NIFTY"
          = Some (binary64 (201201 # 10))
       /\ MarketDataSimulator.queues sim' !! 1%nat
          = Some [Some (MarketTick.mk "NIFTY" (binary64 (201201 # 10)) Sample.now)]
       /\ MarketDataSimulator.current_prices sim' !! "BANKNIFTY" = Some 45000%Q.
Proof.
  assert (Hwf : MarketDataSimulator.registry_wf
                  (MarketDataSimulator.subscribers Sample.one_subscriber)).
  { split; simpl; repeat constructor; intros H; inversion H. }
  assert (Hp : forall i, i ∈ MarketDataSimulator.keys Sample.one_subscriber ->
               is_Some (MarketDataSimulator.current_prices Sample.one_subscriber !! i)).
  { intros i Hi. apply list_elem_of_singleton in Hi. subst i. vm_compute. eauto. }
  assert (Hm : forall i old, i ∈ MarketDataSimulator.keys Sample.one_subscriber ->
               MarketDataSimulator.current_prices Sample.one_subscriber !! i = Some old ->
               (Qabs old <= max_float / 2)%Q).
  { intros i old Hi. apply list_elem_of_singleton in Hi. subst i.
    intros Ho. assert (E : old = 20100%Q) by (vm_compute in Ho; congruence).
    subst old. vm_compute. discriminate. }
  assert (Hv : (0 <= Sample.volatility <= 1)%Q) by (split; vm_compute; discriminate).
  assert (Hf : (binary64 Sample.volatility == Sample.volatility)%Q)
    by (vm_compute; reflexivity).
  assert (Hr : forall n, (0 <= Sample.steady n < 1)%Q).
  { intros n. split; vm_compute; [discriminate|reflexivity]. }
  split; [exact Hwf|]. split; [exact Hf|].
  pose proof (round_moves_subscribed_instruments Sample.volatility Sample.steady
                Sample.now 0 Sample.one_subscriber Hwf Hp Hm Hv Hf Hr) as H.
  destruct (MarketDataSimulator._generate_and_broadcast_ticks Sample.volatility
              Sample.steady Sample.now 0 Sample.one_subscriber) as [[sim' k'] err].
  destruct H as (-> & -> & _ & Ho & Hat).
  exists sim'. split; [reflexivity|]. split; [vm_compute; reflexivity|].
  destruct (Hat 0%nat "NIFTY" [1%nat] eq_refl) as (old & Hold & _ & Hnew & Hq).
  assert (E : old = 20100%Q) by (vm_compute in Hold; congruence). subst old.
  assert (En : round2 (float_mul (to_float 20100)
                 (float_add 1 (MarketDataSimulator.uniform Sample.steady
                                 (- Sample.volatility) Sample.volatility (0 + 0))))
               = binary64 (201201 # 10)) by (vm_compute; reflexivity).
  cbv zeta in Hnew, Hq. rewrite En in Hnew, Hq.
  split; [exact Hnew|].
  split.
  - refine (eq_trans (Hq 1%nat _) _); [left|reflexivity].
  - rewrite Ho; [reflexivity|]. intros Hin.
    apply list_elem_of_singleton in Hin. discriminate.
Defined.

(** * Further properties of the code *)

(** ** Strategy records under the operations of the engine *)

Section LifecycleMore.

Variable py_eval :
  string -> ConditionEvaluator.namespace -> ConditionEvaluator.namespace ->
  ConditionEvaluator.result ConditionEvaluator.value.

Lemma foldl_apply_ind (P : Strategy.t -> Prop) (ops : list StrategyEngine.operation)
    (s : Strategy.t) :
  P s -> (forall s op, P s -> P (StrategyEngine.apply py_eval s op)) ->
  P (foldl (StrategyEngine.apply py_eval) s ops).
Proof.
  intros Hs Hstep. revert s Hs.
  induction ops as [|op ops IH]; intros s Hs; [exact Hs|].
  simpl. apply IH. now apply Hstep.
Qed.

Lemma apply_config_of (s : Strategy.t) (op : StrategyEngine.operation) :
  config_of (StrategyEngine.apply py_eval s op) = config_of s.
Proof.
  destruct op as [now tick|sim now|]; simpl; [| |reflexivity].
  - unfold StrategyEngine._evaluate_strategy, StrategyEngine._enter_position,
      StrategyEngine._exit_position.
    destruct (Strategy.state s);
      repeat match goal with
             | |- context [if ?b then _ else _] => destruct b
             end; reflexivity.
  - unfold StrategyEngine._force_close_strategy, StrategyEngine._exit_position.
    destruct (Strategy.is_open s); reflexivity.
Qed.

Lemma config_of_new (c : Strategy.config) : config_of (Strategy.of_config c) = c.
Proof. destruct c as [[[[[[? ?] ?] ?] ?] ?] ?]. reflexivity. Qed.

(** One operation on a record that has its entry leaves the entry alone. *)
Lemma apply_keeps_entry (s : Strategy.t) (op : StrategyEngine.operation) :
  lifecycle_invariant s = true ->
  is_set (Strategy.entry_price s) = true ->
  Strategy.entry_price (StrategyEngine.apply py_eval s op) = Strategy.entry_price s
  /\ Strategy.entry_time (StrategyEngine.apply py_eval s op) = Strategy.entry_time s.
Proof.
  intros Hi He.
  assert (Hc : Strategy.state s <> CREATED).
  { intros E. unfold lifecycle_invariant, prices_of_created in Hi. rewrite E in Hi.
    rewrite He in Hi. discriminate. }
  destruct op as [now tick|sim now|]; simpl; [| |split; reflexivity].
  - unfold StrategyEngine._evaluate_strategy, StrategyEngine._exit_position.
    destruct (Strategy.state s); try contradiction;
      repeat match goal with
             | |- context [if ?b then _ else _] => destruct b
             end; split; reflexivity.
  - unfold StrategyEngine._force_close_strategy, StrategyEngine._exit_position.
    destruct (Strategy.is_open s); split; reflexivity.
Qed.

(** One operation on a record that has its exit changes its state at most. *)
Lemma apply_keeps_exit (s : Strategy.t) (op : StrategyEngine.operation) :
  lifecycle_invariant s = true ->
  is_set (Strategy.exit_price s) = true ->
  let s' := StrategyEngine.apply py_eval s op in
  Strategy.exit_price s' = Strategy.exit_price s
  /\ Strategy.exit_reason s' = Strategy.exit_reason s
  /\ Strategy.exit_time s' = Strategy.exit_time s
  /\ Strategy.pnl s' = Strategy.pnl s.
Proof.
  intros Hi He s'. subst s'.
  assert (Hc : Strategy.state s <> CREATED /\ Strategy.state s <> OPEN).
  { unfold lifecycle_invariant, prices_of_created, prices_of_open in Hi.
    split; intros E; rewrite E in Hi; rewrite He in Hi;
      rewrite ?andb_false_r in Hi; discriminate. }
  destruct Hc as [Hc Ho].
  destruct op as [now tick|sim now|]; simpl; [| |repeat split; reflexivity].
  - rewrite evaluate_strategy_settled by assumption. repeat split; reflexivity.
  - rewrite force_close_not_open by assumption. repeat split; reflexivity.
Qed.

Lemma reason_of_state_apply (s : Strategy.t) (op : StrategyEngine.operation) :
  reason_of_state s = true -> reason_of_state (StrategyEngine.apply py_eval s op) = true.
Proof.
  unfold reason_of_state. intros H.
  destruct op as [now tick|sim now|]; simpl.
  - unfold StrategyEngine._evaluate_strategy, StrategyEngine._enter_position,
      StrategyEngine._exit_position.
    destruct (Strategy.state s) eqn:E; try (rewrite E; exact H).
    + destruct (ConditionEvaluator.evaluate _ _ _ _); [|rewrite E; exact H].
      simpl. destruct (Strategy.exit_reason s); [discriminate|reflexivity].
    + destruct (Qle_bool _ (- Strategy.max_loss s)); [reflexivity|].
      destruct (Qle_bool (Strategy.max_profit s) _); [reflexivity|].
      destruct (ConditionEvaluator.evaluate _ _ _ _); [reflexivity|].
      rewrite E. exact H.
  - unfold StrategyEngine._force_close_strategy, StrategyEngine._exit_position.
    destruct (Strategy.is_open s); [reflexivity|exact H].
  - destruct (Strategy.state s), (Strategy.exit_reason s) as [[]|];
      try discriminate; reflexivity.
Qed.

Lemma reason_fits_pnl_apply (s : Strategy.t) (op : StrategyEngine.operation) :
  reason_fits_pnl s -> reason_fits_pnl (StrategyEngine.apply py_eval s op).
Proof.
  intros H. destruct op as [now tick|sim now|]; simpl; [| |exact H].
  - unfold StrategyEngine._evaluate_strategy, StrategyEngine._enter_position,
      StrategyEngine._exit_position.
    destruct (Strategy.state s); try exact H.
    + destruct (ConditionEvaluator.evaluate _ _ _ _); exact H.
    + destruct (Qle_bool _ (- Strategy.max_loss s)) eqn:Hl.
      * apply Qle_bool_iff in Hl. exact Hl.
      * assert (Nl : ~ (Strategy.calculate_pnl s (MarketTick.price tick)
                        <= - Strategy.max_loss s)%Q).
        { rewrite <- Qle_bool_iff. congruence. }
        destruct (Qle_bool (Strategy.max_profit s) _) eqn:Hp.
        -- apply Qle_bool_iff in Hp. split; assumption.
        -- assert (Np : ~ (Strategy.max_profit s
                           <= Strategy.calculate_pnl s (MarketTick.price tick))%Q).
           { rewrite <- Qle_bool_iff. congruence. }
           destruct (ConditionEvaluator.evaluate _ _ _ _); [split; assumption|exact H].
  - unfold StrategyEngine._force_close_strategy, StrategyEngine._exit_position.
    destruct (Strategy.is_open s); [exact I|exact H].
Qed.

End LifecycleMore.

(** A strategy keeps its configuration for life, is entered at most once
    and exited at most once: whatever the engine does after an entry
    leaves [entry_price] and [entry_time] as they are, and whatever it
    does after an exit leaves [exit_price], [exit_reason], [exit_time]
    and [pnl] as they are. *)
Theorem entry_and_exit_are_final
    (py_eval : string -> ConditionEvaluator.namespace -> ConditionEvaluator.namespace ->
               ConditionEvaluator.result ConditionEvaluator.value)
    (c : Strategy.config) (earlier later : list StrategyEngine.operation) :
  let s1 := foldl (StrategyEngine.apply py_eval) (Strategy.of_config c) earlier in
  let s2 := foldl (StrategyEngine.apply py_eval) s1 later in
  config_of s2 = c
  /\ (is_set (Strategy.entry_price s1) = true ->
      Strategy.entry_price s2 = Strategy.entry_price s1
      /\ Strategy.entry_time s2 = Strategy.entry_time s1)
  /\ (is_set (Strategy.exit_price s1) = true ->
      Strategy.exit_price s2 = Strategy.exit_price s1
      /\ Strategy.exit_reason s2 = Strategy.exit_reason s1
      /\ Strategy.exit_time s2 = Strategy.exit_time s1
      /\ Strategy.pnl s2 = Strategy.pnl s1).
Proof.
  intros s1 s2.
  assert (H1 : lifecycle_invariant s1 = true).
  { apply lifecycle_invariant_foldl. destruct c as [[[[[[? ?] ?] ?] ?] ?] ?].
    reflexivity. }
  split; [|split].
  - subst s2 s1. rewrite <- foldl_app.
    apply (foldl_apply_ind py_eval (fun s => config_of s = c));
      [apply config_of_new|]. intros s op <-. apply apply_config_of.
  - intros He. subst s2.
    apply (foldl_apply_ind py_eval
             (fun s => lifecycle_invariant s = true
                       /\ Strategy.entry_price s = Strategy.entry_price s1
                       /\ Strategy.entry_time s = Strategy.entry_time s1)).
    + auto.
    + intros s op (Hi & Hp & Ht). split; [now apply lifecycle_invariant_apply|].
      rewrite <- Hp, <- Ht. apply apply_keeps_entry; [exact Hi|]. now rewrite Hp.
  - intros He. subst s2.
    apply (foldl_apply_ind py_eval
             (fun s => lifecycle_invariant s = true
                       /\ Strategy.exit_price s = Strategy.exit_price s1
                       /\ Strategy.exit_reason s = Strategy.exit_reason s1
                       /\ Strategy.exit_time s = Strategy.exit_time s1
                       /\ Strategy.pnl s = Strategy.pnl s1)).
    + auto.
    + intros s op (Hi & Hp & Hr & Ht & Hn).
      split; [now apply lifecycle_invariant_apply|].
      rewrite <- Hp, <- Hr, <- Ht, <- Hn. apply apply_keeps_exit; [exact Hi|].
      now rewrite Hp.
Qed.

Lemma entry_and_exit_in_and_out :
  let s1 := foldl (StrategyEngine.apply PyEval.eval)
              (Strategy.of_config Sample.fresh_config) Sample.in_and_out in
  let s2 := foldl (StrategyEngine.apply PyEval.eval) s1 Sample.late_events in
  config_of s2 = Sample.fresh_config
  /\ Strategy.entry_price s1 = Some 100%Q
  /\ Strategy.exit_price s1 = Some 95%Q
  /\ (Strategy.entry_price s2 = Strategy.entry_price s1
      /\ Strategy.entry_time s2 = Strategy.entry_time s1)
  /\ (Strategy.exit_price s2 = Strategy.exit_price s1
      /\ Strategy.exit_reason s2 = Strategy.exit_reason s1
      /\ Strategy.exit_time s2 = Strategy.exit_time s1
      /\ Strategy.pnl s2 = Strategy.pnl s1).
Proof.
  intros s1 s2.
  destruct (entry_and_exit_are_final PyEval.eval Sample.fresh_config
              Sample.in_and_out Sample.late_events) as (Hc & He & Hx).
  split; [exact Hc|]. split; [vm_compute; reflexivity|].
  split; [vm_compute; reflexivity|].
  split; [apply He|apply Hx]; vm_compute; reflexivity.
Defined.

(** Whatever happens to a strategy, its [exit_reason] goes with its state:
    none in [CREATED] and [OPEN]; [STOP_LOSS], [TARGET_HIT] or
    [EXIT_CONDITION] in [CLOSED]; [MARKET_CLOSE] in [FORCE_CLOSED]; one of
    these in [FAILED].  [TIME_EXIT] and [ERROR] are never recorded. *)
Theorem exit_reason_goes_with_state
    (py_eval : string -> ConditionEvaluator.namespace -> ConditionEvaluator.namespace ->
               ConditionEvaluator.result ConditionEvaluator.value)
    (c : Strategy.config) (ops : list StrategyEngine.operation) :
  let s := foldl (StrategyEngine.apply py_eval) (Strategy.of_config c) ops in
  reason_of_state s = true
  /\ Strategy.exit_reason s <> Some TIME_EXIT
  /\ Strategy.exit_reason s <> Some ERROR.
Proof.
  intros s.
  assert (H : reason_of_state s = true).
  { apply (foldl_apply_ind py_eval (fun s => reason_of_state s = true)).
    - destruct c as [[[[[[? ?] ?] ?] ?] ?] ?]. reflexivity.
    - intros s0 op. apply reason_of_state_apply. }
  split; [exact H|]. unfold reason_of_state in H.
  split; intros E; rewrite E in H; destruct (Strategy.state s); discriminate.
Qed.

(** The recorded [pnl] agrees with the recorded reason: a [STOP_LOSS] exit
    has [pnl <= -max_loss], a [TARGET_HIT] exit has [pnl >= max_profit]
    above the stop, and an [EXIT_CONDITION] exit lies strictly between the
    two limits. *)
Theorem exit_reason_goes_with_pnl
    (py_eval : string -> ConditionEvaluator.namespace -> ConditionEvaluator.namespace ->
               ConditionEvaluator.result ConditionEvaluator.value)
    (c : Strategy.config) (ops : list StrategyEngine.operation) :
  reason_fits_pnl (foldl (StrategyEngine.apply py_eval) (Strategy.of_config c) ops).
Proof.
  apply (foldl_apply_ind py_eval reason_fits_pnl).
  - destruct c as [[[[[[? ?] ?] ?] ?] ?] ?]. exact I.
  - intros s op. apply reason_fits_pnl_apply.
Qed.

(** A strategy that a tick leaves [OPEN] is inside its risk limits at the
    price of that tick, its exit condition is false there, and the tick
    has changed nothing. *)
Theorem open_after_tick_is_within_limits
    (py_eval : string -> ConditionEvaluator.namespace -> ConditionEvaluator.namespace ->
               ConditionEvaluator.result ConditionEvaluator.value)
    (now : Py.datetime) (s : Strategy.t) (tick : MarketTick.t) :
  Strategy.state s = OPEN ->
  Strategy.state (StrategyEngine._evaluate_strategy py_eval now s tick) = OPEN ->
  let pnl := Strategy.calculate_pnl s (MarketTick.price tick) in
  ~ (pnl <= - Strategy.max_loss s)%Q
  /\ ~ (Strategy.max_profit s <= pnl)%Q
  /\ ConditionEvaluator.evaluate py_eval now (Strategy.exit_condition s)
       (MarketTick.price tick) = false
  /\ StrategyEngine._evaluate_strategy py_eval now s tick = s.
Proof.
  intros Hs. unfold StrategyEngine._evaluate_strategy, StrategyEngine._exit_position.
  rewrite Hs. cbv zeta.
  destruct (Qle_bool _ (- Strategy.max_loss s)) eqn:Hl; [discriminate|].
  destruct (Qle_bool (Strategy.max_profit s) _) eqn:Hp; [discriminate|].
  destruct (ConditionEvaluator.evaluate _ _ _ _); [discriminate|].
  intros _. rewrite <- !Qle_bool_iff, Hl, Hp. repeat split; discriminate.
Qed.

Lemma open_after_quiet_tick :
  Strategy.state Sample.entered = OPEN
  /\ StrategyEngine._evaluate_strategy PyEval.eval Sample.now Sample.entered
       (Sample.tick 101) = Sample.entered
  /\ ~ (Strategy.calculate_pnl Sample.entered 101 <= - Strategy.max_loss Sample.entered)%Q
  /\ ~ (Strategy.max_profit Sample.entered <= Strategy.calculate_pnl Sample.entered 101)%Q.
Proof.
  destruct (open_after_tick_is_within_limits PyEval.eval Sample.now Sample.entered
              (Sample.tick 101) eq_refl) as (H1 & H2 & _ & H4).
  - vm_compute. reflexivity.
  - split; [reflexivity|]. split; [exact H4|]. split; [exact H1|exact H2].
Defined.

(** Every operation of the engine moves a strategy along an arrow of the
    life cycle: [CREATED] to [OPEN]; [OPEN] to [CLOSED] or [FORCE_CLOSED];
    any state to [FAILED]; or it leaves the state as it is.  No strategy
    closes without having been open, and none leaves [FAILED]. *)
Theorem operations_follow_lifecycle
    (py_eval : string -> ConditionEvaluator.namespace -> ConditionEvaluator.namespace ->
               ConditionEvaluator.result ConditionEvaluator.value)
    (s : Strategy.t) (op : StrategyEngine.operation) :
  lifecycle_step (Strategy.state s)
    (Strategy.state (StrategyEngine.apply py_eval s op)) = true.
Proof.
  destruct op as [now tick|sim now|]; simpl.
  - unfold StrategyEngine._evaluate_strategy, StrategyEngine._enter_position,
      StrategyEngine._exit_position.
    destruct (Strategy.state s) eqn:E; try (rewrite E; reflexivity).
    + destruct (ConditionEvaluator.evaluate _ _ _ _); [reflexivity|].
      rewrite E. reflexivity.
    + destruct (Qle_bool _ (- Strategy.max_loss s)); [reflexivity|].
      destruct (Qle_bool (Strategy.max_profit s) _); [reflexivity|].
      destruct (ConditionEvaluator.evaluate _ _ _ _); [reflexivity|].
      rewrite E. reflexivity.
  - unfold StrategyEngine._force_close_strategy, StrategyEngine._exit_position.
    destruct (Strategy.is_open s) eqn:E.
    + apply is_open_true in E. rewrite E. reflexivity.
    + destruct (Strategy.state s); reflexivity.
  - destruct (Strategy.state s); reflexivity.
Qed.

(** ** Conditions the filter rejects *)

(** Whatever [eval] would do with it, a condition that holds a character
    outside the alphabet of the allow-list is rejected by the filter and
    [evaluate] answers [False]. *)
Theorem evaluate_rejects_foreign_character
    (py_eval : string -> ConditionEvaluator.namespace -> ConditionEvaluator.namespace ->
               ConditionEvaluator.result ConditionEvaluator.value)
    (now : Py.datetime) (condition : string) (price : Q) (c : ascii) :
  ConditionEvaluator.allowed_char c = false ->
  Py.elem c condition = true ->
  ConditionEvaluator._is_safe_expression (ConditionEvaluator.prepared condition) = false
  /\ ConditionEvaluator.evaluate py_eval now condition price = false.
Proof.
  intros Hc Hs. split.
  - exact (unsafe_of_foreign_character c condition Hc Hs).
  - exact (evaluate_foreign_character py_eval now condition price c Hc Hs).
Qed.

Lemma evaluate_rejects_unknown_name :
  ConditionEvaluator.allowed_char "l" = false
  /\ Py.elem "l" "price > limit" = true
  /\ ConditionEvaluator._is_safe_expression
       (ConditionEvaluator.prepared "price > limit") = false
  /\ ConditionEvaluator.evaluate PyEval.eval Sample.now "price > limit" 20100 = false.
Proof.
  split; [reflexivity|]. split; [reflexivity|].
  exact (evaluate_rejects_foreign_character PyEval.eval Sample.now "price > limit"
           20100 "l" eq_refl eq_refl).
Defined.

(** A strategy whose entry condition the filter rejects never enters: no
    tick and no force-close changes it. *)
Theorem rejected_entry_condition_never_enters
    (py_eval : string -> ConditionEvaluator.namespace -> ConditionEvaluator.namespace ->
               ConditionEvaluator.result ConditionEvaluator.value)
    (s : Strategy.t) (c : ascii) (ops : list StrategyEngine.operation) :
  Strategy.state s = CREATED ->
  ConditionEvaluator.allowed_char c = false ->
  Py.elem c (Strategy.entry_condition s) = true ->
  forallb (fun op => negb (StrategyEngine.is_fault op)) ops = true ->
  foldl (StrategyEngine.apply py_eval) s ops = s.
Proof.
  intros Hs Hc He. induction ops as [|op ops IH]; intros Hops; [reflexivity|].
  simpl in Hops. apply andb_true_iff in Hops as [Hop Hops]. simpl.
  assert (H : StrategyEngine.apply py_eval s op = s).
  { destruct op as [now tick|sim now|]; simpl in *; [| |discriminate].
    - unfold StrategyEngine._evaluate_strategy. rewrite Hs.
      now rewrite (evaluate_foreign_character py_eval now _ _ c Hc He).
    - apply force_close_not_open. congruence. }
  rewrite H. now apply IH.
Qed.

Lemma misconfigured_never_enters :
  Strategy.state Sample.misconfigured = CREATED
  /\ foldl (StrategyEngine.apply PyEval.eval) Sample.misconfigured Sample.busy_day
     = Sample.misconfigured.
Proof.
  split; [reflexivity|].
  exact (rejected_entry_condition_never_enters PyEval.eval Sample.misconfigured "l"
           Sample.busy_day eq_refl eq_refl eq_refl eq_refl).
Defined.

(** ** One unit, and the engine's store *)

Section UnitMore.

Variable py_eval :
  string -> ConditionEvaluator.namespace -> ConditionEvaluator.namespace ->
  ConditionEvaluator.result ConditionEvaluator.value.

Lemma consume_closed (s : Strategy.t)
    (delivered : list (Py.datetime * option MarketTick.t)) :
  Strategy.is_closed s = true -> StrategyEngine.consume py_eval s delivered = s.
Proof.
  intros Hc. destruct delivered as [|[now [tick|]] rest]; simpl; try reflexivity.
  rewrite evaluate_strategy_settled; [now rewrite Hc| |];
    apply is_closed_true in Hc; destruct Hc; congruence.
Qed.


(** Winners and losers among records that hold their realized profit. *)
Lemma winners_losers_le (roster : list Strategy.t) :
  Forall pnl_is_realized roster ->
  (List.length (List.filter (fun s => negb (Qeq_bool (Strategy.pnl s) 0)
                                      && negb (Qle_bool (Strategy.pnl s) 0)) roster)
   + List.length (List.filter (fun s => negb (Qeq_bool (Strategy.pnl s) 0)
                                        && negb (Qle_bool 0 (Strategy.pnl s))) roster)
   <= number_in CLOSED roster + number_in FORCE_CLOSED roster
      + number_in FAILED roster)%nat.
Proof.
  unfold number_in. induction 1 as [|s l [Hi Hp] _ IH]; [reflexivity|].
  simpl.
  assert (Hs : (Strategy.state s = CREATED \/ Strategy.state s = OPEN) ->
               Qeq_bool (Strategy.pnl s) 0 = true).
  { intros Hst. rewrite Hp. unfold realized_pnl.
    unfold lifecycle_invariant, prices_of_created, prices_of_open in Hi.
    destruct (Strategy.exit_price s); [|reflexivity].
    destruct Hst as [E|E]; rewrite E in Hi; simpl in Hi;
      rewrite ?andb_false_r in Hi; discriminate. }
  assert (Hx : Qle_bool (Strategy.pnl s) 0 = false ->
               Qle_bool 0 (Strategy.pnl s) = false -> False).
  { intros H1 H2.
    destruct (Qlt_le_dec 0 (Strategy.pnl s)) as [L|L].
    - apply Qlt_le_weak, Qle_bool_iff in L. congruence.
    - apply Qle_bool_iff in L. congruence. }
  destruct (Strategy.state s) eqn:E; simpl;
    try (rewrite Hs by auto; simpl; lia);
    destruct (Qeq_bool (Strategy.pnl s) 0); simpl; try lia;
    destruct (Qle_bool (Strategy.pnl s) 0) eqn:H1,
             (Qle_bool 0 (Strategy.pnl s)) eqn:H2; simpl; try lia;
    exfalso; now apply Hx.
Qed.

End UnitMore.

(** The loop of a unit looks at nothing behind the stop signal, and at
    nothing behind the tick that closes its strategy. *)
Theorem unit_ignores_what_follows
    (py_eval : string -> ConditionEvaluator.namespace -> ConditionEvaluator.namespace ->
               ConditionEvaluator.result ConditionEvaluator.value)
    (s : Strategy.t) (now : Py.datetime)
    (before behind : list (Py.datetime * option MarketTick.t)) :
  StrategyEngine.consume py_eval s (before ++ (now, None) :: behind)
  = StrategyEngine.consume py_eval s before
  /\ (Strategy.is_closed (StrategyEngine.consume py_eval s before) = true ->
      StrategyEngine.consume py_eval s (before ++ behind)
      = StrategyEngine.consume py_eval s before).
Proof.
  split.
  - revert s. induction before as [|[t [tick|]] rest IH]; intros s; simpl;
      try reflexivity.
    destruct (Strategy.is_closed (StrategyEngine._evaluate_strategy py_eval t s tick));
      [reflexivity|apply IH].
  - revert s. induction before as [|[t [tick|]] rest IH]; intros s; simpl.
    + intros Hc. now apply consume_closed.
    + destruct (Strategy.is_closed (StrategyEngine._evaluate_strategy py_eval t s tick));
        [reflexivity|apply IH].
    + reflexivity.
Qed.

Lemma unit_ignores_late_tick :
  StrategyEngine.consume PyEval.eval Sample.fresh
    (Sample.delivered ++ (Sample.now, None) :: Sample.late)
  = StrategyEngine.consume PyEval.eval Sample.fresh Sample.delivered
  /\ Strategy.state (StrategyEngine.consume PyEval.eval Sample.fresh Sample.delivered)
     = OPEN
  /\ Strategy.is_closed (StrategyEngine.consume PyEval.eval Sample.fresh Sample.late_exit)
     = true
  /\ StrategyEngine.consume PyEval.eval Sample.fresh (Sample.late_exit ++ Sample.late)
     = StrategyEngine.consume PyEval.eval Sample.fresh Sample.late_exit.
Proof.
  split; [exact (proj1 (unit_ignores_what_follows PyEval.eval Sample.fresh Sample.now
                          Sample.delivered Sample.late))|].
  split; [vm_compute; reflexivity|].
  assert (H : Strategy.is_closed
                (StrategyEngine.consume PyEval.eval Sample.fresh Sample.late_exit) = true)
    by (vm_compute; reflexivity).
  split; [exact H|].
  exact (proj2 (unit_ignores_what_follows PyEval.eval Sample.fresh Sample.now
                  Sample.late_exit Sample.late) H).
Defined.

(** A unit never ends with its strategy open: whatever its queue
    delivered, [_run_strategy] leaves a record that is not [OPEN] and that
    holds the prices and the reason of its state. *)
Theorem unit_never_ends_open
    (py_eval : string -> ConditionEvaluator.namespace -> ConditionEvaluator.namespace ->
               ConditionEvaluator.result ConditionEvaluator.value)
    (sim : MarketDataSimulator.t) (now : Py.datetime) (c : Strategy.config)
    (delivered : list (Py.datetime * option MarketTick.t)) :
  let s := StrategyEngine._run_strategy py_eval sim now (Strategy.of_config c) delivered in
  Strategy.state s <> OPEN
  /\ lifecycle_invariant s = true
  /\ reason_of_state s = true.
Proof.
  intros s. split; [apply run_strategy_not_open|].
  destruct (run_strategy_as_operations py_eval sim now (Strategy.of_config c) delivered)
    as [ops H].
  subst s. rewrite H. split.
  - apply lifecycle_invariant_foldl. destruct c as [[[[[[? ?] ?] ?] ?] ?] ?].
    reflexivity.
  - apply (foldl_apply_ind py_eval (fun s => reason_of_state s = true)).
    + destruct c as [[[[[[? ?] ?] ?] ?] ?] ?]. reflexivity.
    + intros s0 op. apply reason_of_state_apply.
Qed.

(** At any point of a day of strategies with distinct [strategy_id]s, an
    open strategy belongs to a unit whose task has not finished and is
    still in [active_strategies]; so once [active_strategies] is empty, no
    strategy is open. *)
Theorem open_positions_belong_to_live_units
    (py_eval : string -> ConditionEvaluator.namespace -> ConditionEvaluator.namespace ->
               ConditionEvaluator.result ConditionEvaluator.value)
    (sim : MarketDataSimulator.t) (roster : list Strategy.t)
    (schedule : list StrategyEngine.event) :
  distinct_ids roster ->
  let e := StrategyEngine.exec_all py_eval (StrategyEngine.run sim roster) schedule in
  (forall r s, StrategyEngine.heap e !! r = Some s -> Strategy.state s = OPEN ->
               r ∈ StrategyEngine.live_tasks e
               /\ r ∈ StrategyEngine.active_strategies e)
  /\ (StrategyEngine.active_strategies e = [] ->
      Forall (fun s => Strategy.state s <> OPEN) (StrategyEngine.heap e)).
Proof.
  intros Hd e.
  assert (H : open_is_active e) by now apply open_is_active_of_day.
  assert (L : open_is_live e).
  { apply open_is_live_exec_all, open_is_live_run. }
  split; [intros r s Hr Hs; split; [exact (L r s Hr Hs)|exact (H r s Hr Hs)]|]. intros Ha. apply Forall_lookup_2. intros r s Hr Hs.
  specialize (H r s Hr Hs). rewrite Ha in H. now apply elem_of_nil in H.
Qed.

Lemma nothing_open_after_the_day :
  let e := StrategyEngine.exec_all PyEval.eval
             (StrategyEngine.run (Sample.feed 100)
                (map Strategy.of_config Sample.configs_with_holder))
             Sample.day_with_force_close in
  distinct_ids (map Strategy.of_config Sample.configs_with_holder)
  /\ StrategyEngine.active_strategies e = []
  /\ map Strategy.state (StrategyEngine.heap e) = [CREATED; FORCE_CLOSED; CLOSED]
  /\ Forall (fun s => Strategy.state s <> OPEN) (StrategyEngine.heap e).
Proof.
  intros e.
  assert (Hd : distinct_ids (map Strategy.of_config Sample.configs_with_holder)).
  { refine (bool_decide_unpack _ _). vm_compute. exact I. }
  assert (H : StrategyEngine.active_strategies e = []) by (vm_compute; reflexivity).
  split; [exact Hd|]. split; [exact H|]. split; [vm_compute; reflexivity|].
  exact (proj2 (open_positions_belong_to_live_units PyEval.eval (Sample.feed 100)
                  (map Strategy.of_config Sample.configs_with_holder)
                  Sample.day_with_force_close Hd) H).
Defined.



(** A second [force_close_all] changes nothing: a position is closed once,
    and its exit price, time, reason and [pnl] are not written again. *)
Theorem force_close_all_twice (now1 now2 : Py.datetime) (e : StrategyEngine.t) :
  StrategyEngine.force_close_all now2 (StrategyEngine.force_close_all now1 e)
  = StrategyEngine.force_close_all now1 e.
Proof.
  assert (H : StrategyEngine.heap
                (StrategyEngine.force_close_all now2 (StrategyEngine.force_close_all now1 e))
              = StrategyEngine.heap (StrategyEngine.force_close_all now1 e)).
  { apply list_eq. intros r. rewrite force_close_all_lookup.
    change (StrategyEngine.active_strategies (StrategyEngine.force_close_all now1 e))
      with (StrategyEngine.active_strategies e).
    change (StrategyEngine.market_simulator (StrategyEngine.force_close_all now1 e))
      with (StrategyEngine.market_simulator e).
    rewrite force_close_all_lookup.
    destruct (decide (r ∈ StrategyEngine.active_strategies e)); [|reflexivity].
    destruct (StrategyEngine.heap e !! r) as [s|]; [|reflexivity]. simpl. f_equal.
    unfold StrategyEngine.close_if_open at 1.
    destruct (Strategy.is_open _) eqn:E; [|reflexivity].
    apply is_open_true in E. now apply close_if_open_not_open in E. }
  change (StrategyEngine.force_close_all now2 (StrategyEngine.force_close_all now1 e))
    with (StrategyEngine.mk (StrategyEngine.market_simulator e)
            (StrategyEngine.heap
               (StrategyEngine.force_close_all now2
                  (StrategyEngine.force_close_all now1 e)))
            (StrategyEngine.strategies e) (StrategyEngine.active_strategies e)
            (StrategyEngine.live_tasks e)).
  rewrite H. reflexivity.
Qed.

(** In the statistics of a day a winner or a loser is a strategy that has
    exited: [winners + losers] never exceeds [completed + force_closed +
    failed], and a strategy still in [CREATED] or [OPEN] counts as neither. *)
Theorem winners_and_losers_have_exited
    (py_eval : string -> ConditionEvaluator.namespace -> ConditionEvaluator.namespace ->
               ConditionEvaluator.result ConditionEvaluator.value)
    (sim : MarketDataSimulator.t) (configs : list Strategy.config)
    (schedule : list StrategyEngine.event) :
  let st := StrategyEngine.get_statistics
              (StrategyEngine.exec_all py_eval
                 (StrategyEngine.run sim (map Strategy.of_config configs)) schedule) in
  (StrategyEngine.winners st + StrategyEngine.losers st
   <= StrategyEngine.completed st + StrategyEngine.force_closed st
      + StrategyEngine.failed st)%nat.
Proof.
  intros st. subst st. unfold StrategyEngine.get_statistics. simpl.
  destruct (roster_of_day py_eval sim (map Strategy.of_config configs) schedule)
    as [Hd _].
  rewrite Hd. rewrite !count_number_in. unfold StrategyEngine.count.
  rewrite !py_sum_nat_ones. apply winners_losers_le.
  destruct (exec_all_keeps py_eval pnl_is_realized
              (StrategyEngine.run sim (map Strategy.of_config configs)) schedule)
    as (H1 & _ & _); [apply pnl_is_realized_apply| |exact H1].
  simpl. apply Forall_fmap, Forall_forall. intros c _.
  destruct c as [[[[[[? ?] ?] ?] ?] ?] ?]. apply pnl_is_realized_new.
Qed.

(** ** The market feed *)

Section FeedMore.
Import MarketDataSimulator.

Lemma deliver_bounded (item : option MarketTick.t) (pending : queue) :
  (List.length pending <= maxsize)%nat ->
  (List.length (deliver item pending) <= maxsize)%nat.
Proof.
  intros H. unfold deliver.
  destruct (Nat.ltb_spec (List.length pending) maxsize) as [L|L]; [|exact H].
  rewrite List.length_app. simpl. lia.
Qed.

Lemma put_bounded (item : option MarketTick.t) (q : nat) (qs : gmap nat queue) :
  (forall q' p, qs !! q' = Some p -> (List.length p <= maxsize)%nat) ->
  forall q' p, put_with_timeout item q qs !! q' = Some p ->
               (List.length p <= maxsize)%nat.
Proof.
  intros H q' p. rewrite put_lookup.
  destruct (decide (q = q')) as [->|_]; [|apply H].
  destruct (qs !! q') as [p0|] eqn:E; simpl; [|discriminate].
  intros [= <-]. apply deliver_bounded. now apply (H q').
Qed.

Lemma foldl_put_bounded (item : option MarketTick.t) (l : list nat)
    (qs : gmap nat queue) :
  (forall q' p, qs !! q' = Some p -> (List.length p <= maxsize)%nat) ->
  forall q' p, foldl (fun qs q => put_with_timeout item q qs) qs l !! q' = Some p ->
               (List.length p <= maxsize)%nat.
Proof.
  revert qs. induction l as [|q l IH]; intros qs H; simpl; [exact H|].
  apply IH. now apply put_bounded.
Qed.

Lemma after_bounded (PRICE_VOLATILITY : Q) (random : nat -> Q) (now : Py.datetime) (l : list string)
    (k : nat) (sim : t) :
  queues_bounded sim -> queues_bounded (after PRICE_VOLATILITY random now l k sim).
Proof.
  revert k sim. induction l as [|i l IH]; intros k sim H; [exact H|].
  destruct (current_prices sim !! i) as [p|] eqn:E.
  - rewrite (after_cons_priced PRICE_VOLATILITY random now i l k sim p E). apply IH.
    unfold queues_bounded, _broadcast_tick. simpl. now apply foldl_put_bounded.
  - now rewrite (after_cons_missing PRICE_VOLATILITY random now i l k sim E).
Qed.

Lemma feed_apply_keeps (PRICE_VOLATILITY : Q) (random : nat -> Q) (st : t * nat) (op : feed_op) :
  feed_wf (fst st) /\ queues_bounded (fst st) ->
  feed_wf (fst (feed_apply PRICE_VOLATILITY random st op))
  /\ queues_bounded (fst (feed_apply PRICE_VOLATILITY random st op)).
Proof.
  destruct st as [sim k]. simpl. intros [Hw Hb].
  destruct op as [i|i q|now]; simpl.
  - split; [now apply feed_wf_subscribe|].
    intros q p. simpl. intros H. apply lookup_insert_Some in H as [[_ <-]|[_ H]].
    + unfold maxsize. simpl. lia.
    + now apply (Hb q).
  - split; [now apply feed_wf_unsubscribe|exact Hb].
  - pose proof (feed_wf_round PRICE_VOLATILITY random now k sim Hw) as H1.
    pose proof (after_bounded PRICE_VOLATILITY random now (keys sim) k sim Hb) as H2.
    unfold after in H2. unfold _generate_and_broadcast_ticks in *.
    destruct (generate_over PRICE_VOLATILITY random now (keys sim) k sim) as [[sim' k'] err].
    simpl in *. auto.
Qed.

Lemma lookup_add_subscriber (i i' : string) (q : nat)
    (subs : list (string * list nat)) :
  lookup_subscribers i' (add_subscriber i q subs)
  = if decide (i' = i)
    then Some (default [] (lookup_subscribers i subs) ++ [q])%list
    else lookup_subscribers i' subs.
Proof.
  induction subs as [|[k qs] rest IH]; simpl.
  - destruct (decide (i' = i)) as [->|N].
    + now rewrite String.eqb_refl.
    + destruct (String.eqb_spec i i'); congruence.
  - destruct (String.eqb_spec k i) as [->|Hk]; simpl.
    + destruct (decide (i' = i)) as [->|N].
      * now rewrite String.eqb_refl.
      * destruct (String.eqb_spec i i'); congruence.
    + destruct (String.eqb_spec k i') as [->|Hk'].
      * destruct (decide (i' = i)); congruence.
      * exact IH.
Qed.

Lemma lookup_discard_subscriber (i i' : string) (q : nat)
    (subs : list (string * list nat)) :
  lookup_subscribers i' (discard_subscriber i q subs)
  = if decide (i' = i)
    then filter (fun q' => q' ≠ q) <$> lookup_subscribers i subs
    else lookup_subscribers i' subs.
Proof.
  induction subs as [|[k qs] rest IH]; simpl.
  - now destruct (decide (i' = i)).
  - destruct (String.eqb_spec k i) as [->|Hk]; simpl.
    + destruct (decide (i' = i)) as [->|N].
      * now rewrite String.eqb_refl.
      * destruct (String.eqb_spec i i'); congruence.
    + destruct (String.eqb_spec k i') as [->|Hk'].
      * destruct (decide (i' = i)); congruence.
      * exact IH.
Qed.

Lemma filter_ne_id (q : nat) (qs : list nat) :
  filter (fun q' => q' ≠ q) qs = qs <-> q ∉ qs.
Proof.
  split.
  - intros E H. rewrite <- E in H. apply list_elem_of_filter in H as [N _].
    now apply N.
  - induction qs as [|x qs IH]; intros H; [reflexivity|].
    apply not_elem_of_cons in H as [N H].
    rewrite filter_cons_True by congruence. f_equal. now apply IH.
Qed.

Lemma discard_unchanged (i : string) (q : nat) (subs : list (string * list nat)) :
  discard_subscriber i q subs = subs <-> q ∉ targets subs i.
Proof.
  unfold targets. induction subs as [|[k qs] rest IH]; simpl.
  - split; [intros _; apply not_elem_of_nil|reflexivity].
  - destruct (String.eqb_spec k i) as [->|Hk]; simpl.
    + rewrite <- filter_ne_id. split; [now intros [= E]|now intros ->].
    + rewrite <- IH. split; [now intros [= E]|now intros ->].
Qed.

End FeedMore.

(** Whatever callers do to a feed created by [__init__], in any order
    (subscribe, unsubscribe, run a round), the registry keeps one entry per
    instrument, no queue is registered twice, every registered queue
    exists, and no queue ever holds more than [maxsize] = 100 items. *)
Theorem feed_stays_in_order (PRICE_VOLATILITY : Q) (random : nat -> Q) (k : nat)
    (ops : list MarketDataSimulator.feed_op) :
  let st := foldl (MarketDataSimulator.feed_apply PRICE_VOLATILITY random)
                  (MarketDataSimulator.init, k) ops in
  MarketDataSimulator.feed_wf (fst st) /\ MarketDataSimulator.queues_bounded (fst st).
Proof.
  cbv zeta. induction ops as [|op ops IH] using rev_ind.
  - split; [apply feed_wf_init|]. intros q p H. simpl in H.
    now rewrite lookup_empty in H.
  - rewrite foldl_app. simpl. now apply feed_apply_keeps.
Qed.

(** [subscribe] hands out a queue that did not exist before, registers it
    empty under the instrument behind the queues that are already there,
    and touches no other queue, no other instrument and no price. *)
Theorem subscribe_adds_one_fresh_queue (sim : MarketDataSimulator.t) (i : string) :
  let '(sim', q) := MarketDataSimulator.subscribe sim i in
  MarketDataSimulator.queues sim !! q = None
  /\ MarketDataSimulator.queues sim' !! q = Some []
  /\ (forall q', q' <> q ->
        MarketDataSimulator.queues sim' !! q' = MarketDataSimulator.queues sim !! q')
  /\ (forall i',
        MarketDataSimulator.targets (MarketDataSimulator.subscribers sim') i'
        = if decide (i' = i)
          then (MarketDataSimulator.targets (MarketDataSimulator.subscribers sim) i
                ++ [q])%list
          else MarketDataSimulator.targets (MarketDataSimulator.subscribers sim) i')
  /\ MarketDataSimulator.current_prices sim' = MarketDataSimulator.current_prices sim.
Proof.
  unfold MarketDataSimulator.subscribe. simpl.
  split; [apply fresh_queue_is_fresh|].
  split; [apply lookup_insert_eq|].
  split; [intros q' N; now apply lookup_insert_ne|].
  split; [|reflexivity].
  intros i'. unfold MarketDataSimulator.targets. rewrite lookup_add_subscriber.
  now destruct (decide (i' = i)).
Qed.

(** [unsubscribe] changes the feed exactly when the queue is subscribed to
    the instrument (an unknown instrument or queue is a no-op), a second
    call changes nothing, and the instrument stays a key of the registry
    even when its last queue leaves. *)
Theorem unsubscribe_changes_iff_subscribed (sim : MarketDataSimulator.t)
    (i : string) (q : nat) :
  (MarketDataSimulator.unsubscribe sim i q = sim
   <-> q ∉ MarketDataSimulator.targets (MarketDataSimulator.subscribers sim) i)
  /\ MarketDataSimulator.unsubscribe (MarketDataSimulator.unsubscribe sim i q) i q
     = MarketDataSimulator.unsubscribe sim i q
  /\ MarketDataSimulator.keys (MarketDataSimulator.unsubscribe sim i q)
     = MarketDataSimulator.keys sim
  /\ (forall i',
        MarketDataSimulator.targets
          (MarketDataSimulator.subscribers (MarketDataSimulator.unsubscribe sim i q)) i'
        = if decide (i' = i)
          then filter (fun q' => q' ≠ q)
                 (MarketDataSimulator.targets (MarketDataSimulator.subscribers sim) i)
          else MarketDataSimulator.targets (MarketDataSimulator.subscribers sim) i').
Proof.
  assert (Ht : forall i',
        MarketDataSimulator.targets
          (MarketDataSimulator.subscribers (MarketDataSimulator.unsubscribe sim i q)) i'
        = if decide (i' = i)
          then filter (fun q' => q' ≠ q)
                 (MarketDataSimulator.targets (MarketDataSimulator.subscribers sim) i)
          else MarketDataSimulator.targets (MarketDataSimulator.subscribers sim) i').
  { intros i'. unfold MarketDataSimulator.targets, MarketDataSimulator.unsubscribe.
    simpl. rewrite lookup_discard_subscriber.
    destruct (decide (i' = i)); [|reflexivity].
    now destruct (MarketDataSimulator.lookup_subscribers i _). }
  assert (Hi : forall sim0,
        MarketDataSimulator.unsubscribe sim0 i q = sim0
        <-> q ∉ MarketDataSimulator.targets (MarketDataSimulator.subscribers sim0) i).
  { intros [r subs prices qs]. unfold MarketDataSimulator.unsubscribe. simpl.
    rewrite <- discard_unchanged. split; [now intros [= E]|now intros ->]. }
  split; [apply Hi|]. split; [|split; [apply keys_discard|exact Ht]].
  apply Hi. rewrite Ht. destruct (decide (i = i)); [|congruence].
  intros H. apply list_elem_of_filter in H as [N _]. now apply N.
Qed.

(** Subscribing and then unsubscribing the queue received gives every
    instrument its set of queues back; what stays behind is the
    instrument's key, which the rounds go on to iterate. *)
Theorem unsubscribe_undoes_subscribe (sim : MarketDataSimulator.t) (i : string) :
  MarketDataSimulator.feed_wf sim ->
  let '(sim', q) := MarketDataSimulator.subscribe sim i in
  let back := MarketDataSimulator.unsubscribe sim' i q in
  (forall i',
     MarketDataSimulator.targets (MarketDataSimulator.subscribers back) i'
     = MarketDataSimulator.targets (MarketDataSimulator.subscribers sim) i')
  /\ i ∈ MarketDataSimulator.keys back.
Proof.
  intros [Hw Hq].
  unfold MarketDataSimulator.subscribe, MarketDataSimulator.unsubscribe. simpl.
  split.
  - intros i'. unfold MarketDataSimulator.targets.
    rewrite lookup_discard_subscriber, !lookup_add_subscriber.
    destruct (decide (i' = i)) as [->|N]; [|reflexivity].
    destruct (decide (i = i)); [|congruence]. simpl.
    rewrite filter_app, filter_cons_False, filter_nil, app_nil_r by (intros H; now apply H).
    apply filter_ne_id. intros H.
    assert (Hs : is_Some (MarketDataSimulator.queues sim
                            !! MarketDataSimulator.fresh_queue sim)).
    { apply Hq.
      destruct (MarketDataSimulator.lookup_subscribers i
                  (MarketDataSimulator.subscribers sim)) as [qs|] eqn:E;
        simpl in H; [|now apply elem_of_nil in H].
      apply lookup_subscribers_elem in E.
      now apply (elem_of_concat_snd _ i qs). }
    rewrite fresh_queue_is_fresh in Hs. now destruct Hs.
  - unfold MarketDataSimulator.keys. simpl. rewrite keys_discard.
    apply elem_of_keys_add. now left.
Qed.

Lemma unsubscribe_undoes_first_subscribe :
  MarketDataSimulator.feed_wf MarketDataSimulator.init
  /\ let '(sim', q) := MarketDataSimulator.subscribe MarketDataSimulator.init "NIFTY" in
     let back := MarketDataSimulator.unsubscribe sim' "NIFTY" q in
     (forall i',
        MarketDataSimulator.targets (MarketDataSimulator.subscribers back) i'
        = MarketDataSimulator.targets
            (MarketDataSimulator.subscribers MarketDataSimulator.init) i')
     /\ "NIFTY" ∈ MarketDataSimulator.keys back.
Proof.
  split; [apply feed_wf_init|].
  exact (unsubscribe_undoes_subscribe MarketDataSimulator.init "NIFTY" feed_wf_init).
Defined.

Section RoundMore.
Import MarketDataSimulator.

Variable PRICE_VOLATILITY : Q.
Variable random : nat -> Q.
Variable now : Py.datetime.

#[local] Abbreviation after_round := (MarketDataSimulator.after PRICE_VOLATILITY random now).

(** What a pass over [l] leaves in a queue: nothing new, or one tick of
    an instrument of [l] the queue is subscribed to, with the price the
    feed holds for it afterwards. *)
Lemma after_appends (l : list string) (k : nat) (sim : t) (q : nat) (pending : queue) :
  NoDup l -> registry_wf (subscribers sim) ->
  queues sim !! q = Some pending ->
  queues (after_round l k sim) !! q = Some pending
  \/ exists tick,
       queues (after_round l k sim) !! q = Some (pending ++ [Some tick])%list
       /\ MarketTick.instrument tick ∈ l
       /\ q ∈ targets (subscribers sim) (MarketTick.instrument tick)
       /\ current_prices (after_round l k sim) !! MarketTick.instrument tick
          = Some (MarketTick.price tick)
       /\ MarketTick.timestamp tick = now.
Proof.
  revert k sim. induction l as [|i l IH]; intros k sim Hl Hw Hq; [now left|].
  apply NoDup_cons in Hl as [Hi Hl].
  destruct (current_prices sim !! i) as [p|] eqn:E;
    [|rewrite (after_cons_missing PRICE_VOLATILITY random now i l k sim E); now left].
  rewrite (after_cons_priced PRICE_VOLATILITY random now i l k sim p E).
  set (new := next_price PRICE_VOLATILITY random p k).
  set (tick := MarketTick.mk i new now).
  set (sim1 := _broadcast_tick _ i tick).
  assert (Hs : subscribers sim1 = subscribers sim) by reflexivity.
  assert (Hq1 : queues sim1 !! q
                = if decide (q ∈ targets (subscribers sim) i)
                  then deliver (Some tick) <$> queues sim !! q
                  else queues sim !! q).
  { unfold sim1. rewrite broadcast_tick_queues; [reflexivity|].
    now apply registry_wf_targets. }
  destruct (decide (q ∈ targets (subscribers sim) i)) as [Hin|Hout].
  - assert (Ho : queues (after_round l (S k) sim1) !! q = queues sim1 !! q).
    { apply after_queues_other. intros i' Hi'. rewrite Hs.
      apply (registry_wf_apart _ i i' q Hw); [|exact Hin].
      intros ->. contradiction. }
    rewrite Hq1, Hq in Ho. simpl in Ho. unfold deliver in Ho.
    destruct (List.length pending <? maxsize)%nat; [|left; exact Ho].
    right. exists tick. split; [exact Ho|]. simpl.
    split; [now left|]. split; [exact Hin|]. split; [|reflexivity].
    refine (eq_trans (after_prices_other PRICE_VOLATILITY random now l (S k) sim1 i Hi) _).
    unfold sim1. simpl. apply lookup_insert_eq.
  - rewrite Hq in Hq1.
    destruct (IH (S k) sim1 Hl) as [H|(t & H1 & H2 & H3 & H4 & H5)];
      [now rewrite Hs|exact Hq1|now left|].
    right. exists t. split; [exact H1|]. split; [now right|].
    split; [now rewrite <- Hs|]. split; [exact H4|exact H5].
Qed.

(** A pass stops at the first instrument that has no price: the
    instruments before it have been walked, and nothing behind it. *)
Lemma generate_over_stops (before : list string) (i : string) (rest : list string)
    (k : nat) (sim : t) :
  (forall j, j ∈ before -> is_Some (current_prices sim !! j)) ->
  current_prices sim !! i = None ->
  generate_over PRICE_VOLATILITY random now (before ++ i :: rest) k sim
  = (after_round before k sim, (k + List.length before)%nat, Some i).
Proof.
  revert k sim. induction before as [|j l IH]; intros k sim Hp Hn.
  - simpl. rewrite Hn. now rewrite Nat.add_0_r.
  - destruct (Hp j) as [p E]; [left|].
    rewrite (after_cons_priced PRICE_VOLATILITY random now j l k sim p E).
    simpl. rewrite E. rewrite IH.
    + f_equal. f_equal. lia.
    + intros j' Hj'. simpl. apply lookup_insert_is_Some.
      destruct (decide (j = j')); [now left|right]. split; [assumption|].
      apply Hp. now right.
    + simpl. rewrite lookup_insert_ne; [exact Hn|]. intros ->. congruence.
Qed.

Lemma generate_over_set_running (b : bool) (l : list string) (k : nat) (sim : t) :
  generate_over PRICE_VOLATILITY random now l k (set_running b sim)
  = let '(sim', k', err) := generate_over PRICE_VOLATILITY random now l k sim in
    (set_running b sim', k', err).
Proof.
  revert k sim. induction l as [|j l IH]; intros k sim; [reflexivity|].
  simpl. destruct (current_prices sim !! j) as [p|]; [|reflexivity].
  set (new := round2 _).
  exact (IH (S k)
           (_broadcast_tick
              (mk (is_running sim) (subscribers sim)
                  (<[j := new]> (current_prices sim)) (queues sim))
              j (MarketTick.mk j new now))).
Qed.

End RoundMore.

(** A round puts at most one tick into a queue, behind what the queue
    already holds: the tick is for an instrument the queue is subscribed
    to, it is stamped with the time of the round, and its price is the one
    [get_current_price] returns after the round. *)
Theorem round_delivers_at_most_one_tick (PRICE_VOLATILITY : Q) (random : nat -> Q) (now : Py.datetime)
    (k : nat) (sim : MarketDataSimulator.t) (q : nat)
    (pending : MarketDataSimulator.queue) :
  MarketDataSimulator.registry_wf (MarketDataSimulator.subscribers sim) ->
  MarketDataSimulator.queues sim !! q = Some pending ->
  let sim' :=
    fst (fst (MarketDataSimulator._generate_and_broadcast_ticks PRICE_VOLATILITY random now k sim)) in
  MarketDataSimulator.queues sim' !! q = Some pending
  \/ exists tick,
       MarketDataSimulator.queues sim' !! q = Some (pending ++ [Some tick])%list
       /\ q ∈ MarketDataSimulator.targets (MarketDataSimulator.subscribers sim)
                (MarketTick.instrument tick)
       /\ MarketDataSimulator.get_current_price sim' (MarketTick.instrument tick)
          = MarketTick.price tick
       /\ MarketTick.timestamp tick = now.
Proof.
  intros Hw Hq sim'.
  destruct (after_appends PRICE_VOLATILITY random now (MarketDataSimulator.keys sim) k sim q pending
              (proj1 Hw) Hw Hq) as [H|(t & H1 & _ & H3 & H4 & H5)]; [now left|].
  right. exists t. split; [exact H1|]. split; [exact H3|]. split; [|exact H5].
  unfold MarketDataSimulator.get_current_price. subst sim'.
  unfold MarketDataSimulator.after in H4.
  unfold MarketDataSimulator._generate_and_broadcast_ticks. now rewrite H4.
Qed.

Lemma round_delivers_one_tick_to_the_subscriber :
  MarketDataSimulator.registry_wf (MarketDataSimulator.subscribers Sample.one_subscriber)
  /\ MarketDataSimulator.queues Sample.one_subscriber !! 1%nat = Some []
  /\ let sim' :=
       fst (fst (MarketDataSimulator._generate_and_broadcast_ticks Sample.volatility Sample.steady
                   Sample.now 0 Sample.one_subscriber)) in
     (MarketDataSimulator.queues sim' !! 1%nat = Some []
      \/ exists tick,
           MarketDataSimulator.queues sim' !! 1%nat = Some ([] ++ [Some tick])%list
           /\ 1%nat ∈ MarketDataSimulator.targets
                        (MarketDataSimulator.subscribers Sample.one_subscriber)
                        (MarketTick.instrument tick)
           /\ MarketDataSimulator.get_current_price sim' (MarketTick.instrument tick)
              = MarketTick.price tick
           /\ MarketTick.timestamp tick = Sample.now).
Proof.
  assert (Hwf : MarketDataSimulator.registry_wf
                  (MarketDataSimulator.subscribers Sample.one_subscriber)).
  { split; simpl; repeat constructor; intros H; inversion H. }
  assert (Hq : MarketDataSimulator.queues Sample.one_subscriber !! 1%nat = Some [])
    by reflexivity.
  split; [exact Hwf|]. split; [exact Hq|].
  exact (round_delivers_at_most_one_tick Sample.volatility Sample.steady Sample.now 0
           Sample.one_subscriber 1%nat [] Hwf Hq).
Defined.

(** A subscription to an instrument that has no price ends the feed.  The
    round walks the instruments registered before it, one draw each,
    raises [KeyError] at it, and leaves everything behind it alone: no
    draw, no price moved, no tick sent.  The loop of [start] is left
    through [except Exception], so no later round takes place, and
    [is_running] is cleared. *)
Theorem unpriced_subscription_ends_the_feed (PRICE_VOLATILITY : Q) (random : nat -> Q)
    (now : Py.datetime) (k : nat) (sim : MarketDataSimulator.t)
    (before : list string) (i : string) (rest : list string) :
  MarketDataSimulator.keys sim = (before ++ i :: rest)%list ->
  (forall j, j ∈ before -> is_Some (MarketDataSimulator.current_prices sim !! j)) ->
  MarketDataSimulator.current_prices sim !! i = None ->
  let sim' := MarketDataSimulator.after PRICE_VOLATILITY random now before k sim in
  MarketDataSimulator._generate_and_broadcast_ticks PRICE_VOLATILITY random now k sim
  = (sim', (k + List.length before)%nat, Some i)
  /\ (before = [] -> sim' = sim)
  /\ (forall j, j ∉ before ->
        MarketDataSimulator.current_prices sim' !! j
        = MarketDataSimulator.current_prices sim !! j)
  /\ (forall q,
        (forall j, j ∈ before ->
                   q ∉ MarketDataSimulator.targets (MarketDataSimulator.subscribers sim) j) ->
        MarketDataSimulator.queues sim' !! q = MarketDataSimulator.queues sim !! q)
  /\ forall later,
       MarketDataSimulator.start PRICE_VOLATILITY random (now :: later) k sim
       = (MarketDataSimulator.set_running false sim', (k + List.length before)%nat).
Proof.
  intros Hk Hp Hn sim'.
  assert (Hg : MarketDataSimulator._generate_and_broadcast_ticks PRICE_VOLATILITY random
                 now k sim = (sim', (k + List.length before)%nat, Some i)).
  { unfold MarketDataSimulator._generate_and_broadcast_ticks. rewrite Hk.
    now apply generate_over_stops. }
  split; [exact Hg|]. split; [intros ->; reflexivity|].
  split; [intros j Hj; now apply after_prices_other|].
  split; [intros q Hq; now apply after_queues_other|].
  intros later. unfold MarketDataSimulator.start. simpl.
  unfold MarketDataSimulator._generate_and_broadcast_ticks in *.
  change (MarketDataSimulator.keys (MarketDataSimulator.set_running true sim))
    with (MarketDataSimulator.keys sim).
  rewrite generate_over_set_running, Hg. reflexivity.
Qed.

Lemma unpriced_sensex_ends_the_feed :
  let sim' := MarketDataSimulator.after Sample.volatility Sample.steady Sample.now
                ["NIFTY"] 0 Sample.unpriced in
  MarketDataSimulator.keys Sample.unpriced = ["NIFTY"; "SENSEX"; "BANKNIFTY"]
  /\ MarketDataSimulator.current_prices Sample.unpriced !! "SENSEX" = None
  /\ MarketDataSimulator._generate_and_broadcast_ticks Sample.volatility Sample.steady
       Sample.now 0 Sample.unpriced = (sim', 1%nat, Some "SENSEX")
  /\ MarketDataSimulator.current_prices sim' !! "NIFTY" = Some (binary64 (201201 # 10))
  /\ MarketDataSimulator.current_prices sim' !! "BANKNIFTY" = Some 45000%Q
  /\ MarketDataSimulator.queues sim' !! 3%nat = Some []
  /\ forall later,
       MarketDataSimulator.start Sample.volatility Sample.steady (Sample.now :: later) 0
         Sample.unpriced
       = (MarketDataSimulator.set_running false sim', 1%nat).
Proof.
  intros sim'.
  assert (Hk : MarketDataSimulator.keys Sample.unpriced
               = (["NIFTY"] ++ "SENSEX" :: ["BANKNIFTY"])%list) by reflexivity.
  assert (Hp : forall j, j ∈ ["NIFTY"] ->
               is_Some (MarketDataSimulator.current_prices Sample.unpriced !! j)).
  { intros j Hj. apply list_elem_of_singleton in Hj. subst j. vm_compute. eauto. }
  assert (Hn : MarketDataSimulator.current_prices Sample.unpriced !! "SENSEX" = None)
    by (vm_compute; reflexivity).
  destruct (unpriced_subscription_ends_the_feed Sample.volatility Sample.steady
              Sample.now 0 Sample.unpriced ["NIFTY"] "SENSEX" ["BANKNIFTY"] Hk Hp Hn)
    as (H1 & _ & H3 & H4 & H5).
  split; [exact Hk|]. split; [exact Hn|]. split; [exact H1|].
  split; [vm_compute; reflexivity|].
  split.
  - refine (eq_trans (H3 "BANKNIFTY" _) _); [|vm_compute; reflexivity].
    intros H. apply list_elem_of_singleton in H. discriminate.
  - split; [|exact H5].
    refine (eq_trans (H4 3%nat _) _); [|vm_compute; reflexivity].
    intros j Hj. apply list_elem_of_singleton in Hj. subst j.
    vm_compute. intros H. apply list_elem_of_singleton in H. discriminate.
Defined.

Section StopFacts.
Import MarketDataSimulator.

Lemma put_stop_signal_room (registered : list nat) (qs : gmap nat queue) :
  NoDup registered ->
  (forall q p, q ∈ registered -> qs !! q = Some p ->
               (List.length p < maxsize)%nat) ->
  snd (put_stop_signal registered qs) = None
  /\ forall q,
       fst (put_stop_signal registered qs) !! q
       = if decide (q ∈ registered)
         then (fun pending => pending ++ [None])%list <$> qs !! q
         else qs !! q.
Proof.
  revert qs. induction registered as [|q0 rest IH]; intros qs Hn Hr.
  - split; [reflexivity|]. intros q. simpl.
    destruct (decide (q ∈ [])) as [H|_]; [now apply elem_of_nil in H|reflexivity].
  - apply NoDup_cons in Hn as [H0 Hn]. simpl.
    assert (Hd : forall q, q <> q0 ->
              (if decide (q ∈ q0 :: rest)
               then (fun pending => pending ++ [None])%list <$> qs !! q
               else qs !! q)
              = if decide (q ∈ rest)
                then (fun pending => pending ++ [None])%list <$> qs !! q
                else qs !! q).
    { intros q N. destruct (decide (q ∈ q0 :: rest)) as [H|H], (decide (q ∈ rest));
        try reflexivity.
      - apply elem_of_cons in H as [->|H]; congruence.
      - exfalso. apply H. now right. }
    destruct (qs !! q0) as [p|] eqn:E.
    + assert (L : (List.length p <? maxsize)%nat = true).
      { apply Nat.ltb_lt. apply (Hr q0); [now left|exact E]. }
      rewrite L.
      destruct (IH (<[q0 := (p ++ [None])%list]> qs) Hn) as [H1 H2].
      { intros q p' Hq. rewrite lookup_insert_ne by (intros ->; contradiction).
        apply Hr. now right. }
      split; [exact H1|]. intros q. rewrite H2.
      destruct (decide (q = q0)) as [->|N].
      * destruct (decide (q0 ∈ rest)); [contradiction|].
        destruct (decide (q0 ∈ q0 :: rest)) as [_|H]; [|exfalso; apply H; now left].
        rewrite lookup_insert_eq, E. reflexivity.
      * rewrite (Hd q N), lookup_insert_ne by congruence. reflexivity.
    + destruct (IH qs Hn) as [H1 H2].
      { intros q p' Hq. apply Hr. now right. }
      split; [exact H1|]. intros q. rewrite H2.
      destruct (decide (q = q0)) as [->|N]; [|now rewrite (Hd q N)].
      destruct (decide (q0 ∈ rest)); [contradiction|].
      destruct (decide (q0 ∈ q0 :: rest)); now rewrite E.
Qed.

End StopFacts.

(** [stop] clears [is_running] and, when every registered queue has room,
    returns with exactly one stop signal [None] put behind the pending
    items of every registered queue; a queue that is not registered (one
    that was unsubscribed) gets none. *)
Theorem stop_signals_every_queue (sim : MarketDataSimulator.t) :
  MarketDataSimulator.registry_wf (MarketDataSimulator.subscribers sim) ->
  (forall q pending,
     q ∈ concat (map snd (MarketDataSimulator.subscribers sim)) ->
     MarketDataSimulator.queues sim !! q = Some pending ->
     (List.length pending < MarketDataSimulator.maxsize)%nat) ->
  let '(sim', blocked) := MarketDataSimulator.stop sim in
  blocked = None
  /\ MarketDataSimulator.is_running sim' = false
  /\ MarketDataSimulator.subscribers sim' = MarketDataSimulator.subscribers sim
  /\ forall q,
       MarketDataSimulator.queues sim' !! q
       = if decide (q ∈ concat (map snd (MarketDataSimulator.subscribers sim)))
         then (fun pending => pending ++ [None])%list
                <$> MarketDataSimulator.queues sim !! q
         else MarketDataSimulator.queues sim !! q.
Proof.
  intros [_ Hn] Hr. unfold MarketDataSimulator.stop.
  destruct (put_stop_signal_room _ (MarketDataSimulator.queues sim) Hn Hr) as [H1 H2].
  destruct (MarketDataSimulator.put_stop_signal _ _) as [qs blocked].
  simpl in *. auto.
Qed.

Lemma stop_signals_the_subscriber :
  MarketDataSimulator.registry_wf (MarketDataSimulator.subscribers Sample.one_subscriber)
  /\ let '(sim', blocked) := MarketDataSimulator.stop Sample.one_subscriber in
     blocked = None
     /\ MarketDataSimulator.is_running sim' = false
     /\ MarketDataSimulator.subscribers sim'
        = MarketDataSimulator.subscribers Sample.one_subscriber
     /\ forall q,
          MarketDataSimulator.queues sim' !! q
          = if decide (q ∈ concat (map snd (MarketDataSimulator.subscribers
                                              Sample.one_subscriber)))
            then (fun pending => pending ++ [None])%list
                   <$> MarketDataSimulator.queues Sample.one_subscriber !! q
            else MarketDataSimulator.queues Sample.one_subscriber !! q.
Proof.
  assert (Hwf : MarketDataSimulator.registry_wf
                  (MarketDataSimulator.subscribers Sample.one_subscriber)).
  { split; simpl; repeat constructor; intros H; inversion H. }
  split; [exact Hwf|].
  apply (stop_signals_every_queue Sample.one_subscriber Hwf).
  intros q pending Hq. simpl in Hq. apply list_elem_of_singleton in Hq. subst q.
  intros [= <-]. vm_compute. lia.
Defined.

(** ** Time literals, once more *)

(** A condition that mentions no clock time is evaluated as written, and
    on a text with at most one colon a second pass of [_normalize_time]
    finds nothing left to rewrite. *)
Theorem normalize_time_settles (s : string) :
  (Py.count ":" s <= 1)%nat ->
  ConditionEvaluator._normalize_time (ConditionEvaluator._normalize_time s)
  = ConditionEvaluator._normalize_time s
  /\ (Py.count ":" s = 0%nat -> ConditionEvaluator._normalize_time s = s).
Proof.
  intros H. split; [now apply normalize_time_idempotent_one_colon|].
  intros H0. apply normalize_time_no_colon. now apply count_zero_elem.
Qed.

Lemma normalize_time_settles_on_market_close :
  (Py.count ":" "time >= 15:20" <= 1)%nat
  /\ ConditionEvaluator._normalize_time "time >= 15:20" = "time >= 920"
  /\ ConditionEvaluator._normalize_time
       (ConditionEvaluator._normalize_time "time >= 15:20")
     = ConditionEvaluator._normalize_time "time >= 15:20".
Proof.
  assert (H : (Py.count ":" "time >= 15:20" <= 1)%nat) by (vm_compute; lia).
  split; [exact H|]. split; [vm_compute; reflexivity|].
  exact (proj1 (normalize_time_settles "time >= 15:20" H)).
Defined.

Section StartFacts.
Import MarketDataSimulator.

Variable PRICE_VOLATILITY : Q.
Variable random : nat -> Q.

Lemma after_is_running (now : Py.datetime) (l : list string) (k : nat) (sim : t) :
  is_running (after PRICE_VOLATILITY random now l k sim) = is_running sim.
Proof.
  revert k sim. induction l as [|i l IH]; intros k sim; [reflexivity|].
  destruct (current_prices sim !! i) as [p|] eqn:E.
  - rewrite (after_cons_priced PRICE_VOLATILITY random now i l k sim p E). now rewrite IH.
  - now rewrite (after_cons_missing PRICE_VOLATILITY random now i l k sim E).
Qed.

Lemma after_price_is_Some (now : Py.datetime) (l : list string) (k : nat) (sim : t)
    (i : string) :
  is_Some (current_prices (after PRICE_VOLATILITY random now l k sim) !! i)
  <-> is_Some (current_prices sim !! i).
Proof.
  revert k sim. induction l as [|j l IH]; intros k sim; [reflexivity|].
  destruct (current_prices sim !! j) as [p|] eqn:E.
  - rewrite (after_cons_priced PRICE_VOLATILITY random now j l k sim p E), IH. simpl.
    rewrite lookup_insert_is_Some. split.
    + intros [->|[_ H]]; [rewrite E; eauto|exact H].
    + intros H. destruct (decide (j = i)); [now left|now right].
  - now rewrite (after_cons_missing PRICE_VOLATILITY random now j l k sim E).
Qed.

Lemma start_loop_priced (rounds : list Py.datetime) (k : nat) (sim : t) :
  (forall i, i ∈ keys sim -> is_Some (current_prices sim !! i)) ->
  exists sim',
    start_loop PRICE_VOLATILITY random rounds k sim
    = (sim', (k + List.length rounds * List.length (keys sim))%nat)
    /\ subscribers sim' = subscribers sim
    /\ is_running sim' = is_running sim
    /\ forall i, is_Some (current_prices sim' !! i) <-> is_Some (current_prices sim !! i).
Proof.
  revert k sim. induction rounds as [|now later IH]; intros k sim Hp.
  - exists sim. simpl. rewrite Nat.add_0_r. auto.
  - simpl. unfold _generate_and_broadcast_ticks.
    rewrite (generate_over_completes PRICE_VOLATILITY random now (keys sim) k sim Hp).
    assert (Hk : keys (after PRICE_VOLATILITY random now (keys sim) k sim) = keys sim).
    { unfold keys. now rewrite after_subscribers. }
    destruct (IH (k + List.length (keys sim))%nat (after PRICE_VOLATILITY random now (keys sim) k sim))
      as (sim' & H1 & H2 & H3 & H4).
    { intros i Hi. rewrite Hk in Hi. apply after_price_is_Some. now apply Hp. }
    exists sim'. rewrite H1, Hk. split; [f_equal; lia|].
    split; [now rewrite H2, after_subscribers|].
    split; [now rewrite H3, after_is_running|].
    intros i. now rewrite H4, after_price_is_Some.
Qed.

End StartFacts.

(** While every subscribed instrument has a price, [start] runs every
    round to its end: each round makes one draw per subscribed instrument,
    no instrument enters or leaves the price map or the registry, and
    [is_running] is cleared when the loop is left. *)
Theorem start_runs_every_round (PRICE_VOLATILITY : Q) (random : nat -> Q) (rounds : list Py.datetime)
    (k : nat) (sim : MarketDataSimulator.t) :
  (forall i, i ∈ MarketDataSimulator.keys sim ->
             is_Some (MarketDataSimulator.current_prices sim !! i)) ->
  let '(sim', k') := MarketDataSimulator.start PRICE_VOLATILITY random rounds k sim in
  k' = (k + List.length rounds * List.length (MarketDataSimulator.keys sim))%nat
  /\ MarketDataSimulator.is_running sim' = false
  /\ MarketDataSimulator.subscribers sim' = MarketDataSimulator.subscribers sim
  /\ forall i, is_Some (MarketDataSimulator.current_prices sim' !! i)
               <-> is_Some (MarketDataSimulator.current_prices sim !! i).
Proof.
  intros Hp. unfold MarketDataSimulator.start.
  destruct (start_loop_priced PRICE_VOLATILITY random rounds k (MarketDataSimulator.set_running true sim))
    as (sim' & H1 & H2 & _ & H4); [exact Hp|].
  rewrite H1. simpl. auto.
Qed.

Lemma start_runs_two_rounds :
  (forall i, i ∈ MarketDataSimulator.keys Sample.one_subscriber ->
             is_Some (MarketDataSimulator.current_prices Sample.one_subscriber !! i))
  /\ let '(sim', k') :=
       MarketDataSimulator.start Sample.volatility Sample.steady [Sample.now; Sample.now] 0
         Sample.one_subscriber in
     k' = (0 + List.length [Sample.now; Sample.now]
               * List.length (MarketDataSimulator.keys Sample.one_subscriber))%nat
     /\ MarketDataSimulator.is_running sim' = false
     /\ MarketDataSimulator.subscribers sim'
        = MarketDataSimulator.subscribers Sample.one_subscriber
     /\ forall i, is_Some (MarketDataSimulator.current_prices sim' !! i)
                  <-> is_Some (MarketDataSimulator.current_prices
                                 Sample.one_subscriber !! i).
Proof.
  assert (Hp : forall i, i ∈ MarketDataSimulator.keys Sample.one_subscriber ->
               is_Some (MarketDataSimulator.current_prices Sample.one_subscriber !! i)).
  { intros i Hi. apply list_elem_of_singleton in Hi. subst i. vm_compute. eauto. }
  split; [exact Hp|].
  exact (start_runs_every_round Sample.volatility Sample.steady [Sample.now; Sample.now] 0
           Sample.one_subscriber Hp).
Defined.
